(** * secure-pdf-back-end: quota engine, render-job scheduler and layout engine

    A shallow embedding of the parts of the service that its specification
    makes claims about:

    - [Js]                   : JavaScript values and helpers the code relies on
                               (exceptions, [String.prototype.trim], [Number]
                               to [String] on integers);
    - [Redis]                : the KV cache as the code uses it (string keys with
                               expiry, the [remaining] hash field, and the Lua
                               scripts shipped in the sources);
    - [PrintQuotaService]    : the quota engine the specification describes
                               step by step (the one with
                               [writeBehindDbConsume]);
    - [PrintQuotaServiceV2]  : its sibling [services/printQuotaServiceV2.js];
    - [Hmac]                 : [services/hmac.js];
    - [VectorJobRoutes]      : admission, [routes/vectorJobRoutes.js];
    - [VectorPdfWorker]      : batch / merge / failure handler of the worker;
    - [Number]               : the numbers of the layout engine, IEEE doubles;
    - [VectorLayoutEngine]   : slot grid and series numbers of the layout engine.

    Quotas, counters and page indexes of the quota engine and the scheduler,
    which the code only ever uses as small integers, are [Z].  The layout
    engine computes coordinates, sizes and series numbers in doubles: there
    the numbers are the primitive [float] of the prover, and strings are
    lists of UTF-16 code units.  Elsewhere a string is the byte sequence of
    its UTF-8 encoding.  Calls to the store are taken to succeed. *)

From Stdlib Require Import ZArith List String Ascii Lia Bool Floats.
From stdpp Require Import base option gmap strings list pretty sorting.

Set Default Proof Using "Type".

(* ===================================================================== *)
(** ** JavaScript helpers *)
(* ===================================================================== *)

Module Js.

(** The outcome of a call that may throw. *)
Inductive result (E A : Type) : Type :=
| Ok (a : A)
| Throw (e : E).
Arguments Ok {E A} a.
Arguments Throw {E A} e.

Definition bind {E A B} (m : result E A) (k : A → result E B) : result E B :=
  match m with
  | Ok a => k a
  | Throw e => Throw e
  end.

Definition is_ok {E A} (m : result E A) : bool :=
  match m with Ok _ => true | Throw _ => false end.

(** A thrown [Error]: the constructor's name and the message. *)
Record error : Type := mkError { name : string; message : string }.

Definition Error (msg : string) : error := mkError "Error" msg.
Definition RangeError (msg : string) : error := mkError "RangeError" msg.
Definition ReferenceError (msg : string) : error := mkError "ReferenceError" msg.

Global Instance error_eq_dec : EqDecision error.
Proof. solve_decision. Defined.

(** Code that threads a state [S] and may throw an [E]: what a step did
    before it threw stays done. *)
Definition SE (S E A : Type) : Type := S → result E A * S.

Definition ret {S E A} (a : A) : SE S E A := λ s, (Ok a, s).
Definition throw {S E A} (e : E) : SE S E A := λ s, (Throw e, s).
Definition andThen {S E A B} (m : SE S E A) (k : A → SE S E B) : SE S E B :=
  λ s, match m s with
       | (Ok a, s') => k a s'
       | (Throw e, s') => (Throw e, s')
       end.
Definition try_catch {S E A} (m : SE S E A) (h : E → SE S E A) : SE S E A :=
  λ s, match m s with
       | (Ok a, s') => (Ok a, s')
       | (Throw e, s') => h e s'
       end.
(** A pure outcome, and a step that only changes the state. *)
Definition lift {S E A} (r : result E A) : SE S E A := λ s, (r, s).
Definition modify {S E} (f : S → S) : SE S E unit := λ s, (Ok tt, f s).

Notation "'let!' x ':=' m 'in' k" := (andThen m (λ x, k))
  (at level 10, x name, m at level 100, k at level 200).
Notation "'run!' m 'in' k" := (andThen m (λ _, k))
  (at level 10, m at level 100, k at level 200).

(** White space as [String.prototype.trim] sees it (the WhiteSpace and
    LineTerminator code points of ECMAScript), on a string read as UTF-8.
    One byte: TAB, LF, VT, FF, CR and SPACE. *)
Definition is_ws (c : ascii) : bool :=
  match nat_of_ascii c with
  | 9%nat | 10%nat | 11%nat | 12%nat | 13%nat | 32%nat => true
  | _ => false
  end.

(** Two bytes: U+00A0. *)
Definition is_ws2 (c1 c2 : ascii) : bool :=
  (nat_of_ascii c1 =? 194)%nat && (nat_of_ascii c2 =? 160)%nat.

(** Three bytes: U+1680, U+2000 to U+200A, U+2028, U+2029, U+202F, U+205F,
    U+3000 and U+FEFF. *)
Definition is_ws3 (c1 c2 c3 : ascii) : bool :=
  match nat_of_ascii c1, nat_of_ascii c2, nat_of_ascii c3 with
  | 225%nat, 154%nat, 128%nat => true
  | 226%nat, 128%nat, n => (128 <=? n)%nat && (n <=? 138)%nat
                           || (n =? 168)%nat || (n =? 169)%nat || (n =? 175)%nat
  | 226%nat, 129%nat, 159%nat => true
  | 227%nat, 128%nat, 128%nat => true
  | 239%nat, 187%nat, 191%nat => true
  | _, _, _ => false
  end.

Fixpoint trimStart (s : string) : string :=
  match s with
  | EmptyString => EmptyString
  | String c1 r1 =>
      if is_ws c1 then trimStart r1
      else match r1 with
           | EmptyString => s
           | String c2 r2 =>
               if is_ws2 c1 c2 then trimStart r2
               else match r2 with
                    | EmptyString => s
                    | String c3 r3 => if is_ws3 c1 c2 c3 then trimStart r3 else s
                    end
           end
  end.

(** [trimEnd] drops the trailing white space: what is left of the string
    from a byte on is kept unless it is white space only. *)
Fixpoint trimEnd (s : string) : string :=
  match s with
  | EmptyString => EmptyString
  | String c s' =>
      match trimStart s with
      | EmptyString => EmptyString
      | _ => String c (trimEnd s')
      end
  end.

Definition trim (s : string) : string := trimEnd (trimStart s).

(** A string of white space only. *)
Inductive Blank : string → Prop :=
| Blank_nil : Blank EmptyString
| Blank_1 c r : is_ws c = true → Blank r → Blank (String c r)
| Blank_2 c1 c2 r : is_ws2 c1 c2 = true → Blank r → Blank (String c1 (String c2 r))
| Blank_3 c1 c2 c3 r :
    is_ws3 c1 c2 c3 = true → Blank r → Blank (String c1 (String c2 (String c3 r))).

(** [x === null || x === undefined] on an optional field. *)
Definition is_null {A} (o : option A) : bool :=
  match o with None => true | Some _ => false end.

(** A string is falsy exactly when it is empty. *)
Definition truthy_string (s : string) : bool :=
  match s with EmptyString => false | _ => true end.

(** [a || b] on optional strings ([undefined], [null] and [""] are falsy). *)
Definition or_string (a : option string) (b : string) : string :=
  match a with
  | Some s => if truthy_string s then s else b
  | None => b
  end.

(** [String(n)] for an integer [n]. *)
Definition String_of_Z (n : Z) : string := pretty n.

(** [s.startsWith(p)]. *)
Fixpoint startsWith (p s : string) : bool :=
  match p, s with
  | EmptyString, _ => true
  | String a p', String b s' => if Ascii.eqb a b then startsWith p' s' else false
  | String _ _, EmptyString => false
  end.

(** Decimal digits of a canonical integer string, as [tonumber] and
    [parseInt(_, 10)] read them. *)
Definition digit_of (c : ascii) : option Z :=
  let n := nat_of_ascii c in
  if (48 <=? n)%nat && (n <=? 57)%nat then Some (Z.of_nat (n - 48)) else None.

Fixpoint digits_go (acc : Z) (s : string) : option Z :=
  match s with
  | EmptyString => Some acc
  | String c s' =>
      match digit_of c with
      | Some d => digits_go (10 * acc + d)%Z s'
      | None => None
      end
  end.

Definition Z_of_String (s : string) : option Z :=
  match s with
  | EmptyString => None
  | String "-" (String c r) => Z.opp <$> digits_go 0 (String c r)
  | _ => digits_go 0 s
  end.

End Js.

Export Js.


(* ===================================================================== *)
(** ** The KV cache *)
(* ===================================================================== *)

Module Redis.

(** String keys carry their value and, when set with [EX], the second at
    which they expire.  The only hash the code keeps is [print_quota:d:u],
    whose single field [remaining] always holds an integer
    ([HSET ... String(Math.max(0, n))] and [HINCRBY]). *)
Record t : Type := mk {
  strs : gmap string (string * option Z);
  remaining : gmap string Z;
}.

Definition empty : t := mk ∅ ∅.

Definition live (now : Z) (e : option Z) : bool :=
  match e with
  | None => true
  | Some at_ => (now <? at_)%Z
  end.

Definition GET (now : Z) (k : string) (r : t) : option string :=
  match strs r !! k with
  | Some (v, e) => if live now e then Some v else None
  | None => None
  end.

Definition EXISTS (now : Z) (k : string) (r : t) : bool :=
  match GET now k r with Some _ => true | None => false end.

Definition SET (k v : string) (e : option Z) (r : t) : t :=
  mk (<[k := (v, e)]> (strs r)) (remaining r).

Definition SET_EX (now : Z) (k v : string) (ttl : Z) (r : t) : t :=
  SET k v (Some (now + ttl)%Z) r.

(** [SET k v NX EX ttl]: the reply is ['OK'] when the key was set and the nil
    reply, which the client hands over as [null], when the key is held. *)
Definition SET_NX_EX (now : Z) (k v : string) (ttl : Z) (r : t)
  : option string * t :=
  if EXISTS now k r then (None, r) else (Some "OK", SET_EX now k v ttl r).

Definition DEL (k : string) (r : t) : t :=
  mk (delete k (strs r)) (remaining r).

(** The expiry a key keeps when its value is overwritten by [INCR]/[DECR]. *)
Definition ttl_of (now : Z) (k : string) (r : t) : option Z :=
  match strs r !! k with
  | Some (_, e) => if live now e then e else None
  | None => None
  end.

Definition HGET_remaining (k : string) (r : t) : option Z := remaining r !! k.

Definition HSET_remaining (k : string) (n : Z) (r : t) : t :=
  mk (strs r) (<[k := n]> (remaining r)).

Definition HINCRBY_remaining (k : string) (d : Z) (r : t) : t :=
  match remaining r !! k with
  | Some n => mk (strs r) (<[k := (n + d)%Z]> (remaining r))
  | None => mk (strs r) (<[k := d]> (remaining r))
  end.

(** [INCR] and [DECR]: a missing key counts as ["0"]; a value that is not an
    integer makes the command, and the script around it, fail. *)
Definition INCRBY (now : Z) (k : string) (d : Z) (r : t) : option t :=
  match GET now k r with
  | None => Some (SET k (String_of_Z d) None r)
  | Some v =>
      match Z_of_String v with
      | Some n => Some (SET k (String_of_Z (n + d)) (ttl_of now k r) r)
      | None => None
      end
  end.

Definition INCR (now : Z) (k : string) (r : t) : option t := INCRBY now k 1 r.
Definition DECR (now : Z) (k : string) (r : t) : option t := INCRBY now k (-1) r.

End Redis.

(* ===================================================================== *)
(** ** The quota engine: what both service files share *)
(* ===================================================================== *)

Module Quota.

Inductive code : Type := BAD_REQUEST | NO_ACCESS | REVOKED | LIMIT.

(** What escapes a step of the engine: a transport error of the cache
    client, or an [Error] carrying one of the codes. *)
Inductive exn : Type :=
| RedisError
| QuotaError (c : code).

(** A [vector_documentaccesses] record, fields typed as the schema has them:
    [printQuota] defaults to [null], the counters to [0]. *)
Record Access : Type := mkAccess {
  assignedQuota : Z;
  usedPrints : Z;
  printQuota : option Z;
  printsUsed : Z;
  lastPrintAt : option Z;
  revoked : bool;
}.

Definition set_printQuota (q : Z) (a : Access) : Access :=
  mkAccess (assignedQuota a) (usedPrints a) (Some q) (printsUsed a)
           (lastPrintAt a) (revoked a).

Definition set_printsUsed (n : Z) (a : Access) : Access :=
  mkAccess (assignedQuota a) (usedPrints a) (printQuota a) n
           (lastPrintAt a) (revoked a).

Definition set_usedPrints (n : Z) (a : Access) : Access :=
  mkAccess (assignedQuota a) n (printQuota a) (printsUsed a)
           (lastPrintAt a) (revoked a).

Definition set_lastPrintAt (now : Z) (a : Access) : Access :=
  mkAccess (assignedQuota a) (usedPrints a) (printQuota a) (printsUsed a)
           (Some now) (revoked a).

(** The collection, keyed by its unique index [(documentId, userId)]. *)
Abbreviation Db := (gmap (string * string) Access).

Record World : Type := mkWorld {
  redis : Redis.t;
  db : Db;
}.

Definition with_redis (r : Redis.t) (w : World) : World := mkWorld r (db w).
Definition with_db (d : Db) (w : World) : World := mkWorld (redis w) d.

(** What one call finds: whether [getRedisClient()] hands out a client, the
    clock, and which commands of the client reject during this call. *)
Record Env : Type := mkEnv {
  client : bool;
  now : Z;
  set_throws : bool;
  eval_throws : bool;
  hset_throws : bool;
  eval2_throws : bool;
  del_throws : bool;
}.

Definition healthy (t : Z) : Env := mkEnv true t false false false false false.
Definition no_client (t : Z) : Env := mkEnv false t false false false false false.

Definition quotaKey (documentId userId : string) : string :=
  ("print_quota:" +:+ documentId +:+ ":" +:+ userId)%string.

Definition reqKey (documentId userId requestId : string) : string :=
  ("print_req:" +:+ documentId +:+ ":" +:+ userId +:+ ":" +:+ requestId)%string.

Definition IDEMPOTENCY_TTL_SECONDS : Z := 300.

(** The script [ATOMIC_PRINT_DECREMENT]. *)
Definition ATOMIC_PRINT_DECREMENT (k : string) (r : Redis.t) : Z * Redis.t :=
  match Redis.HGET_remaining k r with
  | None => ((-2)%Z, r)
  | Some n =>
      if (n <=? 0)%Z then ((-1)%Z, r)
      else ((n - 1)%Z, Redis.HINCRBY_remaining k (-1) r)
  end.

(** Computations of the engine: they thread the world and may throw; what a
    step did before it threw stays done. *)
Abbreviation M := (SE World exn).

(** The client calls, each rejecting when the environment says so. *)
Definition redis_set_nx (env : Env) (k : string) : M (option string) :=
  λ w, if set_throws env then (Throw RedisError, w)
       else let '(reply, r) :=
              Redis.SET_NX_EX (now env) k "1" IDEMPOTENCY_TTL_SECONDS (redis w) in
            (Ok reply, with_redis r w).

Definition redis_eval_decrement (throws : bool) (k : string) : M Z :=
  λ w, if throws then (Throw RedisError, w)
       else let '(n, r) := ATOMIC_PRINT_DECREMENT k (redis w) in
            (Ok n, with_redis r w).

Definition redis_del (env : Env) (k : string) : M unit :=
  λ w, if del_throws env then (Throw RedisError, w)
       else (Ok tt, with_redis (Redis.DEL k (redis w)) w).

(** [seedRedisRemaining]. *)
Definition seedRedisRemaining (env : Env) (documentId userId : string)
    (n : Z) : M unit :=
  λ w, if hset_throws env then (Throw RedisError, w)
       else (Ok tt,
             with_redis
               (Redis.HSET_remaining (quotaKey documentId userId) (Z.max 0 n) (redis w))
               w).

(** [Number.isFinite(access.printQuota) && access.printQuota !== null ?
    Number(access.printQuota) : Number(access.assignedQuota || 0)]. *)
Definition effectiveQuota (a : Access) : Z :=
  match printQuota a with
  | Some q => q
  | None => assignedQuota a
  end.

(** [updateOne({ _id }, { $set: { printQuota } })] when the field is null. *)
Definition backfillQuota (a : Access) : Access :=
  match printQuota a with
  | Some _ => a
  | None => set_printQuota (effectiveQuota a) a
  end.

(** The invariant of the data model on one grant and on the collection. *)
Definition within_quota (a : Access) : Prop :=
  (printsUsed a ≤ effectiveQuota a)%Z.

Definition within_quotab (a : Access) : bool :=
  (printsUsed a <=? effectiveQuota a)%Z.

Definition db_within_quota (d : Db) : Prop :=
  ∀ k a, d !! k = Some a → within_quota a.

End Quota.

(* ===================================================================== *)
(** ** The quota engine with [writeBehindDbConsume] *)
(* ===================================================================== *)

(** The source file of this engine came without its name; it is the one the
    specification follows step by step, and the routes import
    [assertAndConsumePrintQuota] from [services/printQuotaService.js]. *)
Module PrintQuotaService.
Import Quota.

(** [loadAndComputeRemainingFromDb]: the grant must exist and not be revoked;
    [printQuota] and [printsUsed] are backfilled; the result is
    [max(0, printQuota - max(printsUsed, usedPrints))]. *)
Definition loadAndComputeRemainingFromDb (documentId userId : string) : M Z :=
  λ w, match db w !! (documentId, userId) with
       | None => (Throw (QuotaError NO_ACCESS), w)
       | Some access =>
           if revoked access then (Throw (QuotaError REVOKED), w)
           else
             let printQuota_ := effectiveQuota access in
             let used := Z.max (printsUsed access) (usedPrints access) in
             let w' :=
               if is_null (printQuota access) || negb (printsUsed access =? used)%Z
               then with_db (<[(documentId, userId) :=
                                 set_printsUsed used (set_printQuota printQuota_ access)]>
                               (db w)) w
               else w in
             (Ok (Z.max 0 (printQuota_ - used)), w')
       end.

(** [writeBehindDbConsume]: [updateOne({documentId, userId, revoked: false},
    {$inc: {printsUsed: 1}, $set: {lastPrintAt: now}})]. *)
Definition writeBehindDbConsume (env : Env) (documentId userId : string) : M unit :=
  λ w, match db w !! (documentId, userId) with
       | Some access =>
           if revoked access then (Ok tt, w)
           else (Ok tt,
                 with_db (<[(documentId, userId) :=
                              set_lastPrintAt (now env)
                                (set_printsUsed (printsUsed access + 1) access)]>
                            (db w)) w)
       | None => (Ok tt, w)
       end.

(** [dbFallbackOptimisticConsume]: the conditional update
    [{revoked: false, printsUsed: {$lt: printQuota}}]. *)
Definition dbFallbackOptimisticConsume (env : Env) (documentId userId : string)
  : M unit :=
  λ w, match db w !! (documentId, userId) with
       | None => (Throw (QuotaError NO_ACCESS), w)
       | Some access =>
           if revoked access then (Throw (QuotaError REVOKED), w)
           else
             let printQuota_ := effectiveQuota access in
             let access1 := backfillQuota access in
             let w1 :=
               if is_null (printQuota access)
               then with_db (<[(documentId, userId) := access1]> (db w)) w
               else w in
             if (printsUsed access1 <? printQuota_)%Z
             then (Ok tt,
                   with_db (<[(documentId, userId) :=
                                set_lastPrintAt (now env)
                                  (set_printsUsed (printsUsed access1 + 1) access1)]>
                              (db w1)) w1)
             else (Throw (QuotaError LIMIT), w1)
       end.

(** [assertAndConsumePrintQuota(documentId, userId, requestId)]. *)
Definition assertAndConsumePrintQuota (env : Env) (documentId userId : string)
    (requestId : option string) : M unit :=
  let rid := trim (or_string requestId "") in
  if negb (truthy_string rid) then throw (QuotaError BAD_REQUEST)
  else if client env then
    let idempotencyKey := reqKey documentId userId rid in
    (* STEP 1: idempotency gate *)
    let! idempotencyOk :=
      try_catch (redis_set_nx env idempotencyKey) (λ _, ret None) in
    match idempotencyOk with
    | None =>
        (* [idempotencyOk === null]: taken as "Redis unreachable" *)
        dbFallbackOptimisticConsume env documentId userId
    | Some reply =>
        if negb (truthy_string reply) then ret tt
        else
          (* STEP 2: atomic decrement; [None] stands for the caught error *)
          let! first :=
            try_catch
              (let! n := redis_eval_decrement (eval_throws env)
                           (quotaKey documentId userId) in ret (Some n))
              (λ _, ret None) in
          match first with
          | None => dbFallbackOptimisticConsume env documentId userId
          | Some result0 =>
              (* STEP 3: cache miss *)
              let! second :=
                if (result0 =? -2)%Z then
                  let! remaining := loadAndComputeRemainingFromDb documentId userId in
                  try_catch
                    (run! seedRedisRemaining env documentId userId remaining in
                     let! n := redis_eval_decrement (eval2_throws env)
                                 (quotaKey documentId userId) in
                     ret (Some n))
                    (λ _, ret None)
                else ret (Some result0) in
              match second with
              | None => dbFallbackOptimisticConsume env documentId userId
              | Some result_ =>
                  if (result_ =? -1)%Z then
                    run! try_catch (redis_del env idempotencyKey) (λ _, ret tt) in
                    throw (QuotaError LIMIT)
                  else
                    (* STEP 4: write-behind *)
                    writeBehindDbConsume env documentId userId
              end
          end
    end
  else
    (* STEP 5: no client *)
    dbFallbackOptimisticConsume env documentId userId.

End PrintQuotaService.

(* ===================================================================== *)
(** ** [services/printQuotaServiceV2.js] *)
(* ===================================================================== *)

Module PrintQuotaServiceV2.
Import Quota.

(** [ensureDbQuotaInitialized]: returns [printQuota] and
    [max(printsUsed, usedPrints)]; only [printQuota] is backfilled. *)
Definition ensureDbQuotaInitialized (documentId userId : string) : M (Z * Z) :=
  λ w, match db w !! (documentId, userId) with
       | None => (Throw (QuotaError NO_ACCESS), w)
       | Some access =>
           if revoked access then (Throw (QuotaError REVOKED), w)
           else
             let printQuota_ := effectiveQuota access in
             let w' :=
               if is_null (printQuota access)
               then with_db (<[(documentId, userId) := backfillQuota access]> (db w)) w
               else w in
             (Ok (printQuota_, Z.max (printsUsed access) (usedPrints access)), w')
       end.

(** The update [{$inc: {printsUsed: 1, usedPrints: 1}, $set: {lastPrintAt}}]. *)
Definition consumeBoth (t : Z) (a : Access) : Access :=
  set_lastPrintAt t
    (set_usedPrints (usedPrints a + 1) (set_printsUsed (printsUsed a + 1) a)).

(** [dbOptimisticConsume]: no revoked check before the conditional update,
    so a revoked grant ends in [LIMIT]. *)
Definition dbOptimisticConsume (env : Env) (documentId userId : string) : M unit :=
  λ w, match db w !! (documentId, userId) with
       | None => (Throw (QuotaError NO_ACCESS), w)
       | Some access =>
           let printQuota_ := effectiveQuota access in
           let access1 := backfillQuota access in
           let w1 :=
             if is_null (printQuota access)
             then with_db (<[(documentId, userId) := access1]> (db w)) w
             else w in
           if negb (revoked access1) && (printsUsed access1 <? printQuota_)%Z
           then (Ok tt,
                 with_db (<[(documentId, userId) := consumeBoth (now env) access1]>
                            (db w1)) w1)
           else (Throw (QuotaError LIMIT), w1)
       end.

(** STEP 4 of the sibling: backfill, then the unconditional write-behind. *)
Definition writeBehind (env : Env) (documentId userId : string) : M unit :=
  λ w, match db w !! (documentId, userId) with
       | None => (Ok tt, w)
       | Some access =>
           let access1 := backfillQuota access in
           let w1 :=
             if is_null (printQuota access)
             then with_db (<[(documentId, userId) := access1]> (db w)) w
             else w in
           if revoked access1 then (Ok tt, w1)
           else (Ok tt,
                 with_db (<[(documentId, userId) := consumeBoth (now env) access1]>
                            (db w1)) w1)
       end.

(** The body of the [try] block; [Ok] is its [return]. *)
Definition cachePath (env : Env) (documentId userId rid : string) : M unit :=
  (* STEP 1 *)
  let! ok := redis_set_nx env (reqKey documentId userId rid) in
  match ok with
  | None => ret tt
  | Some reply =>
      if negb (truthy_string reply) then ret tt
      else
        (* STEP 2 *)
        let! dec0 := redis_eval_decrement (eval_throws env)
                       (quotaKey documentId userId) in
        (* STEP 3 *)
        let! dec :=
          if (dec0 =? -2)%Z then
            let! qu := ensureDbQuotaInitialized documentId userId in
            run! seedRedisRemaining env documentId userId (qu.1 - qu.2) in
            redis_eval_decrement (eval2_throws env) (quotaKey documentId userId)
          else ret dec0 in
        if (dec =? -1)%Z then throw (QuotaError LIMIT)
        else
          (* STEP 4 *)
          writeBehind env documentId userId
  end.

(** [assertAndConsumePrintQuota(documentId, userId, requestId)]: whatever the
    [try] block throws is caught and the call goes on to the durable
    fallback. *)
Definition assertAndConsumePrintQuota (env : Env) (documentId userId : string)
    (requestId : option string) : M unit :=
  let rid := trim (or_string requestId "") in
  if negb (truthy_string rid) then throw (QuotaError BAD_REQUEST)
  else if client env then
    try_catch (cachePath env documentId userId rid)
              (λ _, dbOptimisticConsume env documentId userId)
  else dbOptimisticConsume env documentId userId.

End PrintQuotaServiceV2.

(* ===================================================================== *)
(** ** [services/hmac.js] *)
(* ===================================================================== *)

Module Hmac.

(** What the module takes from outside: the canonical serialisation of a
    payload ([stableStringify], whose output only feeds the MAC) and
    HMAC-SHA256 of Node's [crypto], whose digest has 32 bytes. *)
Record Crypto (Payload : Type) : Type := mkCrypto {
  stableStringify : Payload → string;
  hmac_sha256 : string → string → list Byte.byte;
  hmac_sha256_length : ∀ key msg, length (hmac_sha256 key msg) = 32%nat;
}.
Arguments stableStringify {Payload} _ _.
Arguments hmac_sha256 {Payload} _ _ _.
Arguments hmac_sha256_length {Payload} _ _ _.

Definition hex_digit (n : nat) : ascii :=
  match n with
  | 0 => "0" | 1 => "1" | 2 => "2" | 3 => "3" | 4 => "4" | 5 => "5" | 6 => "6"
  | 7 => "7" | 8 => "8" | 9 => "9" | 10 => "a" | 11 => "b" | 12 => "c"
  | 13 => "d" | 14 => "e" | _ => "f"
  end%nat%char.

(** [digest('hex')]. *)
Fixpoint hex (bs : list Byte.byte) : string :=
  match bs with
  | [] => EmptyString
  | b :: bs' =>
      let n := Byte.to_nat b in
      String (hex_digit (n / 16)) (String (hex_digit (n mod 16)) (hex bs'))
  end.

(** [signJobPayload]: throws when [JOB_PAYLOAD_HMAC_SECRET] is not set. *)
Definition signJobPayload {Payload} (c : Crypto Payload) (secret : option string)
    (payload : Payload) : result error string :=
  match secret with
  | Some s =>
      if truthy_string s then Ok (hex (hmac_sha256 c s (stableStringify c payload)))
      else Throw (Error "JOB_PAYLOAD_HMAC_SECRET not configured")
  | None => Throw (Error "JOB_PAYLOAD_HMAC_SECRET not configured")
  end.

(** [crypto.timingSafeEqual] on the bytes of two strings: it throws a
    [RangeError] when the byte lengths differ. *)
Definition timingSafeEqual (a b : string) : result error bool :=
  if (String.length a =? String.length b)%nat then Ok (String.eqb a b)
  else Throw (RangeError "Input buffers must have the same byte length").

(** [verifyJobPayload]. *)
Definition verifyJobPayload {Payload} (c : Crypto Payload) (secret : option string)
    (payload : Payload) (expectedHmac : string) : result error bool :=
  bind (signJobPayload c secret payload) (λ actual, timingSafeEqual actual expectedHmac).

End Hmac.

(* ===================================================================== *)
(** ** The render-job scheduler: what the route and the worker share *)
(* ===================================================================== *)

Module Scheduler.

Inductive status : Type := PENDING | RUNNING | DONE | FAILED | EXPIRED.

Global Instance status_eq_dec : EqDecision status.
Proof. solve_decision. Defined.

(** The [details] the code attaches to audit entries. *)
Inductive details : Type :=
| DNull
| DTotalPages (n : Z)
| DPageIndex (i : Z)
| DMergedPages (n : Z)
| DKey (k : string)
| DMs (ms : Z)
| DQueueJob (bullmqJobId jobName : string).

Record AuditEntry : Type := mkAudit { event : string; det : details }.

(** The fields of the vector metadata that the scheduler itself reads; the
    rest of the wire shape (crop, layout, series, watermarks) only reaches
    validation, signing and the layout engine and is kept as it came. *)
Record Metadata : Type := mkMetadata {
  documentId : option string;
  sourcePdfKey : option string;
  totalPages_ : option Z;
  rest : string;
}.

Record Output : Type := mkOutput {
  key : option string;
  url : option string;
  expiresAt : option Z;
}.

Record JobError : Type := mkJobError {
  err_message : option string;
  err_stack : option string;
}.

Record PrintJob : Type := mkPrintJob {
  userId : string;
  job_sourcePdfKey : string;
  metadata : Metadata;
  payloadHmac : string;
  job_status : status;
  progress : Z;
  totalPages : Z;
  output : Output;
  job_error : JobError;
  audit : list AuditEntry;
}.

Definition set_status (s : status) (j : PrintJob) : PrintJob :=
  mkPrintJob (userId j) (job_sourcePdfKey j) (metadata j) (payloadHmac j) s
             (progress j) (totalPages j) (output j) (job_error j) (audit j).
Definition set_progress (p : Z) (j : PrintJob) : PrintJob :=
  mkPrintJob (userId j) (job_sourcePdfKey j) (metadata j) (payloadHmac j)
             (job_status j) p (totalPages j) (output j) (job_error j) (audit j).
Definition set_output (o : Output) (j : PrintJob) : PrintJob :=
  mkPrintJob (userId j) (job_sourcePdfKey j) (metadata j) (payloadHmac j)
             (job_status j) (progress j) (totalPages j) o (job_error j) (audit j).
Definition set_error (e : JobError) (j : PrintJob) : PrintJob :=
  mkPrintJob (userId j) (job_sourcePdfKey j) (metadata j) (payloadHmac j)
             (job_status j) (progress j) (totalPages j) (output j) e (audit j).
Definition push_audit (a : AuditEntry) (j : PrintJob) : PrintJob :=
  mkPrintJob (userId j) (job_sourcePdfKey j) (metadata j) (payloadHmac j)
             (job_status j) (progress j) (totalPages j) (output j) (job_error j)
             (audit j ++ [a]).

(** A queue job as the worker sees it. *)
Record QueueJob : Type := mkQueueJob {
  qid : string;
  qname : string;
  data_printJobId : option string;
  data_startPage : Z;
  data_endPage : Z;
  data_totalPages : option Z;
  opts_attempts : option Z;
  attemptsMade : option Z;
}.

(** A flow handed to the queue: the merge parent and its batch children. *)
Record Flow : Type := mkFlow {
  flow_printJobId : string;
  flow_children : list (Z * Z);
  flow_total : Z;
  flow_batch_attempts : Z;
}.

Record World : Type := mkWorld {
  jobs : gmap string PrintJob;
  redis : Redis.t;
  blobs : gmap string string;
  flows : list Flow;
}.

Definition with_jobs (f : gmap string PrintJob → gmap string PrintJob) (w : World) : World :=
  mkWorld (f (jobs w)) (redis w) (blobs w) (flows w).
Definition with_redis (r : Redis.t) (w : World) : World :=
  mkWorld (jobs w) r (blobs w) (flows w).
Definition with_blob (k v : string) (w : World) : World :=
  mkWorld (jobs w) (redis w) (<[k := v]> (blobs w)) (flows w).
Definition with_flow (f : Flow) (w : World) : World :=
  mkWorld (jobs w) (redis w) (blobs w) (flows w ++ [f]).

(** The process environment and what the outside does during one call. *)
Record Env : Type := mkEnv {
  client : bool;                  (* getRedisClient() is not null *)
  eval_throws : bool;             (* the scripted call rejects *)
  now : Z;                        (* seconds, for key expiry *)
  nowMs : Z;                      (* Date.now() *)
  LOCK_TTL_SECONDS : Z;
  MAX_ACTIVE_JOBS : Z;
  secret : option string;         (* JOB_PAYLOAD_HMAC_SECRET *)
  producer : bool;                (* getVectorFlowProducer() is not null *)
  VECTOR_BATCH_SIZE : option Z;       (* [None]: not set *)
  VECTOR_BATCH_ATTEMPTS : option Z;
  newJobId : string;              (* the fresh ObjectId *)
  requestUser : string;
  maxMergeMs : Z;
  elapsedMs : nat → Z;            (* Date.now() - mergeStart at iteration i *)
  mergeMs : Z;
  FINAL_PDF_TTL_HOURS : Z;
  upload_throws : bool;
}.

(** The collaborators: validation, signing, the layout engine and pdf-lib. *)
Record Deps : Type := mkDeps {
  crypto : Hmac.Crypto Metadata;
  validateVectorMetadata : Metadata → bool;
  assertVectorJobEnqueueable : Metadata → result error unit;
  createSinglePage : Metadata → Z → result error string;
  base64_encode : string → string;
  base64_decode : string → string;
  Page : Type;
  pdf_load : string → result error (list Page);
  pdf_save : list Page → string;
  signedUrl : string → string;
}.

Abbreviation W := (SE World error).

Definition lockKey (documentId : string) : string :=
  ("vector:render:lock:" +:+ documentId)%string.
Definition activeKey : string := "vector:render:active".
Definition memberKey (jobId : string) : string :=
  ("vector:render:active:" +:+ jobId)%string.

(** The script [ACQUIRE_RENDER_LOCK_LUA].  The reply [None] is a script
    error, which the client call rejects with; what the script wrote before
    the error stays written. *)
Definition ACQUIRE_RENDER_LOCK_LUA (now_ : Z) (k1 k2 k3 jobId : string)
    (ttlSeconds maxActiveJobs : Z) (r : Redis.t)
  : option (Z * string) * Redis.t :=
  if Redis.EXISTS now_ k1 r then
    (Some (0%Z, default "" (Redis.GET now_ k1 r)), r)
  else
    let active := Z_of_String (default "0" (Redis.GET now_ k2 r)) in
    let throttled :=
      if (0 <? maxActiveJobs)%Z then
        match active with
        | Some a => Some (maxActiveJobs <=? a)%Z
        | None => None
        end
      else Some false in
    match throttled with
    | None => (None, r)
    | Some true => (Some ((-1)%Z, String_of_Z (default 0%Z active)), r)
    | Some false =>
        let r1 := Redis.SET_EX now_ k1 jobId ttlSeconds r in
        match Redis.INCR now_ k2 r1 with
        | None => (None, r1)
        | Some r2 => (Some (1%Z, jobId), Redis.SET_EX now_ k3 "1" ttlSeconds r2)
        end
    end.

(** The script [RELEASE_RENDER_LOCK_LUA]: only the holder deletes the lock,
    and the counter goes down only when the membership key is there. *)
Definition RELEASE_RENDER_LOCK_LUA (now_ : Z) (k1 k2 k3 jobId : string)
    (r : Redis.t) : Redis.t :=
  let r1 :=
    match Redis.GET now_ k1 r with
    | Some cur => if String.eqb cur jobId then Redis.DEL k1 r else r
    | None => r
    end in
  if Redis.EXISTS now_ k3 r1 then
    let r2 := Redis.DEL k3 r1 in
    match Z_of_String (default "0" (Redis.GET now_ k2 r2)) with
    | Some active =>
        if (0 <? active)%Z then default r2 (Redis.DECR now_ k2 r2) else r2
    | None => r2
    end
  else r1.

(** [releaseRenderLock({ documentId, printJobId })]: a failure of the
    scripted call is swallowed. *)
Definition releaseRenderLock (env : Env) (documentId_ printJobId : string) : W unit :=
  λ w, if negb (client env) then (Ok tt, w)
       else if negb (truthy_string documentId_) || negb (truthy_string printJobId)
       then (Ok tt, w)
       else if eval_throws env then (Ok tt, w)
       else (Ok tt,
             with_redis
               (RELEASE_RENDER_LOCK_LUA (now env) (lockKey documentId_) activeKey
                  (memberKey printJobId) printJobId (redis w)) w).

(** [String(metadata?.documentId || metadata?.sourcePdfKey || fallback || '').trim()]. *)
Definition lockDocumentId (m : Metadata) (fallback : string) : string :=
  trim (or_string (documentId m) (or_string (sourcePdfKey m) fallback)).

(** [VectorPrintJob.findById(printJobId)], with the job store up: the
    query answers the stored document or [null]. *)
Definition findById (printJobId : string) : W (option PrintJob) :=
  λ w, (Ok (jobs w !! printJobId), w).

(** [jobDoc.save()], with the job store up: the document is written.  A
    store that is down rejects the call; the statements below that go
    through [findById] and [save] say that they take the store to be up. *)
Definition save (printJobId : string) (j : PrintJob) : W unit :=
  modify (with_jobs (<[printJobId := j]>)).

(** [updateProgress(jobDoc, progress, event, details)] returns the document
    it changed and saved. *)
Definition updateProgress (printJobId : string) (j : PrintJob) (p : Z)
    (ev : string) (d : details) : W PrintJob :=
  let j' := push_audit (mkAudit ev d) (set_progress (Z.max 0 (Z.min 100 p)) j) in
  run! save printJobId j' in ret j'.

End Scheduler.

(* ===================================================================== *)
(** ** [workers/vectorPdfWorker.js] *)
(* ===================================================================== *)

Module VectorPdfWorker.
Import Scheduler.

(** [a || d] on a number that may be missing ([0] is falsy). *)
Definition or_num (a : option Z) (d : Z) : Z :=
  match a with
  | Some n => if (n =? 0)%Z then d else n
  | None => d
  end.

(** [Math.ceil(a / b)] on integers, for [b > 0]. *)
Definition ceil_div (a b : Z) : Z := (- ((- a) / b))%Z.

(** [enqueueVectorJobFlow({ printJobId, totalPages })]. *)
Definition enqueueVectorJobFlow (env : Env) (printJobId : string)
    (totalPages_arg : Z) : W unit :=
  if negb (producer env)
  then throw (Error "Redis unavailable: cannot enqueue vector jobs (BullMQ disabled)")
  else
    let batchSize := Z.max 1 (Z.min 50 (default 50%Z (VECTOR_BATCH_SIZE env))) in
    let total := or_num (Some totalPages_arg) 1 in
    let batchCount := ceil_div total batchSize in
    if (batchCount <? 0)%Z then throw (RangeError "Invalid array length")
    else
      let children :=
        (λ batchIndex : Z,
           let startPage := (batchIndex * batchSize)%Z in
           (startPage, Z.min total (startPage + batchSize)))
          <$> seqZ 0 batchCount in
      modify (with_flow (mkFlow printJobId children total
                           (default 3%Z (VECTOR_BATCH_ATTEMPTS env)))).

(** One entry of a child's return value. *)
Record PageEntry : Type := mkPageEntry {
  pageIndex : option Z;
  pdfBase64 : option string;
}.

(** What a child returns: a batch, a single page, or a skip. *)
Inductive ChildValue : Type :=
| CPages (pages : list PageEntry)
| CPage (entry : PageEntry)
| CSkipped.

(** The names bound where [processBatch] writes its batch-done log line: the
    globals it uses, the bindings of the module and its own locals. *)
Definition processBatch_scope : list string :=
  [ "console"; "JSON"; "String"; "Date"; "Number"; "Math"; "Buffer";
    "FlowProducer"; "Worker"; "connection"; "VECTOR_PDF_QUEUE_NAME";
    "VectorPrintJob"; "validateVectorMetadata"; "vectorLayoutEngine";
    "uploadToS3WithKey"; "verifyJobPayload"; "getRedisClient"; "PDFLib";
    "crypto"; "vectorFlowProducer"; "warnedRedisUnavailable";
    "getVectorFlowProducer"; "lockKey"; "activeKey"; "memberKey";
    "RELEASE_RENDER_LOCK_LUA"; "releaseRenderLock"; "enqueueVectorJobFlow";
    "updateProgress"; "processPage"; "processBatch"; "processMerge";
    "startVectorPdfWorkers";
    "job"; "printJobId"; "startPage"; "endPage"; "totalPages"; "jobDoc";
    "validation"; "verified"; "out" ].

(** Reading an identifier: a name that is not bound throws. *)
Definition readIdentifier (scope : list string) (x : string) : W unit :=
  if bool_decide (x ∈ scope) then ret tt
  else throw (ReferenceError (x +:+ " is not defined")).

(** One turn of the page loop of [processBatch]; the percentage is the
    floor of the exact quotient. *)
Definition renderBatchPage (deps : Deps) (printJobId : string) (total : Z)
    (st : PrintJob * list PageEntry) (pageIndex_ : Z)
  : W (PrintJob * list PageEntry) :=
  let '(jobDoc, out) := st in
  let! pageBytes := lift (createSinglePage deps (metadata jobDoc) pageIndex_) in
  if negb (startsWith "%PDF-" pageBytes)
  then throw (Error "SECURITY VIOLATION: Output is not a valid PDF. Vector pipeline broken.")
  else
    let out' := out ++ [mkPageEntry (Some pageIndex_)
                                     (Some (base64_encode deps pageBytes))] in
    let rendered := Z.min (Z.max 0 (pageIndex_ + 1)) total in
    let pct := (rendered * 80 / Z.max 1 total)%Z in
    let! jobDoc' := updateProgress printJobId jobDoc (Z.max (progress jobDoc) pct)
                      "PAGE_RENDERED" (DPageIndex pageIndex_) in
    ret (jobDoc', out').

Fixpoint renderBatchPages (deps : Deps) (printJobId : string) (total : Z)
    (st : PrintJob * list PageEntry) (idxs : list Z)
  : W (PrintJob * list PageEntry) :=
  match idxs with
  | [] => ret st
  | i :: idxs' =>
      let! st' := renderBatchPage deps printJobId total st i in
      renderBatchPages deps printJobId total st' idxs'
  end.

(** [processBatch(job)]. *)
Definition processBatch (env : Env) (deps : Deps) (job : QueueJob)
  : W ChildValue :=
  match data_printJobId job with
  | None => throw (Error "PrintJob not found")
  | Some printJobId =>
      let! found := findById printJobId in
      match found with
      | None => throw (Error "PrintJob not found")
      | Some jobDoc =>
          if bool_decide (job_status jobDoc = EXPIRED) then ret CSkipped
          else if negb (validateVectorMetadata deps (metadata jobDoc))
          then throw (Error "Invalid vector metadata")
          else
            let! verified :=
              lift (Hmac.verifyJobPayload (crypto deps) (secret env)
                      (metadata jobDoc) (payloadHmac jobDoc)) in
            if negb verified then throw (Error "HMAC verification failed")
            else
              let total :=
                or_num (data_totalPages job) (or_num (Some (totalPages jobDoc)) 1) in
              let! st :=
                renderBatchPages deps printJobId total (jobDoc, [])
                  (seqZ (data_startPage job) (data_endPage job - data_startPage job)) in
              (* console.log(JSON.stringify({ phase, event, documentId,
                 jobId: String(printJobId), ms: Date.now() - batchStart })) *)
              run! readIdentifier processBatch_scope "documentId" in
              run! readIdentifier processBatch_scope "printJobId" in
              run! readIdentifier processBatch_scope "batchStart" in
              ret (CPages st.2)
      end
  end.

(** The writes of one child value into the sparse array [pageBase64]. *)
Definition placeEntry (slots : list (option string)) (e : PageEntry)
  : list (option string) :=
  match pdfBase64 e, pageIndex e with
  | Some b64, Some idx =>
      if (0 <=? idx)%Z && (idx <? Z.of_nat (length slots))%Z
      then <[Z.to_nat idx := Some b64]> slots
      else slots
  | _, _ => slots
  end.

Definition placeChild (slots : list (option string)) (v : ChildValue)
  : list (option string) :=
  match v with
  | CPage e => placeEntry slots e
  | CPages pages => foldl placeEntry slots pages
  | CSkipped => slots
  end.

Definition gatherPages (n : nat) (children : list ChildValue)
  : list (option string) :=
  foldl placeChild (replicate n None) children.

(** [!pageBase64[i]]: the slot is [null] or holds the empty string. *)
Definition slot_missing (s : option string) : bool :=
  match s with
  | Some b64 => negb (truthy_string b64)
  | None => true
  end.

(** [PDFDocument.load(bytes)] and [merged.copyPages(src, [0])]. *)
Definition loadFirstPage (deps : Deps) (b64 : string) : result error (Page deps) :=
  bind (pdf_load deps (base64_decode deps b64))
       (λ pages, match pages with
                 | p :: _ => Ok p
                 | [] => Throw (Error "Invalid page index")
                 end).

(** The merge loop, from index [i] on; [len] is [pageBase64.length], and the
    percentage is the floor of the exact quotient. *)
Fixpoint mergeLoop (env : Env) (deps : Deps) (printJobId : string) (len : nat)
    (i : nat) (slots : list (option string)) (jobDoc : PrintJob)
    (merged : list (Page deps)) : W (PrintJob * list (Page deps)) :=
  match slots with
  | [] => ret (jobDoc, merged)
  | slot :: slots' =>
      if (0 <? maxMergeMs env)%Z && (maxMergeMs env <? elapsedMs env i)%Z
      then throw (Error "Merge exceeded time budget")
      else
        let! page := lift (loadFirstPage deps (default "" slot)) in
        let merged' := merged ++ [page] in
        let! jobDoc' :=
          if (i =? 0)%nat || (i =? len - 1)%nat || (i mod 10 =? 0)%nat then
            let pct := (80 + (Z.of_nat i + 1) * 15 / Z.max 1 (Z.of_nat len))%Z in
            updateProgress printJobId jobDoc (Z.max (progress jobDoc) pct)
              "MERGE_PROGRESS" (DMergedPages (Z.of_nat i + 1))
          else ret jobDoc in
        mergeLoop env deps printJobId len (S i) slots' jobDoc' merged'
  end.

Inductive MergeResult : Type :=
| MergeOk (key_ : string)
| MergeSkipped.

(** The body of the [try] block of [processMerge]. *)
Definition mergeBody (env : Env) (deps : Deps) (printJobId documentId_ : string)
    (jobDoc : PrintJob) (children : list ChildValue) : W MergeResult :=
  let! jobDoc1 := updateProgress printJobId (set_status RUNNING jobDoc)
                    (Z.max (progress jobDoc) 80) "MERGE_JOB_STARTED" DNull in
  let n := or_num (Some (totalPages jobDoc1)) 1 in
  if (n <? 0)%Z then throw (RangeError "Invalid array length")
  else
    let pageBase64 := gatherPages (Z.to_nat n) children in
    if existsb slot_missing pageBase64
    then throw (Error "Missing rendered pages for merge")
    else
      let! st := mergeLoop env deps printJobId (length pageBase64) 0 pageBase64
                   jobDoc1 [] in
      let! jobDoc2 := updateProgress printJobId st.1 (Z.max (progress st.1) 95)
                        "FINAL_MERGE_DONE" DNull in
      let pdfBytes := pdf_save deps st.2 in
      if negb (startsWith "%PDF-" pdfBytes)
      then throw (Error "SECURITY VIOLATION: Output is not a valid PDF. Vector pipeline broken.")
      else
        let finalKey := ("documents/final/" +:+ printJobId +:+ ".pdf")%string in
        if upload_throws env then throw (Error "S3 upload failed")
        else
          run! modify (with_blob finalKey pdfBytes) in
          let expires := (nowMs env + FINAL_PDF_TTL_HOURS env * 60 * 60 * 1000)%Z in
          let jobDoc3 :=
            push_audit (mkAudit "MERGE_TIME" (DMs (mergeMs env)))
              (push_audit (mkAudit "JOB_DONE" (DKey finalKey))
                 (set_output (mkOutput (Some finalKey) (Some (signedUrl deps finalKey))
                                       (Some expires))
                    (set_progress 100 (set_status DONE jobDoc2)))) in
          run! save printJobId jobDoc3 in
          run! releaseRenderLock env documentId_ printJobId in
          ret (MergeOk finalKey).

(** [processMerge(job)], given what [job.getChildrenValues()] holds. *)
Definition processMerge (env : Env) (deps : Deps) (job : QueueJob)
    (children : list ChildValue) : W MergeResult :=
  match data_printJobId job with
  | None => throw (Error "PrintJob not found")
  | Some printJobId =>
      let! found := findById printJobId in
      match found with
      | None => throw (Error "PrintJob not found")
      | Some jobDoc =>
          if bool_decide (job_status jobDoc = EXPIRED) then ret MergeSkipped
          else
            let documentId_ :=
              lockDocumentId (metadata jobDoc) (job_sourcePdfKey jobDoc) in
            try_catch (mergeBody env deps printJobId documentId_ jobDoc children)
              (λ e, run! releaseRenderLock env documentId_ printJobId in throw e)
      end
  end.

(** The listener [worker.on('failed', (job, err) => ...)]. *)
Definition onFailed (env : Env) (job : QueueJob) (err : JobError) : W unit :=
  match data_printJobId job with
  | None => ret tt
  | Some printJobId =>
      if negb (truthy_string printJobId) then ret tt
      else
        let attempts := or_num (opts_attempts job) 1 in
        let made := or_num (attemptsMade job) 0 in
        let isFinalFailure := (attempts <=? made)%Z in
        let! found := findById printJobId in
        match found with
        | None => ret tt
        | Some jobDoc =>
            let stack :=
              match err_stack err with
              | Some s => if truthy_string s then Some s else None
              | None => None
              end in
            let jobDoc' :=
              push_audit (mkAudit "JOB_FAILED" (DQueueJob (qid job) (qname job)))
                (set_error (mkJobError (Some (or_string (err_message err) "Job failed"))
                                       stack)
                   (set_status FAILED jobDoc)) in
            run! save printJobId jobDoc' in
            if isFinalFailure then
              releaseRenderLock env
                (lockDocumentId (metadata jobDoc') (job_sourcePdfKey jobDoc'))
                printJobId
            else ret tt
        end
  end.

End VectorPdfWorker.

(* ===================================================================== *)
(** ** [routes/vectorJobRoutes.js]: admission *)
(* ===================================================================== *)

Module VectorJobRoutes.
Import Scheduler.

Inductive response : Type :=
| BadRequest (msg : string)                     (* 400 *)
| TooManyRequests (msg : string)                (* 429 *)
| OkJson (jobId : string) (st : status)         (* res.json, 200 *)
| Created (jobId : string) (st : status)        (* 201 *)
| ServerError (msg : string).                   (* 500 *)

(** [VectorPrintJob.create({...})]: the schema requires [sourcePdfKey], and
    the collection refuses a second document with the same [_id]. *)
Definition createJob (env : Env) (printJobId : string) (m : Metadata)
    (hmac : string) (total : Z) : W PrintJob :=
  λ w, match sourcePdfKey m with
       | Some k =>
           if negb (truthy_string k)
           then (Throw (mkError "ValidationError" "sourcePdfKey is required"), w)
           else match jobs w !! printJobId with
                | Some _ => (Throw (mkError "MongoServerError" "E11000 duplicate key"), w)
                | None =>
                    let j := mkPrintJob (requestUser env) k m hmac PENDING 0 total
                               (mkOutput None None None) (mkJobError None None)
                               [mkAudit "JOB_CREATED" (DTotalPages total)] in
                    (Ok j, with_jobs (<[printJobId := j]>) w)
                end
       | None => (Throw (mkError "ValidationError" "sourcePdfKey is required"), w)
       end.

(** What the handler does once the lock stage is behind it. *)
Definition createAndEnqueue (env : Env) (deps : Deps) (m : Metadata) : W response :=
  let! hmac := lift (Hmac.signJobPayload (crypto deps) (secret env) m) in
  let total := VectorPdfWorker.or_num (totalPages_ m) 1 in
  let printJobId := newJobId env in
  let! jobDoc := createJob env printJobId m hmac total in
  run! VectorPdfWorker.enqueueVectorJobFlow env printJobId total in
  let jobDoc' := push_audit (mkAudit "JOB_ENQUEUED" DNull) jobDoc in
  run! save printJobId jobDoc' in
  ret (Created printJobId (job_status jobDoc')).

(** [err?.message || 'Failed to create job']. *)
Definition failureMessage (e : error) : string :=
  or_string (Some (message e)) "Failed to create job".

(** The scripted acquire call as the handler makes it: a rejection leaves
    [acquireResult] at [null]. *)
Definition acquire (env : Env) (documentId_ : string) (r : Redis.t)
  : option (Z * string) * Redis.t :=
  if eval_throws env then (None, r)
  else ACQUIRE_RENDER_LOCK_LUA (now env) (lockKey documentId_) activeKey
         (memberKey (newJobId env)) (newJobId env)
         (LOCK_TTL_SECONDS env) (MAX_ACTIVE_JOBS env) r.

(** The [catch] of the handler: release what was preallocated, answer 500. *)
Definition onError (env : Env) (preallocated : bool) (documentId_ : string)
    (e : error) : World → response * World :=
  λ w,
    let w' :=
      if client env && preallocated && truthy_string (newJobId env)
         && truthy_string documentId_ && negb (eval_throws env)
      then with_redis
             (RELEASE_RENDER_LOCK_LUA (now env) (lockKey documentId_) activeKey
                (memberKey (newJobId env)) (newJobId env) (redis w)) w
      else w in
    (ServerError (failureMessage e), w').

Definition finish (env : Env) (deps : Deps) (preallocated : bool)
    (documentId_ : string) (m : Metadata) : World → response * World :=
  λ w, match createAndEnqueue env deps m w with
       | (Ok resp, w') => (resp, w')
       | (Throw e, w') => onError env preallocated documentId_ e w'
       end.

(** [router.post('/jobs', ...)], after authentication. *)
Definition postJobs (env : Env) (deps : Deps) (m : Metadata)
  : World → response * World :=
  λ w,
    if negb (validateVectorMetadata deps m)
    then (BadRequest "Invalid vector metadata", w)
    else
      match assertVectorJobEnqueueable deps m with
      | Throw e =>
          if String.eqb (name e) "VectorJobValidationError"
          then (BadRequest (message e), w)
          else onError env false (lockDocumentId m "") e w
      | Ok _ =>
          let documentId_ := lockDocumentId m "" in
          if negb (truthy_string documentId_)
          then (BadRequest "documentId is required", w)
          else if client env then
            let '(acquireResult, r) := acquire env documentId_ (redis w) in
            let w1 := with_redis r w in
            match acquireResult with
            | Some (code_, arg) =>
                if (code_ =? -1)%Z
                then (TooManyRequests "Queue busy. Try again later.", w1)
                else if (code_ =? 0)%Z && truthy_string (trim arg)
                then (OkJson (trim arg) PENDING, w1)
                else finish env deps true documentId_ m w1
            | None => finish env deps true documentId_ m w1
            end
          else finish env deps false documentId_ m w
      end.

End VectorJobRoutes.

(* ===================================================================== *)
(** ** JavaScript numbers *)
(* ===================================================================== *)

(** Numbers of the layout engine are IEEE doubles, the primitive [float]
    of the prover, with the operations of the processor. *)
Module Number.
Local Open Scope float_scope.

(** [x || d]: [0], [-0] and [NaN] are falsy. *)
Definition or_number (x d : float) : float :=
  if is_zero x || is_nan x then d else x.

(** [Math.max(a, b)]: [NaN] when one of them is, and [+0] above [-0]. *)
Definition Math_max (a b : float) : float :=
  if is_nan a || is_nan b then nan
  else if a <? b then b
  else if b <? a then a
  else if get_sign a then b else a.

(** [Math.min(a, b)]: [NaN] when one of them is, and [-0] below [+0]. *)
Definition Math_min (a b : float) : float :=
  if is_nan a || is_nan b then nan
  else if a <? b then a
  else if b <? a then b
  else if get_sign a then a else b.

(** The number of an integer, rounded to the nearest double when it has
    more than 53 bits. *)
Definition of_Z (z : Z) : float := SF2Prim (binary_normalize prec emax z 0 false).
Definition of_nat (n : nat) : float := of_Z (Z.of_nat n).

(** The integer part of a finite number (towards zero), and whether the
    number is that integer. *)
Definition truncate (x : float) : option (Z * bool) :=
  match Prim2SF x with
  | S754_zero _ => Some (0%Z, true)
  | S754_finite s m e =>
      if (0 <=? e)%Z then Some (cond_Zopp s (Zpos m * 2 ^ e)%Z, true)
      else Some (cond_Zopp s (Zpos m / 2 ^ (- e))%Z,
                 (Zpos m mod 2 ^ (- e) =? 0)%Z)
  | _ => None
  end.

Definition to_Z (x : float) : option Z :=
  match truncate x with
  | Some (z, true) => Some z
  | _ => None
  end.

(** [Math.round(x)]: the integer nearest to [x], a tie going up; a result
    of zero keeps the sign of [x]. *)
Definition Math_round (x : float) : float :=
  match Prim2SF x with
  | S754_finite s m e =>
      if (0 <=? e)%Z then x
      else
        let n := ((cond_Zopp s (Zpos m) * 2 + 2 ^ (- e)) / 2 ^ (- e + 1))%Z in
        if (n =? 0)%Z then (if s then neg_zero else zero) else of_Z n
  | _ => x
  end.

End Number.

(* ===================================================================== *)
(** ** [vector/vectorLayoutEngine.js]: slot grid and series numbers *)
(* ===================================================================== *)

Module VectorLayoutEngine.
Import Number.
Local Open Scope float_scope.

(** [vector/constants.js]. *)
#[warnings="-inexact-float"]
Definition A4_WIDTH : float := 595.28.
#[warnings="-inexact-float"]
Definition A4_HEIGHT : float := 841.89.
#[warnings="-inexact-float"]
Definition SAFE_MARGIN : float := 28.35.

Record Slot : Type := mkSlot {
  index : nat;
  x : float;
  y : float;
  width : float;
  height : float;
}.

(** [new Array(n)]: the length must be an integer below 2^32. *)
Definition array_length (n : float) : option nat :=
  match to_Z n with
  | Some z => if (0 <=? z)%Z && (z <? 2 ^ 32)%Z then Some (Z.to_nat z) else None
  | None => None
  end.

(** [buildSlotLayoutPlan(repeatPerPage, slotSpacingPt = 0)]. *)
Definition buildSlotLayoutPlan (repeatPerPage : float) (slotSpacingPt : option float)
  : result error (list Slot) :=
  let slotsPerPage := Math_max 1 (or_number repeatPerPage 1) in
  let usableHeight := A4_HEIGHT - 2 * SAFE_MARGIN in
  let rawGap := default 0 slotSpacingPt in
  let gap := if is_finite rawGap then Math_max 0 rawGap else 0 in
  let totalGaps := gap * Math_max 0 (slotsPerPage - 1) in
  let heightWithGap := usableHeight - totalGaps in
  let effectiveGap := if 0 <? heightWithGap then gap else 0 in
  let slotHeight :=
    (usableHeight - effectiveGap * Math_max 0 (slotsPerPage - 1)) / slotsPerPage in
  match array_length slotsPerPage with
  | Some n =>
      Ok ((λ index_ : nat,
             mkSlot index_ SAFE_MARGIN
                    (SAFE_MARGIN + of_nat index_ * (slotHeight + effectiveGap))
                    (A4_WIDTH - 2 * SAFE_MARGIN)
                    slotHeight)
            <$> seq 0 n)
  | None => Throw (RangeError "Invalid array length")
  end.

(** A string as the code indexes it: the sequence of its UTF-16 code
    units. *)
Definition ustring : Type := list N.

(** An ASCII literal of the code. *)
Definition lit (s : string) : ustring := N_of_ascii <$> list_ascii_of_string s.

(** White space as [parseInt] and [\s] see it: the WhiteSpace and
    LineTerminator code points of ECMAScript. *)
Definition is_space (c : N) : bool :=
  ((9 <=? c) && (c <=? 13) || (c =? 32) || (c =? 160) || (c =? 5760)
   || (8192 <=? c) && (c <=? 8202) || (c =? 8232) || (c =? 8233) || (c =? 8239)
   || (c =? 8287) || (c =? 12288) || (c =? 65279))%N.

(** [s.startsWith(p)] and [s.includes(p)]. *)
Fixpoint startsWith (p s : ustring) : bool :=
  match p, s with
  | [], _ => true
  | a :: p', b :: s' => (a =? b)%N && startsWith p' s'
  | _ :: _, [] => false
  end.

Fixpoint includes (needle hay : ustring) : bool :=
  startsWith needle hay
  || match hay with
     | _ :: hay' => includes needle hay'
     | [] => false
     end.

(** A colour of pdf-lib. *)
Record Color : Type := mkColor { red : float; green : float; blue : float }.

Definition black : Color := mkColor 0 0 0.

(** An embedded font of pdf-lib; measuring a text throws when the font
    cannot encode it. *)
Record Font : Type := mkFont {
  fontName : string;
  heightAtSize : float → bool → float;
  widthOfTextAtSize : ustring → float → result error float;
}.

(** One call [page.drawText(text, { x, y, size, font, color })]. *)
Record DrawText : Type := mkDrawText {
  text : ustring;
  at_x : float;
  at_y : float;
  size : float;
  with_font : string;
  with_color : Color;
}.

(** What the code takes from the JavaScript engine and from pdf-lib, whose
    sources are not part of the repository: [String(n)] on a number (never
    the empty string), [toLowerCase], the longest string the engine builds (a longer one is a
    [RangeError]), what [rgb] throws for components it refuses, and what
    [page.drawText] throws, if anything, for a call. *)
Record Platform : Type := mkPlatform {
  Number_toString : float → ustring;
  Number_toString_nonempty : ∀ n, Number_toString n ≠ [];
  toLowerCase : ustring → ustring;
  max_string_length : Z;
  rgb_error : float → float → float → error;
  drawText_error : DrawText → option error;
}.

(** A string the engine has built. *)
Definition mkString (lib : Platform) (s : ustring) : result error ustring :=
  if (max_string_length lib <? Z.of_nat (length s))%Z
  then Throw (RangeError "Invalid string length")
  else Ok s.

(** [ToLength(x)]: the integer part, between 0 and 2^53 - 1. *)
Definition ToLength (x : float) : Z :=
  match truncate x with
  | Some (z, _) => Z.min (Z.max 0 z) (2 ^ 53 - 1)
  | None => if 0 <? x then (2 ^ 53 - 1)%Z else 0%Z
  end.

(** [s.padStart(maxLength, c)] for a filler of one code unit. *)
Definition padStart (lib : Platform) (s : ustring) (maxLength : float) (c : N)
  : result error ustring :=
  let intMaxLength := ToLength maxLength in
  if (intMaxLength <=? Z.of_nat (length s))%Z then Ok s
  else if (max_string_length lib <? intMaxLength)%Z
       then Throw (RangeError "Invalid string length")
       else Ok (replicate (Z.to_nat (intMaxLength - Z.of_nat (length s))) c ++ s).

(** pdf-lib's [rgb(r, g, b)]: each component must be a number from 0 to 1. *)
Definition in_unit (v : float) : bool := (0 <=? v) && (v <=? 1).

Definition rgb (lib : Platform) (r g b : float) : result error Color :=
  if in_unit r && in_unit g && in_unit b then Ok (mkColor r g b)
  else Throw (rgb_error lib r g b).

Definition hex_value (c : N) : option Z :=
  if ((48 <=? c) && (c <=? 57))%N then Some (Z.of_N c - 48)%Z
  else if ((65 <=? c) && (c <=? 70))%N then Some (Z.of_N c - 55)%Z
  else if ((97 <=? c) && (c <=? 102))%N then Some (Z.of_N c - 87)%Z
  else None.

Definition hex_or_nan (c : N) : float :=
  match hex_value c with Some h => of_Z h | None => nan end.

(** [parseInt(c1 + c2, 16)] on a string of two code units: leading white
    space and a sign are skipped, ["0x"] is a prefix without digits, and the
    digits stop at the first code unit that is not one. *)
Definition parseInt16_pair (c1 c2 : N) : float :=
  if is_space c1 then hex_or_nan c2
  else if (c1 =? 43)%N then hex_or_nan c2
  else if (c1 =? 45)%N then - hex_or_nan c2
  else if (c1 =? 48)%N && ((c2 =? 120)%N || (c2 =? 88)%N) then nan
  else match hex_value c1 with
       | Some h =>
           match hex_value c2 with
           | Some l => of_Z (16 * h + l)
           | None => of_Z h
           end
       | None => nan
       end.

Definition is_digit (c : N) : bool := ((48 <=? c) && (c <=? 57))%N.

(** [\d+] at the head of a string: the number the digits spell (what
    [parseInt] makes of them) and what follows them. *)
Fixpoint take_digits (acc : Z) (s : ustring) : Z * ustring :=
  match s with
  | c :: s' => if is_digit c then take_digits (10 * acc + (Z.of_N c - 48)) s'
               else (acc, s)
  | [] => (acc, [])
  end.

Definition number_then (s : ustring) : option (float * ustring) :=
  match s with
  | c :: _ => if is_digit c
              then let '(n, r) := take_digits 0 s in Some (of_Z n, r)
              else None
  | [] => None
  end.

Definition expect (c : N) (s : ustring) : option ustring :=
  match s with
  | c' :: s' => if (c =? c')%N then Some s' else None
  | [] => None
  end.

Fixpoint skip_space (s : ustring) : ustring :=
  match s with
  | c :: s' => if is_space c then skip_space s' else s
  | [] => []
  end.

(** The pattern [rgb\((\d+),\s*(\d+),\s*(\d+)\)] at the head of a string. *)
Definition match_rgb_here (s : ustring) : option (float * float * float) :=
  if startsWith (lit "rgb(") s then
    '(r, s1) ← number_then (drop 4 s);
    s2 ← expect 44 s1;
    '(g, s3) ← number_then (skip_space s2);
    s4 ← expect 44 s3;
    '(b, s5) ← number_then (skip_space s4);
    _ ← expect 41 s5;
    Some (r, g, b)
  else None.

(** [colorValue.match(...)]: the first place where the pattern matches. *)
Fixpoint match_rgb (s : ustring) : option (float * float * float) :=
  match match_rgb_here s with
  | Some m => Some m
  | None =>
      match s with
      | _ :: s' => match_rgb s'
      | [] => None
      end
  end.

(** [parseColor(colorValue)] on a string. *)
Definition parseColor (lib : Platform) (colorValue : ustring) : result error Color :=
  match colorValue with
  | [] => rgb lib 0 0 0
  | _ =>
      let hexCase :=
        match colorValue with
        | [35; a; b; c]%N =>
            Some (rgb lib (parseInt16_pair a a / 255) (parseInt16_pair b b / 255)
                      (parseInt16_pair c c / 255))
        | [35; a; b; c; d; e; f]%N =>
            Some (rgb lib (parseInt16_pair a b / 255) (parseInt16_pair c d / 255)
                      (parseInt16_pair e f / 255))
        | _ => None
        end in
      match hexCase with
      | Some r => r
      | None =>
          match (if startsWith (lit "rgb(") colorValue then match_rgb colorValue
                 else None) with
          | Some (r, g, b) => rgb lib (r / 255) (g / 255) (b / 255)
          | None => rgb lib 0 0 0
          end
      end
  end.

(** The fonts [pdfDoc.embedFont] gives for the three standard families. *)
Record StandardFonts : Type := mkStandardFonts {
  TimesRoman : Font;
  Courier : Font;
  Helvetica : Font;
}.

Record Calibration : Type := mkCalibration { cal_dx : float; cal_dy : float }.

(** The engine: its document, if it has one, the fonts it has embedded so
    far, by family, and its calibration. *)
Record Engine : Type := mkEngine {
  pdfDoc : option StandardFonts;
  embeddedFonts : ustring → option Font;
  calibration : Calibration;
}.

(** [a || b] on strings. *)
Definition or_ustring (a : option ustring) (b : ustring) : ustring :=
  match a with
  | Some (c :: s) => c :: s
  | _ => b
  end.

(** [loadFont(fontFamily)] and [embedFont(fontFamily)].  The document gives
    the same font for a family each time, so that the entry [embedFont] adds
    to the map of the engine answers what it would compute again. *)
Definition loadFont (lib : Platform) (eng : Engine) (fontFamily : ustring)
  : result error Font :=
  match pdfDoc eng with
  | None => Throw (Error "PDFDocument not initialized")
  | Some fonts =>
      let name_ := toLowerCase lib fontFamily in
      if includes (lit "times") name_ then Ok (TimesRoman fonts)
      else if includes (lit "courier") name_ then Ok (Courier fonts)
      else Ok (Helvetica fonts)
  end.

Definition embedFont (lib : Platform) (eng : Engine) (fontFamily : ustring)
  : result error Font :=
  match embeddedFonts eng fontFamily with
  | Some fnt => Ok fnt
  | None => loadFont lib eng fontFamily
  end.

(** [vector/fontMetrics.js]: what [calculateMetrics] returns. *)
Record Metrics : Type := mkMetrics {
  ascent : float;
  descent : float;
  metrics_height : float;
  baselineOffset : float;
}.

(** The page under construction and the metrics cache: the calls drawn so
    far, and the metrics computed so far, by key. *)
Record State : Type := mkState {
  ops : list DrawText;
  cache : gmap ustring Metrics;
}.

Abbreviation Draw := (SE State error).

Definition drawText (lib : Platform) (op : DrawText) : Draw unit :=
  match drawText_error lib op with
  | Some e => throw e
  | None => modify (λ st, mkState (ops st ++ [op]) (cache st))
  end.

Definition calculateMetrics (fontSize_ : float) (pdfFont : Font) : Metrics :=
  let ascent_ := heightAtSize pdfFont fontSize_ false in
  let height_ := heightAtSize pdfFont fontSize_ true in
  let descent_ := Math_max 0 (height_ - ascent_) in
  mkMetrics ascent_ descent_ height_ descent_.

(** [fontMetricsCache.getMetrics(fontFamily, fontSize, pdfFont)]: computed
    once for a key [`${fontFamily}-${fontSize}`]. *)
Definition getMetrics (lib : Platform) (fontFamily : ustring) (fontSize_ : float)
    (pdfFont : Font) : Draw Metrics :=
  let! key := lift (mkString lib (fontFamily ++ lit "-" ++ Number_toString lib fontSize_)) in
  λ st, match cache st !! key with
        | Some m => (Ok m, st)
        | None =>
            let m := calculateMetrics fontSize_ pdfFont in
            (Ok m, mkState (ops st) (<[key := m]> (cache st)))
        end.

(** [Math.round(v * 1000) / 1000], and [coordinateConverter.applyCalibration]. *)
Definition snap (v : float) : float := Math_round (v * 1000) / 1000.

Definition applyCalibration (x_ y_ : float) (cal : Calibration) : float * float :=
  (snap (x_ + cal_dx cal), snap (y_ + cal_dy cal)).

Record SeriesSlot : Type := mkSeriesSlot { xRatio : float; yRatio : float }.

Record SeriesConfig : Type := mkSeries {
  prefix : option ustring;
  padLength : option float;
  start : float;
  step : float;
  font : option ustring;
  fontSize : float;
  color : option ustring;
  slots : list SeriesSlot;
  letterFontSizes : option (list float);
  letterOffsets : option (list float);
}.

(** What [drawSourceFragment] records for a slot. *)
Record Placement : Type := mkPlacement {
  objectBBoxPt : option (float * float);
  slotScale : option float;
  contentLeft : option float;
  slotLeft : option float;
  contentBottom : option float;
  slotBottom : option float;
}.

(** [Number(x || d)] on a number that may be missing. *)
Definition or_missing (x : option float) (d : float) : float :=
  match x with
  | Some v => or_number v d
  | None => d
  end.

(** The series string of slot [slotIdx] on page [pageIdx]. *)
Definition seriesValue (lib : Platform) (cfg : SeriesConfig)
    (pageIdx repeatPerPage : float) (slotIdx : nat) : result error ustring :=
  let globalIdx := pageIdx * repeatPerPage + of_nat slotIdx in
  let seriesNumber := start cfg + globalIdx * step cfg in
  let padLength_ := or_missing (padLength cfg) 0 in
  let prefix_ := default [] (prefix cfg) in
  if 0 <? padLength_
  then match padStart lib (Number_toString lib seriesNumber) padLength_ 48 with
       | Ok padded => mkString lib (prefix_ ++ padded)
       | Throw e => Throw e
       end
  else mkString lib (prefix_ ++ Number_toString lib seriesNumber).

(** The per-letter loop, from letter [li] on. *)
Fixpoint drawLetters (lib : Platform) (fnt : Font) (cfg : SeriesConfig)
    (scale drawY : float) (sizes : list float) (li : nat) (chars : ustring)
    (cursorX : float) : Draw unit :=
  match chars with
  | [] => ret tt
  | ch :: chars' =>
      let size_ := or_missing (sizes !! li) (fontSize cfg) * scale in
      let offsetY := or_missing (letterOffsets cfg ≫= (λ l, l !! li)) 0 in
      let baseline := drawY + offsetY in
      let! seriesColor := lift (parseColor lib (or_ustring (color cfg) (lit "#000000"))) in
      run! drawText lib (mkDrawText [ch] cursorX baseline size_ (fontName fnt)
                           seriesColor) in
      let! w := lift (widthOfTextAtSize fnt [ch] size_) in
      drawLetters lib fnt cfg scale drawY sizes (S li) chars' (cursorX + w)
  end.

(** The slot definition of a series for a slot index. *)
Definition slotOf (cfg : SeriesConfig) (slotIdx : nat) : option SeriesSlot :=
  match slots cfg with
  | [only] => Some only
  | defs => defs !! slotIdx
  end.

(** The body of the slot loop of [drawSeriesNumbers]. *)
Definition drawSeriesSlot (lib : Platform) (eng : Engine) (fnt : Font)
    (cfg : SeriesConfig) (pageIdx repeatPerPage : float) (slotIdx : nat)
    (placement : Placement) : Draw unit :=
  match slotOf cfg slotIdx with
  | None => ret tt
  | Some slot_ =>
      let! value := lift (seriesValue lib cfg pageIdx repeatPerPage slotIdx) in
      let '(objW, objH) := default (0, 0) (objectBBoxPt placement) in
      if negb (is_finite objW) || negb (is_finite objH) || (objW <=? 0) || (objH <=? 0)
      then throw (Error "Invalid objectBBoxPt for series placement")
      else
        let textTopLeftX := xRatio slot_ * objW in
        let textTopLeftY := yRatio slot_ * objH in
        let fontSizePt := fontSize cfg in
        let scale := default 0 (slotScale placement) in
        if negb (is_finite scale) || (scale <=? 0)
        then throw (Error "Invalid slotScale for series placement")
        else
          let finalFontSizePt := fontSizePt * scale in
          let! metrics :=
            getMetrics lib (or_ustring (font cfg) (lit "Helvetica")) fontSizePt fnt in
          let baselineY := textTopLeftY + ascent metrics in
          let objectLeft :=
            match contentLeft placement with
            | Some v => v
            | None => default 0 (slotLeft placement)
            end in
          let objectBottom :=
            match contentBottom placement with
            | Some v => v
            | None => default 0 (slotBottom placement)
            end in
          let objectTopY := objectBottom + objH * scale in
          let seriesPageX := objectLeft + textTopLeftX * scale in
          let seriesPageY := objectTopY - baselineY * scale in
          let '(drawX, drawY) :=
            applyCalibration seriesPageX seriesPageY (calibration eng) in
          match letterFontSizes cfg with
          | Some (s0 :: sizes) =>
              drawLetters lib fnt cfg scale drawY (s0 :: sizes) 0 value drawX
          | _ =>
              let! seriesColor :=
                lift (parseColor lib (or_ustring (color cfg) (lit "#000000"))) in
              drawText lib (mkDrawText value drawX drawY finalFontSizePt
                              (fontName fnt) seriesColor)
          end
  end.

(** [Math.min(placements.length, Number(repeatPerPage) || placements.length)]. *)
Definition maxSlotsOf (repeatPerPage : float) (placements : list Placement) : float :=
  Math_min (of_nat (length placements))
           (or_number repeatPerPage (of_nat (length placements))).

(** The slot loop, from [slotIdx] on: [rest] are the placements from that
    index on ([maxSlots] is at most their number, so that the loop stops by
    its test before it runs out of placements). *)
Fixpoint drawSlots (lib : Platform) (eng : Engine) (fnt : Font)
    (cfg : SeriesConfig) (pageIdx repeatPerPage maxSlots : float) (slotIdx : nat)
    (rest : list Placement) : Draw unit :=
  match rest with
  | [] => ret tt
  | placement :: rest' =>
      if of_nat slotIdx <? maxSlots
      then
        run! drawSeriesSlot lib eng fnt cfg pageIdx repeatPerPage slotIdx placement in
        drawSlots lib eng fnt cfg pageIdx repeatPerPage maxSlots (S slotIdx) rest'
      else ret tt
  end.

(** [drawSeriesNumbers(page, series, pageIdx, repeatPerPage, slotPlacements)]. *)
Fixpoint drawSeriesNumbers (lib : Platform) (eng : Engine)
    (series : list SeriesConfig) (pageIdx repeatPerPage : float)
    (slotPlacements : list Placement) : Draw unit :=
  match series with
  | [] => ret tt
  | cfg :: series' =>
      let! fnt := lift (embedFont lib eng (or_ustring (font cfg) (lit "Helvetica"))) in
      let maxSlots := maxSlotsOf repeatPerPage slotPlacements in
      run! drawSlots lib eng fnt cfg pageIdx repeatPerPage maxSlots 0 slotPlacements in
      drawSeriesNumbers lib eng series' pageIdx repeatPerPage slotPlacements
  end.

End VectorLayoutEngine.

(* ===================================================================== *)
(** ** Concrete grants, caches and requests used by the statements below *)
(* ===================================================================== *)

Module Scenarios.
Import Quota.

(** A grant of [q] prints of which [used] are spent, nothing legacy. *)
Definition grant (q used : Z) : Access :=
  mkAccess q 0 (Some q) used None false.

(** Document ["d"], user ["u"], cold cache. *)
Definition cold (q used : Z) : World :=
  mkWorld Redis.empty {[ ("d", "u") := grant q used ]}.

(** The same grant with [remaining = n] left in the cache. *)
Definition cached (q used n : Z) : World :=
  mkWorld (Redis.HSET_remaining (quotaKey "d" "u") n Redis.empty)
          {[ ("d", "u") := grant q used ]}.

Definition usedOf (w : World) : option Z := printsUsed <$> db w !! ("d", "u").
Definition quotaOf (w : World) : option Z := effectiveQuota <$> db w !! ("d", "u").
Definition remainingOf (w : World) : option Z :=
  Redis.HGET_remaining (quotaKey "d" "u") (redis w).
Definition held (t : Z) (rid : string) (w : World) : bool :=
  Redis.EXISTS t (reqKey "d" "u" rid) (redis w).

(** The admin raises the quota of the grant (the route rewrites the record). *)
Definition bumpQuota (q : Z) (w : World) : World :=
  with_db (set_printQuota q <$> db w) w.

End Scenarios.

Module SchedulerScenarios.
Import Scheduler VectorPdfWorker.

(** A stand-in for the MAC primitive: a digest of 32 zero bytes. *)
Definition zeroCrypto : Hmac.Crypto Metadata :=
  Hmac.mkCrypto Metadata rest (λ _ _, replicate 32 Byte.x00) (λ _ _, eq_refl).

Definition zeroMac : string :=
  "0000000000000000000000000000000000000000000000000000000000000000".

(** Collaborators that always succeed: every page renders to a small PDF,
    base64 is kept as the identity, a PDF is the list of its pages. *)
Definition plainDeps : Deps :=
  mkDeps zeroCrypto (λ _, true) (λ _, Ok tt)
         (λ _ i, Ok ("%PDF-page" +:+ String_of_Z i)%string)
         (λ s, s) (λ s, s)
         string (λ bytes, Ok [bytes])
         (λ pages, ("%PDF-" +:+ String.concat "|" pages)%string)
         (λ k, ("https://blobs/" +:+ k)%string).

Definition plainEnv : Env :=
  mkEnv true false 0 0 1800 0 (Some "secret") true None None
        "65f000000000000000000002" "admin" 0 (λ _, 0%Z) 0 24 false.

Definition meta1 : Metadata := mkMetadata (Some "doc1") (Some "src/T.pdf") (Some 2%Z) "{}".

(** A job of two pages, stored under ["j1"], with the MAC [mac]. *)
Definition job1 (mac : string) (st : status) : PrintJob :=
  mkPrintJob "admin" "src/T.pdf" meta1 mac st 0 2
             (mkOutput None None None) (mkJobError None None)
             [mkAudit "JOB_CREATED" (DTotalPages 2)].

(** The job ["j1"] holds the render lock of ["doc1"]. *)
Definition lockedRedis : Redis.t :=
  Redis.SET_EX 0 (memberKey "j1") "1" 1800
    (Redis.SET activeKey "1" None
       (Redis.SET_EX 0 (lockKey "doc1") "j1" 1800 Redis.empty)).

Definition world1 (mac : string) (st : status) : World :=
  mkWorld {[ "j1" := job1 mac st ]} lockedRedis ∅ [].

Definition batchJob (startPage endPage : Z) (made : Z) : QueueJob :=
  mkQueueJob "q7" "batch" (Some "j1") startPage endPage (Some 2%Z) (Some 3%Z)
             (Some made).

Definition mergeJob : QueueJob :=
  mkQueueJob "q9" "merge" (Some "j1") 0 0 None (Some 1%Z) (Some 1%Z).

Definition page (i : Z) : PageEntry :=
  mkPageEntry (Some i) (Some ("%PDF-page" +:+ String_of_Z i)%string).

Definition boom : JobError := mkJobError (Some "render failed") (Some "at render").

End SchedulerScenarios.

Module LayoutScenarios.
Import Number VectorLayoutEngine.
Local Open Scope float_scope.

(** [String(n)] on the integers below 2^53, in decimal; the scenarios print
    no other number. *)
Definition decimal (n : float) : ustring :=
  match to_Z n with
  | Some z =>
      match lit (String_of_Z z) with
      | c :: s => if (Z.abs z <? 2 ^ 53)%Z then c :: s else lit "?"
      | [] => lit "?"
      end
  | None => lit "?"
  end.

Definition decimal_nonempty (n : float) : decimal n ≠ [].
Proof.
  unfold decimal. destruct (to_Z n) as [z|]; [|done].
  destruct (lit (String_of_Z z)); [done|]. by destruct (_ <? _)%Z.
Qed.

Definition asciiLower (c : N) : N :=
  if ((65 <=? c) && (c <=? 90))%N then (c + 32)%N else c.

(** A platform that accepts every call: decimal numbers, lower case on the
    ASCII letters, strings up to 2^29 - 24 code units. *)
Definition plainLib : Platform :=
  mkPlatform decimal decimal_nonempty (fmap asciiLower) (2 ^ 29 - 24)
             (λ _ _ _, Error "rgb") (λ _, None).

(** A font whose ascent is 3/4 of the size and whose glyphs are half the
    size wide. *)
Definition plainFont (name_ : string) : Font :=
  mkFont name_ (λ size_ _, size_ * 0.75)
         (λ txt size_, Ok (size_ * 0.5 * of_nat (length txt))).

Definition plainFonts : StandardFonts :=
  mkStandardFonts (plainFont "Times-Roman") (plainFont "Courier")
                  (plainFont "Helvetica").

(** An engine with a document, no font embedded yet, no calibration. *)
Definition plainEngine : Engine :=
  mkEngine (Some plainFonts) (λ _, None) (mkCalibration 0 0).

Definition blankPage : State := mkState [] ∅.

(** The series of the end-to-end scenario: prefix "A", padded to 3, from 1
    by 1, 12 pt, one slot at (1/8, 1/8), no colour. *)
Definition seriesA (letters : option (list float)) : SeriesConfig :=
  mkSeries (Some (lit "A")) (Some 3) 1 1 (Some (lit "Helvetica")) 12 None
           [mkSeriesSlot 0.125 0.125] letters None.

(** A slot whose content is a 400 x 200 pt object drawn at scale 1. *)
Definition placement1 : Placement :=
  mkPlacement (Some (400, 200)) (Some 1) (Some 100) None (Some 500) None.

End LayoutScenarios.

(* ===================================================================== *)
(** ** The vocabulary of the statements *)
(* ===================================================================== *)

Module QuotaVocabulary.
Import Quota.

(** Steps that leave the string keys of the cache alone. *)
Definition keeps_strs {A} (m : M A) : Prop :=
  ∀ w, Redis.strs (redis (m w).2) = Redis.strs (redis w).

(** Steps that only write the durable store. *)
Definition keeps_redis {A} (m : M A) : Prop := ∀ w, redis (m w).2 = redis w.

End QuotaVocabulary.

Module SchedulerVocabulary.
Import Scheduler VectorPdfWorker.

(** The entry the page loop pushes for page [i]. *)
Definition renderedEntry (deps : Deps) (m : Metadata) (i : Z) : PageEntry :=
  mkPageEntry (Some i)
    (match createSinglePage deps m i with
     | Ok bytes => Some (base64_encode deps bytes)
     | Throw _ => None
     end).

(** The record the listener saves. *)
Definition failedJob (job : QueueJob) (err : JobError) (jobDoc : PrintJob) : PrintJob :=
  push_audit (mkAudit "JOB_FAILED" (DQueueJob (qid job) (qname job)))
    (set_error
       (mkJobError (Some (or_string (err_message err) "Job failed"))
          (match err_stack err with
           | Some s => if truthy_string s then Some s else None
           | None => None
           end))
       (set_status FAILED jobDoc)).

(** The union of what the children returned, in the order the merge reads it. *)
Definition entriesOf (children : list ChildValue) : list PageEntry :=
  children ≫= λ v, match v with
                    | CPages pages => pages
                    | CPage e => [e]
                    | CSkipped => []
                    end.

(** The entry [e] carries the bytes [b64] for page [i]. *)
Definition writes (i : nat) (e : PageEntry) (b64 : string) : Prop :=
  pageIndex e = Some (Z.of_nat i) ∧ pdfBase64 e = Some b64.

(** A job id as the lock holds it: the string of an ObjectId, which is not
    empty and has no white space around it. *)
Definition is_job_id (s : string) : Prop :=
  truthy_string s = true ∧ trim s = s.

End SchedulerVocabulary.

Module LayoutVocabulary.
Import Number VectorLayoutEngine.
Local Open Scope float_scope.

(** [zeroPad] in the words of the specification: zeros in front up to
    [padLength] characters, none when [padLength] is absent or 0. *)
Definition zeroPad (digits : ustring) (padLength_ : option float) : ustring :=
  replicate (Z.to_nat (ToLength (or_missing padLength_ 0) - Z.of_nat (length digits)))
            48%N
  ++ digits.


(** The slot indexes the loop visits, each with its placement: 0, 1, 2, ...
    as long as the index is below [maxSlots]. *)
Fixpoint visited (maxSlots : float) (i : nat) (rest : list Placement)
  : list (nat * Placement) :=
  match rest with
  | [] => []
  | placement :: rest' =>
      if of_nat i <? maxSlots then (i, placement) :: visited maxSlots (S i) rest'
      else []
  end.

(** The slots a series has among them. *)
Definition slotsOf (cfg : SeriesConfig) (maxSlots : float) (i : nat)
    (rest : list Placement) : list (SeriesConfig * nat * Placement) :=
  '(j, placement) ← visited maxSlots i rest;
  match slotOf cfg j with
  | Some _ => [(cfg, j, placement)]
  | None => []
  end.

(** What [drawSeriesNumbers] has to draw: series by series, the visited
    slots for which the series has a slot. *)
Definition drawnSlots (series : list SeriesConfig) (R : float)
    (placements : list Placement) : list (SeriesConfig * nat * Placement) :=
  cfg ← series; slotsOf cfg (maxSlotsOf R placements) 0 placements.


(** A font the engine can use for a series: [embedFont] gives it, and it
    measures every text. *)
Definition usableFont (lib : Platform) (eng : Engine) (cfg : SeriesConfig) : Prop :=
  ∃ fnt, embedFont lib eng (or_ustring (font cfg) (lit "Helvetica")) = Ok fnt
         ∧ ∀ txt size_, is_ok (widthOfTextAtSize fnt txt size_) = true.

(** A slot the engine can draw: the object box and the scale of its
    placement are finite and positive, the series string and the key of the
    metrics are strings the engine can build, and pdf-lib accepts the
    colour. *)
Definition drawable (lib : Platform) (p R : float)
    (target : SeriesConfig * nat * Placement) : Prop :=
  let '(cfg, i, placement) := target in
  (∃ objW objH, objectBBoxPt placement = Some (objW, objH)
                ∧ is_finite objW = true ∧ is_finite objH = true
                ∧ (0 <? objW) = true ∧ (0 <? objH) = true)
  ∧ (∃ scale, slotScale placement = Some scale
              ∧ is_finite scale = true ∧ (0 <? scale) = true)
  ∧ is_ok (seriesValue lib cfg p R i) = true
  ∧ is_ok (mkString lib (or_ustring (font cfg) (lit "Helvetica") ++ lit "-"
                         ++ Number_toString lib (fontSize cfg))) = true
  ∧ is_ok (parseColor lib (or_ustring (color cfg) (lit "#000000"))) = true.

End LayoutVocabulary.

Module LockVocabulary.
Import Scheduler.

(** What the scripts read from the counter of active jobs: a missing key
    counts as 0, a value that is not an integer as [nil]. *)
Definition activeCount (now_ : Z) (r : Redis.t) : option Z :=
  Z_of_String (default "0" (Redis.GET now_ activeKey r)).

(** The state of the three keys of one job: who holds the lock of the
    document, whether the membership key of the job is there, the counter. *)
Definition lockState (now_ : Z) (d j : string) (r : Redis.t)
  : option string * bool * option Z :=
  (Redis.GET now_ (lockKey d) r, Redis.EXISTS now_ (memberKey j) r, activeCount now_ r).

End LockVocabulary.

Module WorkerVocabulary.
Import Scheduler VectorPdfWorker.

(** The pages a list of batches [(startPage, endPage)] covers, in order. *)
Definition pagesOf (children : list (Z * Z)) : list Z :=
  children ≫= λ c, seqZ c.1 (c.2 - c.1).

(** The cache after [releaseRenderLock({ documentId, printJobId })]. *)
Definition releasedRedis (env : Env) (documentId_ printJobId : string)
    (r : Redis.t) : Redis.t :=
  if client env && truthy_string documentId_ && truthy_string printJobId
     && negb (eval_throws env)
  then RELEASE_RENDER_LOCK_LUA (now env) (lockKey documentId_) activeKey
         (memberKey printJobId) printJobId r
  else r.

(** [j'] is [j] further along: same identity, status, payload and output,
    an audit trail that only grew. *)
Definition furtherAlong (j j' : PrintJob) : Prop :=
  userId j' = userId j ∧ job_sourcePdfKey j' = job_sourcePdfKey j
  ∧ metadata j' = metadata j ∧ payloadHmac j' = payloadHmac j
  ∧ job_status j' = job_status j ∧ totalPages j' = totalPages j
  ∧ output j' = output j ∧ job_error j' = job_error j
  ∧ ∃ more, audit j' = audit j ++ more.

(** The document stored under [id] has the status [st]. *)
Definition storedStatus (id : string) (st : status) (w : World) : Prop :=
  job_status <$> jobs w !! id = Some st.

End WorkerVocabulary.

(** [routes/vectorJobRoutes.js]: [GET /jobs/:jobId/result]. *)
Module VectorJobResultRoute.
Import Scheduler.

Inductive resultResponse : Type :=
| NotFound (msg : string)                               (* 404 *)
| Conflict (msg : string)                               (* 409 *)
| NotConfigured (msg : string)                          (* 500 *)
| FileUrl (fileUrl : string) (expiresAt_ : option Z).   (* 200 *)

(** The handler, given [AWS_S3_BUCKET] and the presigner
    [getSignedUrl(s3, new GetObjectCommand({ Bucket, Key }), { expiresIn: 60 })]. *)
Definition getJobResult (bucket : option string)
    (getSignedUrl : string → string → string) (jobId : string) (w : World)
  : resultResponse :=
  match jobs w !! jobId with
  | None => NotFound "Job not found"
  | Some jobDoc =>
      if negb (bool_decide (job_status jobDoc = DONE))
         || negb (truthy_string (or_string (key (output jobDoc)) ""))
      then Conflict "Job not completed"
      else
        match bucket with
        | Some b =>
            if truthy_string b
            then FileUrl (getSignedUrl b (or_string (key (output jobDoc)) ""))
                         (expiresAt (output jobDoc))
            else NotConfigured "S3 not configured"
        | None => NotConfigured "S3 not configured"
        end
  end.

End VectorJobResultRoute.

Module AdmissionScenarios.
Import Scheduler SchedulerScenarios.

(** The environment of [plainEnv] with a cap of one active job. *)
Definition cappedEnv : Env :=
  mkEnv true false 0 0 1800 1 (Some "secret") true None None
        "65f000000000000000000002" "admin" 0 (λ _, 0%Z) 0 24 false.

(** The same without a queue producer (BullMQ disabled). *)
Definition noProducerEnv : Env :=
  mkEnv true false 0 0 1800 0 (Some "secret") false None None
        "65f000000000000000000002" "admin" 0 (λ _, 0%Z) 0 24 false.

(** No job, no lock; one job of another document is counted as active. *)
Definition oneActive : World :=
  mkWorld ∅ (Redis.SET activeKey "1" None Redis.empty) ∅ [].

Definition emptyWorld : World := mkWorld ∅ Redis.empty ∅ [].

End AdmissionScenarios.

Module QuotaSyncVocabulary.
Import Quota.

(** The cache agrees with the durable store on the grant [(d, u)]: when the
    counter is cached, it is what the store leaves. *)
Definition in_sync (d u : string) (w : World) : Prop :=
  ∀ a n, db w !! (d, u) = Some a →
         Redis.HGET_remaining (quotaKey d u) (redis w) = Some n →
         n = Z.max 0 (effectiveQuota a - printsUsed a).

(** The prints spent and the quota of the grant [(d, u)]. *)
Definition spent (d u : string) (w : World) : option Z :=
  printsUsed <$> db w !! (d, u).
Definition allowed (d u : string) (w : World) : option Z :=
  effectiveQuota <$> db w !! (d, u).

(** What a call may do to the grant [(d, u)] of the durable store: return
    after raising [printsUsed] by one from a value below the quota, or throw
    and leave [printsUsed] as it was; the quota stays. *)
Definition exact_on_store (d u : string) (w : World)
    (out : result exn unit * World) : Prop :=
  allowed d u out.2 = allowed d u w
  ∧ match out.1 with
    | Ok _ =>
        ∃ used quota_,
          spent d u w = Some used ∧ allowed d u w = Some quota_
          ∧ (used < quota_)%Z ∧ spent d u out.2 = Some (used + 1)%Z
    | Throw _ => spent d u out.2 = spent d u w
    end.

(** A step that never fails with BAD_REQUEST. *)
Definition graceful {A} (m : M A) : Prop :=
  ∀ w, (m w).1 = Throw (QuotaError BAD_REQUEST) → False.

(** Neither engine fails with BAD_REQUEST on the request id [rid]. *)
Definition graceful_for_all (rid : string) : Prop :=
  ∀ env d u,
    graceful (PrintQuotaService.assertAndConsumePrintQuota env d u (Some rid))
    ∧ graceful (PrintQuotaServiceV2.assertAndConsumePrintQuota env d u (Some rid)).

End QuotaSyncVocabulary.

(** [routes/docs.js]: the request id the print routes hand to the engine. *)
Module DocsRoutes.

(** [(typeof header === 'string' && header.trim()) ? String(header).trim()
     : (typeof requestId === 'string' && requestId.trim()) ? requestId.trim()
     : crypto.randomUUID()], with [None] for a value that is not a string. *)
Definition incomingRequestId (header bodyRequestId : option string)
    (randomUUID : string) : string :=
  match header with
  | Some h => if truthy_string (trim h) then trim h
              else match bodyRequestId with
                   | Some b => if truthy_string (trim b) then trim b else randomUUID
                   | None => randomUUID
                   end
  | None => match bodyRequestId with
            | Some b => if truthy_string (trim b) then trim b else randomUUID
            | None => randomUUID
            end
  end.

End DocsRoutes.

(** [services/jobCleanup.js]: the reaper. *)
Module JobCleanup.
Import Scheduler.

(** The [details] of an audit entry: what the worker and the route attach,
    or the [{ staleMs }] of the reaper. *)
Inductive details : Type :=
| DEarlier (d : Scheduler.details)
| DStaleMs (staleMs : Z).

Record AuditEntry : Type := mkAudit { event : string; det : details }.

(** The fields of a job document the reaper reads or writes; [updatedAt] is
    the timestamp mongoose keeps, in milliseconds. *)
Record Job : Type := mkJob {
  status : Scheduler.status;
  output : Output;
  updatedAt : Z;
  audit : list AuditEntry;
}.

Record World : Type := mkWorld {
  jobs : gmap string Job;
  blobs : gmap string string;
}.

(** The clock, [PRINT_JOB_STALE_MS] when set, and the keys for which
    [deleteFromS3] rejects during this run (the rejection is swallowed). *)
Record Env : Type := mkEnv {
  now : Z;
  PRINT_JOB_STALE_MS : option Z;
  delete_fails : string → bool;
}.

Definition staleMs (env : Env) : Z := default (15 * 60 * 1000)%Z (PRINT_JOB_STALE_MS env).

(** [{ $ne: null, $lte: now }] on [output.expiresAt]. *)
Definition outputExpired (env : Env) (j : Job) : bool :=
  match expiresAt (output j) with
  | Some t => (t <=? now env)%Z
  | None => false
  end.

(** The four queries. *)
Definition runningExpired (env : Env) (j : Job) : bool :=
  bool_decide (status j = RUNNING) && negb (is_null (key (output j)))
  && outputExpired env j.

Definition staleRunning (env : Env) (j : Job) : bool :=
  bool_decide (status j = RUNNING) && is_null (key (output j))
  && (updatedAt j <=? now env - staleMs env)%Z.

Definition doneExpired (env : Env) (j : Job) : bool :=
  bool_decide (status j = DONE) && outputExpired env j.

Definition failedOld (env : Env) (j : Job) : bool :=
  bool_decide (status j = FAILED)
  && (updatedAt j <=? now env - 7 * 24 * 60 * 60 * 1000)%Z.

(** The guard in front of [deleteFromS3]. *)
Definition deletable (k : string) : bool :=
  startsWith "documents/final/" k || startsWith "documents/print/" k.

(** [deleteFromS3(job.output.key).catch(() => null)] behind its guard. *)
Definition deleteOutput (env : Env) (j : Job) (bl : gmap string string)
  : gmap string string :=
  match key (output j) with
  | Some k =>
      if truthy_string k && deletable k && negb (delete_fails env k)
      then delete k bl else bl
  | None => bl
  end.

(** What a loop body saves: the new status, the output (nulled or kept), one
    more audit entry; [save()] stamps [updatedAt]. *)
Definition expire (env : Env) (nullOutput : bool) (ev : string) (d : details)
    (j : Job) : Job :=
  mkJob EXPIRED
        (if nullOutput then mkOutput None None None else output j)
        (now env)
        (audit j ++ [mkAudit ev d]).

(** One [find(...)] and the loop over what it found. *)
Definition sweep (env : Env) (query : Job → bool) (deletes : bool)
    (nullOutput : bool) (ev : string) (d : details) (w : World) : World :=
  let found := filter (λ p, query p.2 = true) (map_to_list (jobs w)) in
  mkWorld
    ((λ j, if query j then expire env nullOutput ev d j else j) <$> jobs w)
    (if deletes then foldr (λ p bl, deleteOutput env p.2 bl) (blobs w) found
     else blobs w).

(** [runJobCleanupOnce()]. *)
Definition runJobCleanupOnce (env : Env) (w : World) : World :=
  let w1 := sweep env (runningExpired env) true true
              "RUNNING_JOB_EXPIRED_AND_OUTPUT_DELETED" (DEarlier DNull) w in
  let w2 := sweep env (staleRunning env) false true
              "STALE_RUNNING_JOB_EXPIRED" (DStaleMs (staleMs env)) w1 in
  let w3 := sweep env (doneExpired env) true true
              "JOB_EXPIRED_AND_OUTPUT_DELETED" (DEarlier DNull) w2 in
  sweep env (failedOld env) false false "FAILED_JOB_ARCHIVED" (DEarlier DNull) w3.

End JobCleanup.

Module JobCleanupVocabulary.
Import Scheduler JobCleanup.

(** A job one of the four queries of the reaper finds. *)
Definition due (env : Env) (j : Job) : bool :=
  runningExpired env j || staleRunning env j || doneExpired env j || failedOld env j.

(** What the run does to one document. *)
Definition reaped (env : Env) (j : Job) : Job :=
  if runningExpired env j
  then expire env true "RUNNING_JOB_EXPIRED_AND_OUTPUT_DELETED" (DEarlier DNull) j
  else if staleRunning env j
  then expire env true "STALE_RUNNING_JOB_EXPIRED" (DStaleMs (staleMs env)) j
  else if doneExpired env j
  then expire env true "JOB_EXPIRED_AND_OUTPUT_DELETED" (DEarlier DNull) j
  else if failedOld env j
  then expire env false "FAILED_JOB_ARCHIVED" (DEarlier DNull) j
  else j.

End JobCleanupVocabulary.

(** [services/hmac.js]: [stableStringify], on values that came from JSON. *)
Module StableStringify.

(** A value parsed from JSON: [null], a primitive (boolean, number or
    string, kept as the text [JSON.stringify] gives for it), an array, or an
    object as the list of its own keys, in insertion order, with their
    values. *)
#[warnings="-register-all"]
Inductive json : Type :=
| JNull
| JPrim (text : string)
| JArray (items : list json)
| JObject (fields : list (string * json)).

(** The order of [Array.prototype.sort()] on keys: by code units. *)
Definition key_le (a b : string) : Prop := String.leb a b = true.

Global Instance key_le_dec a b : Decision (key_le a b).
Proof. unfold key_le. apply _. Defined.

Section stringify.
(** [JSON.stringify] on a key. *)
Variable quote : string → string.

(** The entries of an object, given the canonical text of each value:
    [Object.keys(value).sort()] and, for each key, [value[k]]. *)
Definition objectEntries (rendered : list (string * string)) : list string :=
  (λ k, (quote k +:+ ":"
         +:+ default "" ((list_to_map rendered : gmap string string) !! k))%string)
    <$> merge_sort key_le rendered.*1.

(** [stableStringify(value)]: the values of an object are rendered field by
    field, then emitted in the order of the sorted keys. *)
Fixpoint stableStringify (value : json) : string :=
  match value with
  | JNull => "null"
  | JPrim text => text
  | JArray items =>
      ("[" +:+ String.concat "," (stableStringify <$> items) +:+ "]")%string
  | JObject fields =>
      ("{" +:+ String.concat ","
                 (objectEntries ((λ kv, (kv.1, stableStringify kv.2)) <$> fields))
           +:+ "}")%string
  end.

(** The keys of an object with the canonical text of their values. *)
Definition rendered (fields : list (string * json)) : list (string * string) :=
  (λ kv, (kv.1, stableStringify kv.2)) <$> fields.

End stringify.

(** [hmac.js] with this serialisation and a MAC primitive. *)
Definition crypto (quote : string → string)
    (hmac_sha256 : string → string → list Byte.byte)
    (hmac_sha256_length : ∀ key msg, length (hmac_sha256 key msg) = 32%nat)
  : Hmac.Crypto json :=
  Hmac.mkCrypto json (stableStringify quote) hmac_sha256 hmac_sha256_length.

End StableStringify.

(* ===================================================================== *)
(** * Properties *)
(* ===================================================================== *)

(** ** The KV cache *)

Lemma SET_NX_EX_held now k v ttl r :
  Redis.EXISTS now k r = true → Redis.SET_NX_EX now k v ttl r = (None, r).
Proof. intros H. unfold Redis.SET_NX_EX. by rewrite H. Qed.

Lemma SET_NX_EX_free now k v ttl r :
  Redis.EXISTS now k r = false →
  Redis.SET_NX_EX now k v ttl r = (Some "OK", Redis.SET_EX now k v ttl r).
Proof. intros H. unfold Redis.SET_NX_EX. by rewrite H. Qed.

Lemma EXISTS_SET_EX now t k v ttl r :
  (now ≤ t < now + ttl)%Z → Redis.EXISTS t k (Redis.SET_EX now k v ttl r) = true.
Proof.
  intros Ht. unfold Redis.EXISTS, Redis.GET, Redis.SET_EX, Redis.SET; simpl.
  rewrite lookup_insert_eq. simpl.
  destruct (Z.ltb_spec t (now + ttl)); [done | lia].
Qed.

Lemma EXISTS_DEL now k r : Redis.EXISTS now k (Redis.DEL k r) = false.
Proof.
  unfold Redis.EXISTS, Redis.GET, Redis.DEL; simpl. by rewrite lookup_delete_eq.
Qed.

(** The decrement script never touches the string keys. *)
Lemma ATOMIC_PRINT_DECREMENT_strs k r :
  Redis.strs (Quota.ATOMIC_PRINT_DECREMENT k r).2 = Redis.strs r.
Proof.
  unfold Quota.ATOMIC_PRINT_DECREMENT, Redis.HGET_remaining, Redis.HINCRBY_remaining.
  destruct (Redis.remaining r !! k) as [n|] eqn:E; simpl; [|done].
  by destruct (n <=? 0)%Z.
Qed.

(** The script answers [-1] exactly on a seeded counter that is used up,
    and then leaves the cache as it was. *)
Lemma ATOMIC_PRINT_DECREMENT_denied k r n :
  Redis.HGET_remaining k r = Some n → (n ≤ 0)%Z →
  Quota.ATOMIC_PRINT_DECREMENT k r = ((-1)%Z, r).
Proof.
  intros H Hn. unfold Quota.ATOMIC_PRINT_DECREMENT. rewrite H.
  destruct (Z.leb_spec n 0); [done | lia].
Qed.

(** A successful decrement answers the new counter, which is not negative. *)
Lemma ATOMIC_PRINT_DECREMENT_granted k r n :
  Redis.HGET_remaining k r = Some n → (0 < n)%Z →
  Quota.ATOMIC_PRINT_DECREMENT k r
  = ((n - 1)%Z, Redis.HINCRBY_remaining k (-1) r).
Proof.
  intros H Hn. unfold Quota.ATOMIC_PRINT_DECREMENT. rewrite H.
  destruct (Z.leb_spec n 0); [lia | done].
Qed.

(** ** The quota engine *)

Section QuotaFacts.
Import Quota QuotaVocabulary.

Lemma with_redis_id (w : World) : with_redis (redis w) w = w.
Proof. by destruct w. Qed.

Lemma with_db_id (w : World) : with_db (db w) w = w.
Proof. by destruct w. Qed.

Lemma keeps_strs_ret {A} (a : A) : keeps_strs (ret a).
Proof. by intros w. Qed.

Lemma keeps_strs_throw {A} (e : exn) : keeps_strs (throw (A := A) e).
Proof. by intros w. Qed.

Lemma keeps_strs_andThen {A B} (m : M A) (k : A → M B) :
  keeps_strs m → (∀ a, keeps_strs (k a)) → keeps_strs (andThen m k).
Proof.
  intros Hm Hk w. unfold andThen. specialize (Hm w).
  destruct (m w) as [[a|e] w1]; simpl in *; [|done].
  by rewrite Hk.
Qed.

Lemma keeps_strs_try_catch {A} (m : M A) (h : exn → M A) :
  keeps_strs m → (∀ e, keeps_strs (h e)) → keeps_strs (try_catch m h).
Proof.
  intros Hm Hh w. unfold try_catch. specialize (Hm w).
  destruct (m w) as [[a|e] w1]; simpl in *; [done|].
  by rewrite Hh.
Qed.

Lemma keeps_strs_eval b k : keeps_strs (redis_eval_decrement b k).
Proof.
  intros w. unfold redis_eval_decrement. destruct b; [done|].
  pose proof (ATOMIC_PRINT_DECREMENT_strs k (redis w)) as H.
  by destruct (ATOMIC_PRINT_DECREMENT k (redis w)).
Qed.

Lemma keeps_strs_seed env d u n : keeps_strs (seedRedisRemaining env d u n).
Proof. intros w. unfold seedRedisRemaining. by destruct (hset_throws env). Qed.

Lemma keeps_redis_strs {A} (m : M A) : keeps_redis m → keeps_strs m.
Proof. intros H w. by rewrite H. Qed.

Ltac db_only :=
  intros w; repeat (simpl; case_match); simpl; try done.

Lemma keeps_redis_fallback env d u :
  keeps_redis (PrintQuotaService.dbFallbackOptimisticConsume env d u).
Proof. unfold PrintQuotaService.dbFallbackOptimisticConsume. db_only. Qed.

Lemma keeps_redis_writeBehindDbConsume env d u :
  keeps_redis (PrintQuotaService.writeBehindDbConsume env d u).
Proof. unfold PrintQuotaService.writeBehindDbConsume. db_only. Qed.

Lemma keeps_redis_load d u :
  keeps_redis (PrintQuotaService.loadAndComputeRemainingFromDb d u).
Proof. unfold PrintQuotaService.loadAndComputeRemainingFromDb. db_only. Qed.

Lemma keeps_redis_dbOptimisticConsume env d u :
  keeps_redis (PrintQuotaServiceV2.dbOptimisticConsume env d u).
Proof. unfold PrintQuotaServiceV2.dbOptimisticConsume. db_only. Qed.

Lemma keeps_redis_writeBehind env d u :
  keeps_redis (PrintQuotaServiceV2.writeBehind env d u).
Proof. unfold PrintQuotaServiceV2.writeBehind. db_only. Qed.

Lemma keeps_redis_ensure d u :
  keeps_redis (PrintQuotaServiceV2.ensureDbQuotaInitialized d u).
Proof. unfold PrintQuotaServiceV2.ensureDbQuotaInitialized. db_only. Qed.

(** *** STEP 1, the idempotency check, in the two files *)

(** In [printQuotaService.js] a request whose key is held is not answered
    as a replay: the nil reply of [SET ... NX] is [null], the branch meant
    for an unreachable cache is taken and the call consumes from the
    durable store. *)
Lemma replay_goes_to_fallback env d u requestId w :
  let rid := trim (or_string requestId "") in
  truthy_string rid = true →
  client env = true → set_throws env = false →
  Redis.EXISTS (now env) (reqKey d u rid) (redis w) = true →
  PrintQuotaService.assertAndConsumePrintQuota env d u requestId w
  = PrintQuotaService.dbFallbackOptimisticConsume env d u w.
Proof.
  intros rid Hrid Hc Hs Hheld.
  unfold PrintQuotaService.assertAndConsumePrintQuota.
  fold rid. rewrite Hrid, Hc. simpl.
  unfold andThen, try_catch, redis_set_nx. rewrite Hs.
  rewrite (SET_NX_EX_held _ _ _ _ _ Hheld). simpl.
  by rewrite with_redis_id.
Qed.

(** In [printQuotaServiceV2.js] the same request returns at once and leaves
    the cache and the store as they were. *)
Lemma V2_replay_is_silent env d u requestId w :
  let rid := trim (or_string requestId "") in
  truthy_string rid = true →
  client env = true → set_throws env = false →
  Redis.EXISTS (now env) (reqKey d u rid) (redis w) = true →
  PrintQuotaServiceV2.assertAndConsumePrintQuota env d u requestId w = (Ok tt, w).
Proof.
  intros rid Hrid Hc Hs Hheld.
  unfold PrintQuotaServiceV2.assertAndConsumePrintQuota.
  fold rid. rewrite Hrid, Hc. simpl.
  unfold try_catch, PrintQuotaServiceV2.cachePath, andThen, redis_set_nx.
  rewrite Hs, (SET_NX_EX_held _ _ _ _ _ Hheld). simpl.
  by rewrite with_redis_id.
Qed.

(** What follows STEP 1 in [printQuotaServiceV2.js] never touches a
    string key, so the request key set by STEP 1 is still there when the
    call is over, whatever its outcome. *)
Lemma V2_after_step1_keeps_strs env d u :
  keeps_strs
    (let! dec0 := redis_eval_decrement (eval_throws env) (quotaKey d u) in
     let! dec :=
       if (dec0 =? -2)%Z then
         let! qu := PrintQuotaServiceV2.ensureDbQuotaInitialized d u in
         run! seedRedisRemaining env d u (qu.1 - qu.2) in
         redis_eval_decrement (eval2_throws env) (quotaKey d u)
       else ret dec0 in
     if (dec =? -1)%Z then throw (QuotaError LIMIT)
     else PrintQuotaServiceV2.writeBehind env d u).
Proof.
  apply keeps_strs_andThen; [apply keeps_strs_eval|]. intros dec0.
  apply keeps_strs_andThen.
  - destruct (dec0 =? -2)%Z; [|apply keeps_strs_ret].
    apply keeps_strs_andThen; [apply keeps_redis_strs, keeps_redis_ensure|].
    intros qu. apply keeps_strs_andThen; [apply keeps_strs_seed|].
    intros _. apply keeps_strs_eval.
  - intros dec. destruct (dec =? -1)%Z; [apply keeps_strs_throw|].
    apply keeps_redis_strs, keeps_redis_writeBehind.
Qed.

Lemma V2_request_key_stays env d u requestId w t :
  let rid := trim (or_string requestId "") in
  truthy_string rid = true →
  client env = true → set_throws env = false →
  Redis.EXISTS (now env) (reqKey d u rid) (redis w) = false →
  (now env ≤ t < now env + IDEMPOTENCY_TTL_SECONDS)%Z →
  Redis.EXISTS t (reqKey d u rid)
    (redis (PrintQuotaServiceV2.assertAndConsumePrintQuota env d u requestId w).2)
  = true.
Proof.
  intros rid Hrid Hc Hs Hfree Ht.
  unfold PrintQuotaServiceV2.assertAndConsumePrintQuota.
  fold rid. rewrite Hrid, Hc. simpl.
  unfold try_catch, PrintQuotaServiceV2.cachePath.
  unfold andThen at 1. unfold redis_set_nx. rewrite Hs.
  rewrite (SET_NX_EX_free _ _ _ _ _ Hfree). simpl.
  set (w1 := with_redis _ w).
  pose proof (V2_after_step1_keeps_strs env d u w1) as Hk. simpl in Hk.
  match goal with |- context [match ?m w1 with _ => _ end] =>
    destruct (m w1) as [[[]|e] w2] eqn:E end; simpl in *.
  - unfold Redis.EXISTS, Redis.GET. rewrite Hk. subst w1; simpl.
    rewrite lookup_insert_eq; simpl.
    destruct (Z.ltb_spec t (now env + IDEMPOTENCY_TTL_SECONDS)); [done|lia].
  - rewrite (keeps_redis_dbOptimisticConsume env d u w2).
    unfold Redis.EXISTS, Redis.GET. rewrite Hk. subst w1; simpl.
    rewrite lookup_insert_eq; simpl.
    destruct (Z.ltb_spec t (now env + IDEMPOTENCY_TTL_SECONDS)); [done|lia].
Qed.

(** The sibling keeps the promise of STEP 1: a second call for the same
    request inside the window, with the cache up, returns without any
    decrement of the cache or increment in the store. *)
Lemma V2_second_call_is_silent env1 env2 d u requestId w :
  let rid := trim (or_string requestId "") in
  let w1 := (PrintQuotaServiceV2.assertAndConsumePrintQuota env1 d u requestId w).2 in
  truthy_string rid = true →
  client env1 = true → set_throws env1 = false →
  client env2 = true → set_throws env2 = false →
  Redis.EXISTS (now env1) (reqKey d u rid) (redis w) = false →
  (now env1 ≤ now env2 < now env1 + IDEMPOTENCY_TTL_SECONDS)%Z →
  PrintQuotaServiceV2.assertAndConsumePrintQuota env2 d u requestId w1 = (Ok tt, w1).
Proof.
  intros rid w1 Hrid Hc1 Hs1 Hc2 Hs2 Hfree Ht.
  apply V2_replay_is_silent; try done.
  by apply V2_request_key_stays.
Qed.

End QuotaFacts.

Section QuotaClaims.
Import Quota QuotaVocabulary Scenarios.

(** On the cache path of [printQuotaService.js], a denied decrement deletes
    the request key, fails with [LIMIT] and writes nothing to the store. *)
Lemma limit_deletes_request_key env d u requestId w n t :
  let rid := trim (or_string requestId "") in
  let r := PrintQuotaService.assertAndConsumePrintQuota env d u requestId w in
  truthy_string rid = true →
  client env = true → set_throws env = false → eval_throws env = false →
  del_throws env = false →
  Redis.EXISTS (now env) (reqKey d u rid) (redis w) = false →
  Redis.HGET_remaining (quotaKey d u) (redis w) = Some n → (n ≤ 0)%Z →
  r.1 = Throw (QuotaError LIMIT)
  ∧ db r.2 = db w
  ∧ Redis.remaining (redis r.2) = Redis.remaining (redis w)
  ∧ Redis.EXISTS t (reqKey d u rid) (redis r.2) = false.
Proof.
  intros rid r Hrid Hc Hs He Hd Hfree Hn Hle. subst r.
  unfold PrintQuotaService.assertAndConsumePrintQuota.
  fold rid. rewrite Hrid, Hc. simpl.
  unfold andThen, try_catch, redis_set_nx, redis_eval_decrement, redis_del, ret, throw.
  rewrite Hs, He, Hd.
  rewrite (SET_NX_EX_free _ _ _ _ _ Hfree). simpl.
  rewrite (ATOMIC_PRINT_DECREMENT_denied _ _ n); [|done|done]. simpl.
  repeat split; try done. apply EXISTS_DEL.
Qed.

(** The durable fallback of either file keeps [printsUsed ≤ printQuota]. *)
Lemma fallback_keeps_within_quota env d u w :
  db_within_quota (db w) →
  db_within_quota (db (PrintQuotaService.dbFallbackOptimisticConsume env d u w).2).
Proof.
  intros Hinv. unfold PrintQuotaService.dbFallbackOptimisticConsume.
  destruct (db w !! (d, u)) as [a|] eqn:Ha; [|done].
  destruct (revoked a); [done|].
  assert (Hq : effectiveQuota (backfillQuota a) = effectiveQuota a).
  { unfold backfillQuota, effectiveQuota. by destruct a as [? ? [q|] ? ? ?]. }
  assert (Hu : printsUsed (backfillQuota a) = printsUsed a).
  { unfold backfillQuota. by destruct a as [? ? [q|] ? ? ?]. }
  assert (Hw1 : db_within_quota
                  (db (if is_null (printQuota a)
                       then with_db (<[(d, u) := backfillQuota a]> (db w)) w
                       else w))).
  { destruct (is_null (printQuota a)); [|done]. simpl.
    intros k b. rewrite lookup_insert. case_decide as Hk.
    - intros [= <-]. unfold within_quota. rewrite Hq, Hu. by apply (Hinv _ _ Ha).
    - apply Hinv. }
  destruct (Z.ltb_spec (printsUsed (backfillQuota a)) (effectiveQuota a)) as [Hlt|Hge];
    simpl; [|done].
  intros k b. rewrite lookup_insert. case_decide as Hk.
  - intros [= <-]. unfold within_quota, set_lastPrintAt, set_printsUsed, effectiveQuota.
    simpl. fold (effectiveQuota (backfillQuota a)). rewrite Hq. lia.
  - apply Hw1.
Qed.

Lemma V2_fallback_keeps_within_quota env d u w :
  db_within_quota (db w) →
  db_within_quota (db (PrintQuotaServiceV2.dbOptimisticConsume env d u w).2).
Proof.
  intros Hinv. unfold PrintQuotaServiceV2.dbOptimisticConsume.
  destruct (db w !! (d, u)) as [a|] eqn:Ha; [|done].
  assert (Hq : effectiveQuota (backfillQuota a) = effectiveQuota a).
  { unfold backfillQuota, effectiveQuota. by destruct a as [? ? [q|] ? ? ?]. }
  assert (Hu : printsUsed (backfillQuota a) = printsUsed a).
  { unfold backfillQuota. by destruct a as [? ? [q|] ? ? ?]. }
  assert (Hw1 : db_within_quota
                  (db (if is_null (printQuota a)
                       then with_db (<[(d, u) := backfillQuota a]> (db w)) w
                       else w))).
  { destruct (is_null (printQuota a)); [|done]. simpl.
    intros k b. rewrite lookup_insert. case_decide as Hk.
    - intros [= <-]. unfold within_quota. rewrite Hq, Hu. by apply (Hinv _ _ Ha).
    - apply Hinv. }
  destruct (revoked (backfillQuota a)); simpl; [done|].
  destruct (Z.ltb_spec (printsUsed (backfillQuota a)) (effectiveQuota a)) as [Hlt|Hge];
    simpl; [|done].
  intros k b. rewrite lookup_insert. case_decide as Hk.
  - intros [= <-].
    unfold within_quota, PrintQuotaServiceV2.consumeBoth, set_lastPrintAt,
      set_usedPrints, set_printsUsed, effectiveQuota.
    simpl. fold (effectiveQuota (backfillQuota a)). rewrite Hq. lia.
  - apply Hw1.
Qed.

(** C1 (the code departs from the claim).  [printQuotaService.js], cache
    up all along, quota 2: the request [r1] is consumed at second 0 and its
    key is held; the same request at second 10, inside the window of 300
    seconds, is not answered as a replay but consumes again from the durable
    store, so two increments of [printsUsed] go to one request id. *)
Theorem replay_consumes_twice :
  let first :=
    PrintQuotaService.assertAndConsumePrintQuota (healthy 0) "d" "u" (Some "r1")
      (cold 2 0) in
  let second :=
    PrintQuotaService.assertAndConsumePrintQuota (healthy 10) "d" "u" (Some "r1")
      first.2 in
  first.1 = Ok tt ∧ usedOf first.2 = Some 1%Z ∧ held 10 "r1" first.2 = true
  ∧ second.1 = Ok tt ∧ usedOf second.2 = Some 2%Z
  ∧ second
    = PrintQuotaService.dbFallbackOptimisticConsume (healthy 10) "d" "u" first.2.
Proof. vm_compute. repeat split; reflexivity. Qed.

(** The sibling [printQuotaServiceV2.js] on the same two calls: the second
    one changes nothing. *)
Example V2_replay_consumes_once :
  let first :=
    PrintQuotaServiceV2.assertAndConsumePrintQuota (healthy 0) "d" "u" (Some "r1")
      (cold 2 0) in
  let second :=
    PrintQuotaServiceV2.assertAndConsumePrintQuota (healthy 10) "d" "u" (Some "r1")
      first.2 in
  usedOf first.2 = Some 1%Z ∧ second = (Ok tt, first.2).
Proof. vm_compute. split; reflexivity. Qed.

(** C2 (the code departs from the claim).  Quota 2, in either file: a
    consumption through cache-miss recovery and write-behind, one through the
    durable fallback while there is no cache client, and one more on the
    cache path, whose counter never heard of the fallback.  All three
    succeed and the store ends with [printsUsed = 3] against
    [printQuota = 2]. *)
Theorem write_behind_overshoots_quota :
  let run (consume : Env → string → string → option string → M unit) :=
    let w1 := (consume (healthy 0) "d" "u" (Some "r1") (cold 2 0)).2 in
    let w2 := (consume (no_client 10) "d" "u" (Some "r2") w1).2 in
    consume (healthy 20) "d" "u" (Some "r3") w2 in
  let a := run PrintQuotaService.assertAndConsumePrintQuota in
  let b := run PrintQuotaServiceV2.assertAndConsumePrintQuota in
  a.1 = Ok tt ∧ usedOf a.2 = Some 3%Z ∧ quotaOf a.2 = Some 2%Z
  ∧ b.1 = Ok tt ∧ usedOf b.2 = Some 3%Z ∧ quotaOf b.2 = Some 2%Z
  ∧ ¬ db_within_quota (db a.2) ∧ ¬ db_within_quota (db b.2).
Proof.
  cbv zeta.
  repeat split; try (vm_compute; reflexivity).
  - intros H.
    assert (Hl : usedOf
      (PrintQuotaService.assertAndConsumePrintQuota (healthy 20) "d" "u" (Some "r3")
         (PrintQuotaService.assertAndConsumePrintQuota (no_client 10) "d" "u" (Some "r2")
            (PrintQuotaService.assertAndConsumePrintQuota (healthy 0) "d" "u"
               (Some "r1") (cold 2 0)).2).2).2 = Some 3%Z) by (vm_compute; reflexivity).
    unfold usedOf in Hl.
    destruct (db _ !! ("d", "u")) as [acc|] eqn:E; [|done].
    specialize (H _ _ E). unfold within_quota in H.
    assert (Hq : Some (effectiveQuota acc) = Some 2%Z).
    { change (Some (effectiveQuota acc)) with (effectiveQuota <$> Some acc).
      rewrite <- E. vm_compute. reflexivity. }
    simpl in Hl. injection Hl as Hl. injection Hq as Hq. lia.
  - intros H.
    assert (Hl : usedOf
      (PrintQuotaServiceV2.assertAndConsumePrintQuota (healthy 20) "d" "u" (Some "r3")
         (PrintQuotaServiceV2.assertAndConsumePrintQuota (no_client 10) "d" "u" (Some "r2")
            (PrintQuotaServiceV2.assertAndConsumePrintQuota (healthy 0) "d" "u"
               (Some "r1") (cold 2 0)).2).2).2 = Some 3%Z) by (vm_compute; reflexivity).
    unfold usedOf in Hl.
    destruct (db _ !! ("d", "u")) as [acc|] eqn:E; [|done].
    specialize (H _ _ E). unfold within_quota in H.
    assert (Hq : Some (effectiveQuota acc) = Some 2%Z).
    { change (Some (effectiveQuota acc)) with (effectiveQuota <$> Some acc).
      rewrite <- E. vm_compute. reflexivity. }
    simpl in Hl. injection Hl as Hl. injection Hq as Hq. lia.
Qed.

(** C3 (the code departs from the claim).  [printQuotaServiceV2.js] throws
    [LIMIT] inside the [try] whose [catch] sends every failure to the durable
    fallback.  With quota 1 spent, [r2] still ends in [LIMIT], but its key
    stays held, so once the quota is raised the retry of [r2] is answered as a
    replay and prints without consuming, where [printQuotaService.js] deleted
    the key.  With a stale counter [remaining = 0] beside a grant that has a
    print left, the denied decrement ends in success and an increment of
    [printsUsed] in the store. *)
Theorem V2_limit_is_swallowed :
  let denied :=
    PrintQuotaServiceV2.assertAndConsumePrintQuota (healthy 0) "d" "u" (Some "r2")
      (cold 1 1) in
  let retry :=
    PrintQuotaServiceV2.assertAndConsumePrintQuota (healthy 10) "d" "u" (Some "r2")
      (bumpQuota 2 denied.2) in
  let sibling :=
    PrintQuotaService.assertAndConsumePrintQuota (healthy 0) "d" "u" (Some "r2")
      (cold 1 1) in
  let stale :=
    PrintQuotaServiceV2.assertAndConsumePrintQuota (healthy 0) "d" "u" (Some "r3")
      (cached 2 1 0) in
  denied.1 = Throw (QuotaError LIMIT) ∧ held 0 "r2" denied.2 = true
  ∧ retry = (Ok tt, bumpQuota 2 denied.2) ∧ usedOf retry.2 = Some 1%Z
  ∧ sibling.1 = Throw (QuotaError LIMIT) ∧ held 0 "r2" sibling.2 = false
  ∧ remainingOf (cached 2 1 0) = Some 0%Z
  ∧ stale.1 = Ok tt ∧ usedOf (cached 2 1 0) = Some 1%Z ∧ usedOf stale.2 = Some 2%Z.
Proof. vm_compute. repeat split; reflexivity. Qed.

End QuotaClaims.

(** ** The payload MAC *)

Section HmacFacts.

Lemma hex_length bs : String.length (Hmac.hex bs) = (2 * length bs)%nat.
Proof. induction bs as [|b bs IH]; simpl; [done|]. rewrite IH. lia. Qed.

(** A signature is 64 hexadecimal characters. *)
Lemma signJobPayload_length {P} (c : Hmac.Crypto P) secret payload s :
  Hmac.signJobPayload c secret payload = Ok s → String.length s = 64%nat.
Proof.
  unfold Hmac.signJobPayload. destruct secret as [k|]; [|done].
  destruct (truthy_string k); [|done]. intros [= <-].
  by rewrite hex_length, Hmac.hmac_sha256_length.
Qed.

Lemma timingSafeEqual_length a b r :
  Hmac.timingSafeEqual a b = Ok r → String.length a = String.length b.
Proof.
  unfold Hmac.timingSafeEqual.
  destruct (Nat.eqb_spec (String.length a) (String.length b)); [done|discriminate].
Qed.

(** What [verifyJobPayload] does with a stored MAC of another length. *)
Lemma verifyJobPayload_other_length {P} (c : Hmac.Crypto P) secret payload mac :
  String.length mac ≠ 64%nat →
  Hmac.verifyJobPayload c secret payload mac
  = match Hmac.signJobPayload c secret payload with
    | Ok _ => Throw (RangeError "Input buffers must have the same byte length")
    | Throw e => Throw e
    end.
Proof.
  intros Hlen. unfold Hmac.verifyJobPayload, bind.
  destruct (Hmac.signJobPayload c secret payload) as [s|e] eqn:Hs; [|done].
  apply signJobPayload_length in Hs. unfold Hmac.timingSafeEqual.
  destruct (Nat.eqb_spec (String.length s) (String.length mac)); [congruence|done].
Qed.

End HmacFacts.

(** ** The worker *)

Section WorkerFacts.
Import Scheduler VectorPdfWorker SchedulerVocabulary SchedulerScenarios.

(** C10.  For a batch whose PrintJob exists, is not expired and validates,
    and whose stored MAC does not have the 64 bytes of a hex digest:
    [verifyJobPayload] returns no boolean, it throws, and what it throws (the
    [RangeError] of [timingSafeEqual] when the secret is configured) is not the
    error ['HMAC verification failed'] and is what the batch fails with. *)
Theorem malformed_mac_throws env deps job printJobId jobDoc w :
  data_printJobId job = Some printJobId →
  jobs w !! printJobId = Some jobDoc →
  job_status jobDoc ≠ EXPIRED →
  validateVectorMetadata deps (metadata jobDoc) = true →
  String.length (payloadHmac jobDoc) ≠ 64%nat →
  let verdict :=
    Hmac.verifyJobPayload (crypto deps) (secret env) (metadata jobDoc)
      (payloadHmac jobDoc) in
  (∀ b, verdict ≠ Ok b)
  ∧ ∃ e, verdict = Throw e
         ∧ e ≠ Error "HMAC verification failed"
         ∧ (is_ok (Hmac.signJobPayload (crypto deps) (secret env) (metadata jobDoc))
            = true →
            e = RangeError "Input buffers must have the same byte length")
         ∧ processBatch env deps job w = (Throw e, w).
Proof.
  intros Hid Hjob Hst Hval Hlen verdict.
  assert (Hv := verifyJobPayload_other_length (crypto deps) (secret env)
                  (metadata jobDoc) (payloadHmac jobDoc) Hlen).
  fold verdict in Hv.
  assert (Hbatch : ∀ e, verdict = Throw e → processBatch env deps job w = (Throw e, w)).
  { intros e He. unfold processBatch. rewrite Hid.
    unfold andThen, findById; simpl. rewrite Hjob.
    rewrite bool_decide_eq_false_2 by done. rewrite Hval; simpl.
    fold verdict. rewrite He. done. }
  destruct (Hmac.signJobPayload (crypto deps) (secret env) (metadata jobDoc))
    as [s|e] eqn:Hs.
  - split; [intros b Hb; congruence|].
    eexists; repeat split; [exact Hv|discriminate|apply Hbatch, Hv].
  - split; [intros b Hb; congruence|].
    exists e; repeat split; [exact Hv| |discriminate|apply Hbatch, Hv].
    unfold Hmac.signJobPayload in Hs.
    destruct (secret env) as [k|]; [destruct (truthy_string k)|];
      try discriminate; by injection Hs as <-.
Qed.

(** The statement above at a stored MAC of five characters. *)
Lemma malformed_mac_throws_witness :
  (∀ b, Hmac.verifyJobPayload zeroCrypto (Some "secret") meta1 "short" ≠ Ok b)
  ∧ ∃ e, Hmac.verifyJobPayload zeroCrypto (Some "secret") meta1 "short" = Throw e
         ∧ e ≠ Error "HMAC verification failed"
         ∧ (true = true → e = RangeError "Input buffers must have the same byte length")
         ∧ processBatch plainEnv plainDeps (batchJob 0 2 1) (world1 "short" PENDING)
           = (Throw e, world1 "short" PENDING).
Proof.
  apply (malformed_mac_throws plainEnv plainDeps (batchJob 0 2 1) "j1"
           (job1 "short" PENDING) (world1 "short" PENDING)).
  - reflexivity.
  - vm_compute. reflexivity.
  - discriminate.
  - reflexivity.
  - vm_compute. discriminate.
Defined.

End WorkerFacts.

Section BatchFacts.
Import Scheduler VectorPdfWorker SchedulerVocabulary SchedulerScenarios.

Lemma updateProgress_metadata id j p ev d w :
  ∃ j' w', updateProgress id j p ev d w = (Ok j', w') ∧ metadata j' = metadata j.
Proof. unfold updateProgress, andThen, save, modify, ret. simpl. eauto. Qed.

(** When every page of the range renders to bytes with the PDF header, the
    loop ends with one entry per page index, in ascending order. *)
Lemma renderBatchPages_collects deps id total idxs :
  ∀ jobDoc out w,
    (∀ i, i ∈ idxs →
          ∃ bytes, createSinglePage deps (metadata jobDoc) i = Ok bytes
                   ∧ startsWith "%PDF-" bytes = true) →
    ∃ jobDoc' w',
      renderBatchPages deps id total (jobDoc, out) idxs w
      = (Ok (jobDoc', out ++ (renderedEntry deps (metadata jobDoc) <$> idxs)), w')
      ∧ metadata jobDoc' = metadata jobDoc.
Proof.
  induction idxs as [|i idxs IH]; intros jobDoc out w Hall.
  - exists jobDoc, w. simpl. by rewrite app_nil_r.
  - destruct (Hall i) as (bytes & Hb & Hh); [by left|].
    cbn [renderBatchPages]. unfold andThen at 1. unfold renderBatchPage.
    unfold andThen at 1. unfold lift. rewrite Hb. cbv beta iota.
    rewrite Hh. cbn [negb]. cbv beta iota. unfold andThen at 1.
    edestruct (updateProgress_metadata id jobDoc) as (j' & w' & -> & Hm).
    unfold ret at 1.
    destruct (IH j' (out ++ [renderedEntry deps (metadata jobDoc) i]) w')
      as (j'' & w'' & Hrun & Hm').
    { intros k Hk. rewrite Hm. apply Hall. by right. }
    exists j'', w''. split; [|congruence].
    unfold renderedEntry at 1 in Hrun. rewrite Hb in Hrun. rewrite Hrun.
    rewrite Hm. by rewrite <- app_assoc.
Qed.

(** Under the preconditions of the contract (the job exists, is not
    expired, validates, its MAC verifies and every page renders), the batch
    still ends in the [ReferenceError] of its log line. *)
Lemma processBatch_throws_ReferenceError env deps job printJobId jobDoc w :
  data_printJobId job = Some printJobId →
  jobs w !! printJobId = Some jobDoc →
  job_status jobDoc ≠ EXPIRED →
  validateVectorMetadata deps (metadata jobDoc) = true →
  Hmac.verifyJobPayload (crypto deps) (secret env) (metadata jobDoc)
    (payloadHmac jobDoc) = Ok true →
  (∀ i, (data_startPage job ≤ i < data_endPage job)%Z →
        ∃ bytes, createSinglePage deps (metadata jobDoc) i = Ok bytes
                 ∧ startsWith "%PDF-" bytes = true) →
  (processBatch env deps job w).1
  = Throw (ReferenceError "documentId is not defined").
Proof.
  intros Hid Hjob Hst Hval Hmac Hpages.
  unfold processBatch. rewrite Hid.
  unfold andThen at 1. unfold findById. rewrite Hjob.
  rewrite bool_decide_eq_false_2 by done. rewrite Hval; simpl.
  unfold andThen at 1. unfold lift. rewrite Hmac. simpl.
  unfold andThen at 1.
  edestruct (renderBatchPages_collects deps printJobId) as (j' & w' & -> & _).
  { intros i Hi. apply Hpages. apply elem_of_seqZ in Hi. lia. }
  reflexivity.
Qed.

(** C5 (the code departs from the claim).  [processBatch] never returns
    [{ pages }]: whatever the job and the store, it returns [{ skipped }] or
    throws, because the log line after the page loop reads [documentId] (and
    [batchStart]), which nothing binds.  On a two-page job that meets every
    precondition of the contract the outcome is that [ReferenceError]. *)
Theorem processBatch_never_returns_pages :
  (∀ env deps job w,
     (processBatch env deps job w).1 = Ok CSkipped
     ∨ ∃ e, (processBatch env deps job w).1 = Throw e)
  ∧ (processBatch plainEnv plainDeps (batchJob 0 2 1) (world1 zeroMac PENDING)).1
    = Throw (ReferenceError "documentId is not defined").
Proof.
  split; [|vm_compute; reflexivity].
  intros env deps job w.
  destruct (processBatch env deps job w) as [[v|e] w'] eqn:E;
    [left|right; eexists; reflexivity].
  simpl. f_equal. revert E. unfold processBatch.
  destruct (data_printJobId job) as [id|]; [|discriminate].
  unfold andThen at 1. unfold findById.
  destruct (jobs w !! id) as [jobDoc|]; [|discriminate].
  case_bool_decide; [by intros [= <- _]|].
  destruct (validateVectorMetadata deps (metadata jobDoc)); cbn [negb];
    [|discriminate].
  unfold andThen at 1. unfold lift.
  destruct (Hmac.verifyJobPayload _ _ _ _) as [[]|e]; cbn [negb];
    [|discriminate|discriminate].
  unfold andThen at 1.
  destruct (renderBatchPages _ _ _ _ _ _) as [[st|e] w'']; discriminate.
Qed.

End BatchFacts.

Section FailureFacts.
Import Scheduler VectorPdfWorker SchedulerVocabulary SchedulerScenarios.

Lemma lockKey_not_activeKey d : lockKey d ≠ activeKey.
Proof. unfold lockKey, activeKey. simpl. discriminate. Qed.

Lemma not_EXISTS_lookup now k r :
  Redis.strs r !! k = None → Redis.EXISTS now k r = false.
Proof. intros H. unfold Redis.EXISTS, Redis.GET. by rewrite H. Qed.

Lemma INCRBY_other now k k' d r r' :
  k ≠ k' → Redis.INCRBY now k d r = Some r' →
  Redis.strs r' !! k' = Redis.strs r !! k'.
Proof.
  intros Hne. unfold Redis.INCRBY.
  destruct (Redis.GET now k r) as [v|].
  - destruct (Z_of_String v); [|done]. intros [= <-]. simpl.
    by rewrite lookup_insert_ne.
  - intros [= <-]. simpl. by rewrite lookup_insert_ne.
Qed.

(** The release script removes a lock that its job holds. *)
Lemma RELEASE_drops_held_lock now d j r :
  Redis.GET now (lockKey d) r = Some j →
  Redis.EXISTS now (lockKey d)
    (RELEASE_RENDER_LOCK_LUA now (lockKey d) activeKey (memberKey j) j r) = false.
Proof.
  intros Hheld. unfold RELEASE_RENDER_LOCK_LUA. rewrite Hheld, String.eqb_refl.
  set (r1 := Redis.DEL (lockKey d) r).
  assert (H1 : Redis.strs r1 !! lockKey d = None) by apply lookup_delete_eq.
  destruct (Redis.EXISTS now (memberKey j) r1); [|by apply not_EXISTS_lookup].
  set (r2 := Redis.DEL (memberKey j) r1).
  assert (H2 : Redis.strs r2 !! lockKey d = None).
  { subst r2. simpl. rewrite lookup_delete. by case_decide. }
  destruct (Z_of_String _) as [active|]; [|by apply not_EXISTS_lookup].
  destruct (0 <? active)%Z; [|by apply not_EXISTS_lookup].
  destruct (Redis.DECR now activeKey r2) as [r3|] eqn:E; simpl;
    [|by apply not_EXISTS_lookup].
  apply not_EXISTS_lookup. unfold Redis.DECR in E.
  rewrite (INCRBY_other _ _ _ _ _ _ (not_eq_sym (lockKey_not_activeKey d)) E).
  exact H2.
Qed.

Lemma releaseRenderLock_jobs env d j w :
  jobs (releaseRenderLock env d j w).2 = jobs w.
Proof.
  unfold releaseRenderLock.
  destruct (negb (client env)); [done|].
  destruct (negb (truthy_string d) || negb (truthy_string j)); [done|].
  by destruct (eval_throws env).
Qed.

(** C7, refuted as stated: a batch configured for three attempts fails its
    first; the listener marks the running job FAILED all the same (with the
    error and a JOB_FAILED entry), and only the lock is left alone. *)
Lemma first_failure_marks_job_failed :
  let job := batchJob 0 2 1 in
  let w := world1 zeroMac RUNNING in
  let w' := (onFailed plainEnv job boom w).2 in
  (or_num (attemptsMade job) 0 <? or_num (opts_attempts job) 1)%Z = true
  ∧ job_status <$> jobs w !! "j1" = Some RUNNING
  ∧ job_status <$> jobs w' !! "j1" = Some FAILED
  ∧ job_error <$> jobs w' !! "j1"
    = Some (mkJobError (Some "render failed") (Some "at render"))
  ∧ (last ∘ audit) <$> jobs w' !! "j1"
    = Some (Some (mkAudit "JOB_FAILED" (DQueueJob "q7" "batch")))
  ∧ Redis.GET 0 (lockKey "doc1") (redis w') = Some "j1".
Proof. vm_compute. repeat split; reflexivity. Qed.

Lemma onFailed_unfold env job err w printJobId jobDoc :
  data_printJobId job = Some printJobId →
  truthy_string printJobId = true →
  jobs w !! printJobId = Some jobDoc →
  onFailed env job err w
  = let saved := with_jobs (<[printJobId := failedJob job err jobDoc]>) w in
    if (or_num (opts_attempts job) 1 <=? or_num (attemptsMade job) 0)%Z
    then releaseRenderLock env
           (lockDocumentId (metadata jobDoc) (job_sourcePdfKey jobDoc)) printJobId saved
    else (Ok tt, saved).
Proof.
  intros Hid Htruthy Hjob. unfold onFailed. rewrite Hid, Htruthy. cbn [negb].
  unfold andThen, findById, save, modify. rewrite Hjob.
  by destruct (_ <=? _)%Z.
Qed.

(** C7, as the code has it: every failed attempt of a child that names an
    existing PrintJob marks it FAILED, records [{message, stack}] (the
    message of the error or ["Job failed"], its stack or [null]) and appends
    JOB_FAILED with the queue job's id and name; being the final attempt
    ([attemptsMade ≥ attempts]) only decides the render lock, which an earlier
    attempt leaves untouched and the final one releases. *)
Theorem onFailed_marks_every_attempt env job err w printJobId jobDoc :
  data_printJobId job = Some printJobId →
  truthy_string printJobId = true →
  jobs w !! printJobId = Some jobDoc →
  let w' := (onFailed env job err w).2 in
  let attempts := or_num (opts_attempts job) 1 in
  let made := or_num (attemptsMade job) 0 in
  let documentId_ := lockDocumentId (metadata jobDoc) (job_sourcePdfKey jobDoc) in
  (∃ failed,
     jobs w' !! printJobId = Some failed
     ∧ job_status failed = FAILED
     ∧ err_message (job_error failed) = Some (or_string (err_message err) "Job failed")
     ∧ err_stack (job_error failed)
       = match err_stack err with
         | Some stack => if truthy_string stack then Some stack else None
         | None => None
         end
     ∧ audit failed
       = audit jobDoc ++ [mkAudit "JOB_FAILED" (DQueueJob (qid job) (qname job))])
  ∧ ((made < attempts)%Z → redis w' = redis w)
  ∧ ((attempts ≤ made)%Z →
     client env = true → eval_throws env = false →
     truthy_string documentId_ = true →
     Redis.GET (now env) (lockKey documentId_) (redis w) = Some printJobId →
     Redis.EXISTS (now env) (lockKey documentId_) (redis w') = false).
Proof.
  intros Hid Htruthy Hjob w' attempts made documentId_.
  subst w'. rewrite (onFailed_unfold _ _ _ _ _ _ Hid Htruthy Hjob).
  fold attempts made documentId_. cbv zeta.
  destruct (Z.leb_spec attempts made) as [Hfinal|Hearly].
  - split; [|split; [lia|]].
    + exists (failedJob job err jobDoc). rewrite releaseRenderLock_jobs. simpl.
      rewrite lookup_insert_eq. done.
    + intros _ Hc He Hd Hheld. unfold releaseRenderLock.
      rewrite Hc, He, Hd, Htruthy. simpl.
      by apply RELEASE_drops_held_lock.
  - split; [|split; [done|lia]].
    exists (failedJob job err jobDoc). simpl. rewrite lookup_insert_eq. done.
Qed.

(** The statement above on the first and on the last of three attempts. *)
Lemma onFailed_marks_every_attempt_witness :
  (job_status <$> jobs (onFailed plainEnv (batchJob 0 2 1) boom
                          (world1 zeroMac RUNNING)).2 !! "j1" = Some FAILED
   ∧ (err_stack ∘ job_error)
       <$> jobs (onFailed plainEnv (batchJob 0 2 1) boom
                   (world1 zeroMac RUNNING)).2 !! "j1" = Some (Some "at render")
   ∧ redis (onFailed plainEnv (batchJob 0 2 1) boom (world1 zeroMac RUNNING)).2
     = lockedRedis)
  ∧ Redis.EXISTS 0 (lockKey "doc1")
      (redis (onFailed plainEnv (batchJob 0 2 3) boom (world1 zeroMac RUNNING)).2)
    = false.
Proof.
  split.
  - destruct (onFailed_marks_every_attempt plainEnv (batchJob 0 2 1) boom
                (world1 zeroMac RUNNING) "j1" (job1 zeroMac RUNNING))
      as [(failed & Hf & Hs & _ & Hstack & _) [Hearly _]];
      [reflexivity | reflexivity | vm_compute; reflexivity |].
    split; [rewrite Hf; simpl; by rewrite Hs|].
    split; [rewrite Hf; simpl; by rewrite Hstack|].
    apply Hearly. vm_compute. reflexivity.
  - apply (onFailed_marks_every_attempt plainEnv (batchJob 0 2 3) boom
             (world1 zeroMac RUNNING) "j1" (job1 zeroMac RUNNING));
      try reflexivity; try (vm_compute; reflexivity).
Defined.

End FailureFacts.

Section MergeFacts.
Import Scheduler VectorPdfWorker SchedulerVocabulary SchedulerScenarios.

Lemma gatherPages_entries n children :
  gatherPages n children = foldl placeEntry (replicate n None) (entriesOf children).
Proof.
  unfold gatherPages, entriesOf. generalize (replicate n (@None string)).
  induction children as [|v children IH]; intros init; [done|].
  simpl. rewrite foldl_app, IH. f_equal. by destruct v.
Qed.

Lemma length_placeEntry slots e : length (placeEntry slots e) = length slots.
Proof.
  unfold placeEntry. destruct (pdfBase64 e), (pageIndex e); try done.
  destruct (_ && _); [apply length_insert|done].
Qed.

Lemma length_foldl_placeEntry es : ∀ slots,
  length (foldl placeEntry slots es) = length slots.
Proof.
  induction es as [|e es IH]; intros slots; simpl; [done|].
  by rewrite IH, length_placeEntry.
Qed.

Lemma placeEntry_lookup slots e i :
  (i < length slots)%nat →
  (∃ b64, writes i e b64 ∧ placeEntry slots e !! i = Some (Some b64))
  ∨ ((∀ b64, ¬ writes i e b64) ∧ placeEntry slots e !! i = slots !! i).
Proof.
  intros Hi. unfold placeEntry, writes.
  destruct (pdfBase64 e) as [b64|] eqn:Hb; [|right; split; [intros ? [_ ?]|]; done].
  destruct (pageIndex e) as [idx|] eqn:Hidx; [|right; split; [intros ? [? _]|]; done].
  destruct (Z.leb_spec 0 idx); simpl;
    [|right; split; [intros ? [[= ->] _]; lia|done]].
  destruct (Z.ltb_spec idx (Z.of_nat (length slots))); simpl;
    [|right; split; [intros ? [[= ->] _]; lia|done]].
  destruct (decide (Z.to_nat idx = i)) as [<-|Hne].
  - left. exists b64. rewrite Z2Nat.id by done.
    split; [done|]. apply list_lookup_insert_eq. lia.
  - right. split; [intros ? [[= ->] _]; lia|].
    by apply list_lookup_insert_ne.
Qed.

(** A slot of the sparse array holds the bytes of some entry for its index,
    or no entry carries bytes for that index and the slot is as it began. *)
Lemma foldl_placeEntry_lookup es : ∀ slots i,
  (i < length slots)%nat →
  (∃ e b64, e ∈ es ∧ writes i e b64
            ∧ foldl placeEntry slots es !! i = Some (Some b64))
  ∨ ((∀ e b64, e ∈ es → ¬ writes i e b64)
     ∧ foldl placeEntry slots es !! i = slots !! i).
Proof.
  induction es as [|e es IH]; intros slots i Hi; simpl.
  - right. split; [|done]. intros e b64 He. by apply elem_of_nil in He.
  - destruct (IH (placeEntry slots e) i) as [(e' & b & He' & Hw & Hl)|[Hno Hl]].
    + by rewrite length_placeEntry.
    + left. exists e', b. split; [by right|done].
    + destruct (placeEntry_lookup slots e i Hi) as [(b & Hw & Hp)|[Hnw Hp]].
      * left. exists e, b. split; [by left|]. split; [done|]. by rewrite Hl.
      * right. split; [|by rewrite Hl].
        intros e' b He'. apply elem_of_cons in He' as [->|He']; [apply Hnw|by apply Hno].
Qed.



End MergeFacts.

Section MergeClaim.
Import Scheduler VectorPdfWorker SchedulerVocabulary SchedulerScenarios.

Lemma or_num_nonzero z d : z ≠ 0%Z → or_num (Some z) d = z.
Proof. intros Hz. unfold or_num. by destruct (Z.eqb_spec z 0). Qed.

Lemma releaseRenderLock_blobs env d j w :
  blobs (releaseRenderLock env d j w).2 = blobs w.
Proof.
  unfold releaseRenderLock.
  destruct (negb (client env)); [done|].
  destruct (negb (truthy_string d) || negb (truthy_string j)); [done|].
  by destruct (eval_throws env).
Qed.

Lemma releaseRenderLock_ok env d j w : (releaseRenderLock env d j w).1 = Ok tt.
Proof.
  unfold releaseRenderLock.
  destruct (negb (client env)); [done|].
  destruct (negb (truthy_string d) || negb (truthy_string j)); [done|].
  by destruct (eval_throws env).
Qed.




End MergeClaim.

Section MergeOrder.
Import Scheduler VectorPdfWorker SchedulerVocabulary SchedulerScenarios.



End MergeOrder.

Section MergeCompletionOrder.
Import Scheduler VectorPdfWorker SchedulerVocabulary SchedulerScenarios.

(** When no two entries carry different bytes for one page index, the
    sparse array does not depend on the order in which the entries come. *)
Lemma foldl_placeEntry_permutation (es es' : list PageEntry) slots :
  (∀ e1 e2 b1 b2 i, e1 ∈ es → e2 ∈ es → writes i e1 b1 → writes i e2 b2 → b1 = b2) →
  es ≡ₚ es' →
  foldl placeEntry slots es = foldl placeEntry slots es'.
Proof.
  intros Huniq Hperm. apply list_eq. intros i.
  destruct (decide (i < length slots)%nat) as [Hi|Hi].
  - destruct (foldl_placeEntry_lookup es slots i Hi)
      as [(e & b & He & Hw & ->)|[Hno ->]];
    destruct (foldl_placeEntry_lookup es' slots i Hi)
      as [(e' & b' & He' & Hw' & ->)|[Hno' ->]]; try done.
    + rewrite <- Hperm in He'. by rewrite (Huniq e e' b b' i He He' Hw Hw').
    + rewrite Hperm in He. by destruct (Hno' e b He).
    + rewrite <- Hperm in He'. by destruct (Hno e' b' He').
  - rewrite !lookup_ge_None_2; [done| |];
      rewrite length_foldl_placeEntry; lia.
Qed.

(** Two lists of children values that hold the same entries, however
    ordered and grouped, give the same merge, as long as no page index has
    two different renderings. *)
Lemma processMerge_order_irrelevant env deps job children children' w :
  (∀ e1 e2 b1 b2 i,
     e1 ∈ entriesOf children → e2 ∈ entriesOf children →
     writes i e1 b1 → writes i e2 b2 → b1 = b2) →
  entriesOf children ≡ₚ entriesOf children' →
  processMerge env deps job children w = processMerge env deps job children' w.
Proof.
  intros Huniq Hperm.
  assert (Hg : ∀ n, gatherPages n children = gatherPages n children').
  { intros n. rewrite !gatherPages_entries.
    by apply foldl_placeEntry_permutation. }
  assert (Hbody : ∀ id doc jobDoc w0,
            mergeBody env deps id doc jobDoc children w0
            = mergeBody env deps id doc jobDoc children' w0).
  { intros id doc jobDoc w0. unfold mergeBody, andThen.
    destruct (updateProgress _ _ _ _ _ w0) as [[j1|e] w1]; [|done].
    by rewrite Hg. }
  unfold processMerge.
  destruct (data_printJobId job) as [id|]; [|reflexivity].
  unfold andThen, findById.
  destruct (jobs w !! id) as [jobDoc|]; [|reflexivity].
  case_bool_decide; [reflexivity|].
  unfold try_catch. by rewrite Hbody.
Qed.

End MergeCompletionOrder.

(** ** Admission *)

Section AdmissionFacts.
Import Scheduler VectorPdfWorker VectorJobRoutes SchedulerVocabulary SchedulerScenarios.

Lemma lockKey_not_memberKey d j : lockKey d ≠ memberKey j.
Proof. unfold lockKey, memberKey. simpl. discriminate. Qed.

Lemma lockKey_inj d d' : lockKey d = lockKey d' → d = d'.
Proof. unfold lockKey. intros H. simpl in H. by injection H. Qed.

Lemma GET_SET_EX_eq now now' k v ttl r :
  (now' < now + ttl)%Z → Redis.GET now' k (Redis.SET_EX now k v ttl r) = Some v.
Proof.
  intros Ht. unfold Redis.GET, Redis.SET_EX, Redis.SET; simpl.
  rewrite lookup_insert_eq; simpl.
  destruct (Z.ltb_spec now' (now + ttl)); [done|lia].
Qed.

Lemma GET_SET_ne now k k' v e r :
  k ≠ k' → Redis.GET now k' (Redis.SET k v e r) = Redis.GET now k' r.
Proof. intros Hne. unfold Redis.GET, Redis.SET; simpl. by rewrite lookup_insert_ne. Qed.

Lemma GET_INCR_ne now k k' r r' :
  k ≠ k' → Redis.INCR now k r = Some r' → Redis.GET now k' r' = Redis.GET now k' r.
Proof.
  intros Hne H. unfold Redis.GET.
  by rewrite (INCRBY_other _ _ _ _ _ _ Hne H).
Qed.

(** On a held lock the acquire script answers busy with the holder and
    writes nothing. *)
Lemma ACQUIRE_busy now k1 k2 k3 jobId ttl maxActive r holder :
  Redis.GET now k1 r = Some holder →
  ACQUIRE_RENDER_LOCK_LUA now k1 k2 k3 jobId ttl maxActive r
  = (Some (0%Z, holder), r).
Proof.
  intros H. unfold ACQUIRE_RENDER_LOCK_LUA, Redis.EXISTS. by rewrite H.
Qed.

(** Every lock the script writes holds the job id it was called with, so the
    locks of the cache hold job ids as long as admission passes job ids. *)
Lemma ACQUIRE_keeps_job_ids now d jobId ttl maxActive r :
  is_job_id jobId →
  (∀ d' h, Redis.GET now (lockKey d') r = Some h → is_job_id h) →
  ∀ d' h,
    Redis.GET now (lockKey d')
      (ACQUIRE_RENDER_LOCK_LUA now (lockKey d) activeKey (memberKey jobId) jobId
         ttl maxActive r).2 = Some h →
    is_job_id h.
Proof.
  intros Hid Hinv d' h. unfold ACQUIRE_RENDER_LOCK_LUA.
  destruct (Redis.EXISTS now (lockKey d) r); [apply Hinv|].
  set (active := Z_of_String _).
  destruct (if (0 <? maxActive)%Z
            then match active with Some a => Some (maxActive <=? a)%Z | None => None end
            else Some false) as [[]|]; [apply Hinv| |apply Hinv].
  assert (Hlock : ∀ r0,
            (∀ h0, Redis.GET now (lockKey d') r0 = Some h0 → is_job_id h0) →
            ∀ h0, Redis.GET now (lockKey d')
                    (Redis.SET_EX now (lockKey d) jobId ttl r0) = Some h0 →
                  is_job_id h0).
  { intros r0 H0 h0. unfold Redis.SET_EX.
    destruct (decide (lockKey d = lockKey d')) as [Heq|Hne].
    - rewrite <- Heq. unfold Redis.GET, Redis.SET; simpl.
      rewrite lookup_insert_eq; simpl.
      case_match; [by intros [= <-]|done].
    - rewrite GET_SET_ne by done. apply H0. }
  destruct (Redis.INCR now activeKey _) as [r2|] eqn:E; simpl.
  - unfold Redis.SET_EX at 1.
    rewrite GET_SET_ne by (apply not_eq_sym, lockKey_not_memberKey).
    rewrite (GET_INCR_ne _ _ _ _ _ (not_eq_sym (lockKey_not_activeKey d')) E).
    apply Hlock, Hinv.
  - apply Hlock, Hinv.
Qed.

(** C6.  An admission for valid metadata, made with the cache up while the
    render lock of its document is held by a job id: the acquire script
    answers busy with that holder and writes nothing, the route answers
    [{ jobId: holder, status: 'PENDING' }] and leaves the job collection, the
    queue and the cache as they were; hence a second admission for the same
    document, while the lock is still held, gets the same job id. *)
Theorem admission_under_held_lock env env2 deps m m2 w holder :
  let d := lockDocumentId m "" in
  validateVectorMetadata deps m = true →
  assertVectorJobEnqueueable deps m = Ok tt →
  validateVectorMetadata deps m2 = true →
  assertVectorJobEnqueueable deps m2 = Ok tt →
  lockDocumentId m2 "" = d →
  truthy_string d = true →
  client env = true → eval_throws env = false →
  client env2 = true → eval_throws env2 = false →
  is_job_id holder →
  Redis.GET (now env) (lockKey d) (redis w) = Some holder →
  Redis.GET (now env2) (lockKey d) (redis w) = Some holder →
  acquire env d (redis w) = (Some (0%Z, holder), redis w)
  ∧ postJobs env deps m w = (OkJson holder PENDING, w)
  ∧ postJobs env2 deps m2 (postJobs env deps m w).2 = (OkJson holder PENDING, w).
Proof.
  intros d Hv Ha Hv2 Ha2 Hd2 Hd Hc He Hc2 He2 [Hh1 Hh2] Hheld Hheld2.
  assert (Hpost : ∀ e mm,
            validateVectorMetadata deps mm = true →
            assertVectorJobEnqueueable deps mm = Ok tt →
            lockDocumentId mm "" = d →
            client e = true → eval_throws e = false →
            Redis.GET (now e) (lockKey d) (redis w) = Some holder →
            postJobs e deps mm w = (OkJson holder PENDING, w)).
  { intros e mm Hvm Ham Hdm Hce Hee Hg. unfold postJobs.
    rewrite Hvm, Ham, Hdm, Hd, Hce. cbn [negb].
    unfold acquire. rewrite Hee, (ACQUIRE_busy _ _ _ _ _ _ _ _ _ Hg).
    cbn [Z.eqb andb]. rewrite Hh2, Hh1. by destruct w. }
  split; [|split].
  - unfold acquire. rewrite He. by apply ACQUIRE_busy.
  - by apply Hpost.
  - rewrite (Hpost env m) by done. by apply Hpost.
Qed.

(** The statement above on the lock that job ["j1"] holds for ["doc1"]. *)
Lemma admission_under_held_lock_witness :
  acquire plainEnv "doc1" lockedRedis = (Some (0%Z, "j1"), lockedRedis)
  ∧ postJobs plainEnv plainDeps meta1 (world1 zeroMac RUNNING)
    = (OkJson "j1" PENDING, world1 zeroMac RUNNING)
  ∧ postJobs plainEnv plainDeps meta1
      (postJobs plainEnv plainDeps meta1 (world1 zeroMac RUNNING)).2
    = (OkJson "j1" PENDING, world1 zeroMac RUNNING).
Proof.
  apply (admission_under_held_lock plainEnv plainEnv plainDeps meta1 meta1
           (world1 zeroMac RUNNING) "j1");
    try reflexivity; try (vm_compute; reflexivity).
  split; reflexivity.
Defined.

End AdmissionFacts.

(** ** The layout engine *)

Section Doubles.
Import Number.
Local Open Scope float_scope.

(** A finite number that is [+0] or above. *)
Definition nonneg_finite (x : float) : Prop :=
  Prim2SF x = S754_zero false ∨ ∃ m e, Prim2SF x = S754_finite false m e.

Lemma SFcompare_finite_refl s m e :
  SFcompare (S754_finite s m e) (S754_finite s m e) = Some Eq.
Proof.
  simpl. rewrite Z.compare_refl, Pos.compare_cont_refl. by destruct s.
Qed.

Lemma nonneg_finite_not_nan x : nonneg_finite x → is_nan x = false.
Proof.
  unfold is_nan. rewrite FloatAxioms.eqb_spec. unfold SFeqb.
  intros [->|(m & e & ->)]; [done|]. by rewrite SFcompare_finite_refl.
Qed.

Lemma finite_nonneg_cases G :
  is_finite G = true → (0 <=? G) = true → G = neg_zero ∨ nonneg_finite G.
Proof.
  unfold is_finite, is_nan, is_infinity, nonneg_finite.
  rewrite !FloatAxioms.eqb_spec, abs_spec, leb_spec.
  change (Prim2SF 0) with (S754_zero false).
  change (Prim2SF infinity) with (S754_infinity false).
  intros Hfin Hle. destruct (Prim2SF G) as [s|s| |s m e] eqn:E.
  - destruct s; [left|by right; left].
    by rewrite <- (SF2Prim_Prim2SF G), E.
  - by destruct s.
  - done.
  - destruct s; [done|]. right. right. eauto.
Qed.

Lemma Math_max_0_nonneg G : nonneg_finite G → Math_max 0 G = G.
Proof.
  intros HG. unfold Math_max.
  rewrite (nonneg_finite_not_nan G HG). change (is_nan 0) with false. cbn [orb].
  destruct HG as [E|(m & e & E)].
  - assert (G = 0) as -> by (by rewrite <- (SF2Prim_Prim2SF G), E). reflexivity.
  - rewrite ltb_spec, E. reflexivity.
Qed.

Lemma SFmul_comm x y : SF64mul x y = SF64mul y x.
Proof.
  unfold SF64mul, SFmul.
  destruct x as [sx|sx| |sx mx ex], y as [sy|sy| |sy my ey];
    try reflexivity; try (by rewrite xorb_comm).
  by rewrite xorb_comm, Pos.mul_comm, Z.add_comm.
Qed.

Lemma mul_comm x y : x * y = y * x.
Proof. apply Prim2SF_inj. rewrite !mul_spec. apply SFmul_comm. Qed.

(** Rounding a mantissa that is not negative never gives [NaN]. *)
Lemma iter_pos_invariant {A} (P : A → Prop) (f : A → A) :
  (∀ a, P a → P (f a)) → ∀ n a, P a → P (SpecFloat.iter_pos f n a).
Proof.
  intros Hf. induction n as [n IH|n IH|]; intros a Ha; simpl; auto.
Qed.

Lemma shr_1_nonneg mrs : (0 ≤ shr_m mrs)%Z → (0 ≤ shr_m (shr_1 mrs))%Z.
Proof. destruct mrs as [[|[p|p|]|p] r s]; simpl; lia. Qed.

Lemma shr_nonneg mrs e n : (0 ≤ shr_m mrs)%Z → (0 ≤ shr_m (shr mrs e n).1)%Z.
Proof.
  intros H. unfold shr. destruct n; [done| |done]. simpl.
  by apply (iter_pos_invariant (λ r, 0 ≤ shr_m r)%Z); [apply shr_1_nonneg|].
Qed.

Lemma shr_fexp_nonneg m e l :
  (0 ≤ m)%Z → (0 ≤ shr_m (shr_fexp prec emax m e l).1)%Z.
Proof.
  intros H. unfold shr_fexp. apply shr_nonneg. by destruct l as [|[]].
Qed.

Lemma round_nearest_even_nonneg m l :
  (0 ≤ m)%Z → (0 ≤ round_nearest_even m l)%Z.
Proof. intros H. destruct l as [|[]]; simpl; [done| |done|lia]. destruct (Z.even m); lia. Qed.

Lemma binary_round_aux_not_nan s m e l :
  (0 ≤ m)%Z → binary_round_aux prec emax s m e l ≠ S754_nan.
Proof.
  intros Hm. unfold binary_round_aux.
  pose proof (shr_fexp_nonneg m e l Hm) as H1.
  destruct (shr_fexp prec emax m e l) as [mrs' e'].
  pose proof (shr_fexp_nonneg _ e' loc_Exact
                (round_nearest_even_nonneg _ (loc_of_shr_record mrs') H1)) as H2.
  destruct (shr_fexp prec emax _ e' loc_Exact) as [mrs'' e''].
  simpl in H2. destruct (shr_m mrs''); [done| |lia].
  by destruct (_ <=? _)%Z.
Qed.

Lemma binary_normalize_not_nan m e sz : binary_normalize prec emax m e sz ≠ S754_nan.
Proof.
  unfold binary_normalize, binary_round. destruct m; [done|..];
    destruct (shl_align _ _ _); by apply binary_round_aux_not_nan.
Qed.

(** A finite number, of either sign. *)
Definition SF_finite (x : spec_float) : Prop :=
  match x with S754_zero _ | S754_finite _ _ _ => True | _ => False end.

Lemma SFmul_not_nan x y : SF_finite x → SF_finite y → SF64mul x y ≠ S754_nan.
Proof.
  destruct x as [sx|sx| |sx mx ex], y as [sy|sy| |sy my ey]; try done.
  intros _ _. by apply binary_round_aux_not_nan.
Qed.

Lemma SFsub_not_nan x y : SF_finite x → y ≠ S754_nan → SF64sub x y ≠ S754_nan.
Proof.
  destruct x as [sx|sx| |sx mx ex], y as [sy|sy| |sy my ey]; try done.
  - intros _ _. by destruct sx, sy.
  - intros _ _. apply binary_normalize_not_nan.
Qed.

Lemma nonneg_finite_SF x : nonneg_finite x → SF_finite (Prim2SF x).
Proof. by intros [->|(m & e & ->)]. Qed.

(** The two tests on a difference agree when it is a number. *)
Lemma ltb_0_leb_0 h : Prim2SF h ≠ S754_nan → (0 <? h) = negb (h <=? 0).
Proof.
  rewrite ltb_spec, leb_spec. change (Prim2SF 0) with (S754_zero false).
  destruct (Prim2SF h) as [s|s| |s m e]; try done; by destruct s.
Qed.

Lemma mul_0_r G : nonneg_finite G → G * 0 = 0.
Proof.
  intros HG. apply Prim2SF_inj. rewrite mul_spec.
  change (Prim2SF 0) with (S754_zero false).
  by destruct HG as [->|(m & e & ->)].
Qed.

End Doubles.

Section SlotGrid.
Import Number VectorLayoutEngine.
Local Open Scope float_scope.

Ltac sixteen S HS :=
  assert (S = 1 ∨ S = 2 ∨ S = 3 ∨ S = 4 ∨ S = 5 ∨ S = 6 ∨ S = 7 ∨ S = 8 ∨ S = 9
          ∨ S = 10 ∨ S = 11 ∨ S = 12 ∨ S = 13 ∨ S = 14 ∨ S = 15 ∨ S = 16)%Z
    as Hcases by lia;
  clear HS; destruct_or! Hcases; subst S.

(** The slot count as the code reads it, for a count from 1 to 16. *)
Lemma slot_counts S :
  (1 ≤ S ≤ 16)%Z →
  Math_max 1 (or_number (of_Z S) 1) = of_Z S
  ∧ Math_max 0 (of_Z S - 1) = of_Z (S - 1)
  ∧ array_length (of_Z S) = Some (Z.to_nat S)
  ∧ nonneg_finite (of_Z (S - 1)).
Proof.
  intros HS. unfold nonneg_finite. sixteen S HS.
  all: split_and!; [vm_compute; reflexivity..|].
  all: first [left; vm_compute; reflexivity
             |right; eexists _, _; vm_compute; reflexivity].
Qed.

(** A spacing of [-0] is a spacing of [0]. *)
Lemma neg_zero_spacing S :
  (1 ≤ S ≤ 16)%Z →
  let usable := A4_HEIGHT - 2 * SAFE_MARGIN in
  let k := of_Z (S - 1) in
  let G' := if usable - k * neg_zero <=? 0 then 0 else neg_zero in
  Math_max 0 neg_zero = 0
  ∧ (usable - k * G') / of_Z S = (usable - 0 * k) / of_Z S
  ∧ (usable - k * G') / of_Z S + G' = (usable - 0 * k) / of_Z S + 0.
Proof.
  intros HS. sixteen S HS. all: vm_compute; split_and!; reflexivity.
Qed.

Lemma sub_mul_not_nan u G k :
  SF_finite (Prim2SF u) → nonneg_finite G → nonneg_finite k →
  Prim2SF (u - k * G) ≠ S754_nan.
Proof.
  intros Hu HG Hk. rewrite sub_spec, mul_spec.
  apply SFsub_not_nan; [done|].
  apply SFmul_not_nan; by apply nonneg_finite_SF.
Qed.

End SlotGrid.

Section Overflow.
Local Open Scope Z_scope.

Lemma digits2_pos_bounds m :
  2 ^ (Zpos (digits2_pos m) - 1) ≤ Zpos m < 2 ^ Zpos (digits2_pos m).
Proof.
  induction m as [m IH|m IH|]; [| |simpl; lia].
  all: cbn [digits2_pos]; rewrite Pos2Z.inj_succ.
  all: replace (Z.succ (Zpos (digits2_pos m)) - 1) with (Z.succ (Zpos (digits2_pos m) - 1))
         by lia.
  all: rewrite !Z.pow_succ_r by lia; lia.
Qed.

Lemma digits2_pos_unique m k :
  2 ^ (k - 1) ≤ Zpos m < 2 ^ k → Zpos (digits2_pos m) = k.
Proof.
  intros [Hlo Hhi]. pose proof (digits2_pos_bounds m) as [Hlo' Hhi'].
  assert (0 < k).
  { destruct (Z.lt_ge_cases 0 k); [done|]. 
    assert (2 ^ k ≤ 1); [|lia].
    destruct (Z.eq_dec k 0) as [->|]; [simpl; lia|].
    rewrite Z.pow_neg_r by lia. lia. }
  set (d := Zpos (digits2_pos m)) in *.
  destruct (Z.lt_trichotomy d k) as [Hlt|[Heq|Hgt]]; [|done|].
  - assert (2 ^ d ≤ 2 ^ (k - 1)) by (apply Z.pow_le_mono_r; lia). lia.
  - assert (2 ^ k ≤ 2 ^ (d - 1)) by (apply Z.pow_le_mono_r; lia). lia.
Qed.

(** One shift to the right halves the mantissa and remembers the bit that
    fell off. *)
Lemma shr_1_spec mrs :
  0 ≤ shr_m mrs →
  shr_m (shr_1 mrs) = shr_m mrs / 2 ∧ shr_r (shr_1 mrs) = Z.odd (shr_m mrs).
Proof.
  destruct mrs as [[|[p|p|]|p] r s]; simpl; intros H; try lia; split; try done.
  - rewrite Pos2Z.inj_xI. apply (Z.div_unique _ _ _ 1); lia.
  - rewrite Pos2Z.inj_xO. apply (Z.div_unique _ _ _ 0); lia.
Qed.

Lemma iter_pos_nat {A} (f : A → A) n a :
  SpecFloat.iter_pos f n a = Nat.iter (Pos.to_nat n) f a.
Proof.
  revert a. induction n as [n IH|n IH|]; intros a; cbn [SpecFloat.iter_pos].
  - rewrite !IH, Pos2Nat.inj_xI.
    replace (S (2 * Pos.to_nat n)) with (Pos.to_nat n + (Pos.to_nat n + 1))%nat by lia.
    by rewrite !Nat.iter_add.
  - rewrite !IH, Pos2Nat.inj_xO.
    replace (2 * Pos.to_nat n)%nat with (Pos.to_nat n + Pos.to_nat n)%nat by lia.
    by rewrite Nat.iter_add.
  - done.
Qed.

Lemma shr_iter_spec k m r s :
  0 ≤ m →
  let mrs := Nat.iter (S k) shr_1 (Build_shr_record m r s) in
  shr_m mrs = m / 2 ^ Z.of_nat (S k)
  ∧ (shr_r mrs = true → 2 ^ Z.of_nat k ≤ m mod 2 ^ Z.of_nat (S k)).
Proof.
  intros Hm. revert r s. induction k as [|k IH]; intros r s.
  - destruct (shr_1_spec (Build_shr_record m r s) Hm) as [H1 H2].
    cbn zeta.
    change (Nat.iter 1 shr_1 (Build_shr_record m r s))
      with (shr_1 (Build_shr_record m r s)).
    rewrite H1, H2. cbn [shr_m]. split; [done|].
    intros Ho. change (2 ^ Z.of_nat 0) with 1. change (2 ^ Z.of_nat 1) with 2.
    apply Z.odd_spec in Ho as [q ->].
    rewrite Z.add_comm, Z.mul_comm, Z.mod_add by lia. done.
  - cbn zeta. rewrite Nat.iter_succ.
    specialize (IH r s). cbn zeta in IH. destruct IH as [IHm IHr].
    set (prev := Nat.iter (S k) shr_1 (Build_shr_record m r s)) in *.
    assert (Hprev : 0 ≤ shr_m prev).
    { rewrite IHm. apply Z.div_pos; [done|]. apply Z.pow_pos_nonneg; lia. }
    destruct (shr_1_spec prev Hprev) as [H1 H2]. rewrite H1, H2, IHm.
    assert (Hp : 0 < 2 ^ Z.of_nat (S k)) by (apply Z.pow_pos_nonneg; lia).
    replace (Z.of_nat (S (S k))) with (Z.of_nat (S k) + 1) by lia.
    rewrite Z.pow_add_r by lia. change (2 ^ 1) with 2.
    split; [by rewrite Z.div_div by lia|].
    intros Ho.
    assert (Hodd : (m `div` 2 ^ Z.of_nat (S k)) mod 2 = 1).
    { apply Z.odd_spec in Ho as [q ->].
      rewrite Z.add_comm, Z.mul_comm, Z.mod_add by lia. done. }
    rewrite Z.rem_mul_r by lia.
    pose proof (Z.mod_pos_bound m (2 ^ Z.of_nat (S k)) Hp). nia.
Qed.

Lemma fexp_normal x : -1074 ≤ x - 53 → fexp prec emax x = x - 53.
Proof. unfold fexp, SpecFloat.emin, prec, emax. lia. Qed.

Lemma round_nearest_even_cases mrs :
  let m := round_nearest_even (shr_m mrs) (loc_of_shr_record mrs) in
  m = shr_m mrs ∨ (m = shr_m mrs + 1 ∧ shr_r mrs = true).
Proof.
  destruct mrs as [m [] []]; simpl; auto. destruct (Z.even m); auto.
Qed.

(** Rounding a mantissa of at least 53 bits whose value lies below the
    threshold of overflow gives a finite number. *)
Lemma binary_round_aux_finite (m : positive) e :
  53 ≤ Zpos (digits2_pos m) → -1074 ≤ e →
  Zpos m * 2 ^ (e + 1074) < (2 ^ 54 - 1) * 2 ^ 2044 →
  ∃ m' e',
    binary_round_aux prec emax false (Zpos m) e loc_Exact = S754_finite false m' e'.
Proof.
  intros Hd He Hv. pose proof (digits2_pos_bounds m) as [Hlo Hhi].
  set (d := Zpos (digits2_pos m)) in *.
  assert (Hde : d + e ≤ 1024).
  { destruct (Z.le_gt_cases (d + e) 1024) as [|Hbig]; [done|exfalso].
    assert (2 ^ (d - 1) * 2 ^ (e + 1074) ≤ Zpos m * 2 ^ (e + 1074))
      by (apply Z.mul_le_mono_nonneg_r; [apply Z.pow_nonneg|]; lia).
    rewrite <- Z.pow_add_r in H by lia.
    assert (2 ^ 2098 ≤ 2 ^ (d - 1 + (e + 1074))) by (apply Z.pow_le_mono_r; lia).
    assert ((2 ^ 54 - 1) * 2 ^ 2044 < 2 ^ 2098) by (vm_compute; reflexivity).
    lia. }
  unfold binary_round_aux, shr_fexp. cbn [Zdigits2]. fold d.
  rewrite fexp_normal by lia. replace (d + e - 53 - e) with (d - 53) by lia.
  destruct (d - 53) as [|p|p] eqn:En; [| |lia].
  - (* the mantissa has 53 bits: nothing is shifted out *)
    cbn [shr shr_record_of_loc loc_of_shr_record round_nearest_even shr_m shr_r shr_s].
    cbn [Zdigits2]. fold d. rewrite fexp_normal by lia.
    replace (d + e - 53 - e) with 0 by lia. cbn [shr shr_m shr_record_of_loc].
    exists m, e. unfold prec, emax.
    destruct (Z.leb_spec e (1024 - 53)); [done|lia].
  - cbn [shr]. rewrite iter_pos_nat.
    destruct (Pos2Nat.is_succ p) as [k Hk]. rewrite Hk.
    destruct (shr_iter_spec k (Zpos m) false false ltac:(lia)) as [Hm1 Hr].
    change (shr_record_of_loc (Zpos m) loc_Exact)
      with (Build_shr_record (Zpos m) false false).
    set (mrs := Nat.iter (S k) shr_1 (Build_shr_record (Zpos m) false false)) in *.
    assert (HSk : Z.of_nat (S k) = Zpos p) by (rewrite <- Hk; apply positive_nat_Z).
    rewrite HSk in Hm1, Hr.
    assert (Hdp : d = 53 + Zpos p) by lia.
    assert (HN : 0 < 2 ^ Zpos p) by (apply Z.pow_pos_nonneg; lia).
    set (N := 2 ^ Zpos p) in *.
    assert (Hhi' : Zpos m < 2 ^ 53 * N).
    { subst N. rewrite <- Z.pow_add_r by lia. by rewrite <- Hdp. }
    assert (Hlo' : 2 ^ 52 * N ≤ Zpos m).
    { subst N. rewrite <- Z.pow_add_r by lia.
      replace (52 + Zpos p) with (d - 1) by lia. done. }
    assert (Hm1lo : 2 ^ 52 ≤ shr_m mrs).
    { rewrite Hm1. apply Z.div_le_lower_bound; lia. }
    assert (Hm1hi : shr_m mrs < 2 ^ 53).
    { rewrite Hm1. apply Z.div_lt_upper_bound; lia. }
    pose proof (round_nearest_even_cases mrs) as Hround. cbn zeta in Hround.
    set (mr := round_nearest_even (shr_m mrs) (loc_of_shr_record mrs)) in *.
    assert (Hmr : 2 ^ 52 ≤ mr ≤ 2 ^ 53) by lia.
    destruct mr as [|q|q] eqn:Eq; [lia| |lia].
    cbn [Zdigits2].
    destruct (Z.eq_dec (Zpos q) (2 ^ 53)) as [Htop|Hbelow].
    + (* the rounding carried into a 54th bit *)
      assert (q = 9007199254740992%positive) as -> by (vm_compute in Htop; congruence).
      change (Zpos (digits2_pos 9007199254740992)) with 54.
      rewrite fexp_normal by lia.
      replace (54 + (e + Zpos p) - 53 - (e + Zpos p)) with 1 by lia.
      cbn. exists 4503599627370496%positive, (e + Zpos p + 1).
      change (emax - prec) with 971.
      destruct (Z.leb_spec (e + Zpos p + 1) 971) as [|Hover]; [done|exfalso].
      destruct Hround as [Hsame|[Hup Hbit]]; [lia|].
      specialize (Hr Hbit). replace (Z.of_nat k) with (Zpos p - 1) in Hr by lia.
      assert (HNhalf : N = 2 * 2 ^ (Zpos p - 1)).
      { subst N. rewrite <- Z.pow_succ_r by lia. f_equal. lia. }
      assert (Hm : Zpos m = shr_m mrs * N + Zpos m mod N).
      { rewrite Hm1. rewrite Z.mul_comm. apply Z.div_mod. lia. }
      assert (Hbig : (2 ^ 54 - 1) * 2 ^ (Zpos p - 1) ≤ Zpos m).
      { assert (shr_m mrs = 2 ^ 53 - 1) by lia. nia. }
      assert (Hexp : e + 1074 = 2044 - (Zpos p - 1)) by lia.
      assert (Hfin : (2 ^ 54 - 1) * 2 ^ (Zpos p - 1) * 2 ^ (e + 1074)
                     ≤ Zpos m * 2 ^ (e + 1074))
        by (apply Z.mul_le_mono_nonneg_r; [apply Z.pow_nonneg|]; lia).
      rewrite <- Z.mul_assoc, <- Z.pow_add_r in Hfin by lia.
      replace (Zpos p - 1 + (e + 1074)) with 2044 in Hfin by lia. lia.
    + assert (Hq : Zpos (digits2_pos q) = 53)
        by (apply digits2_pos_unique; change (53 - 1) with 52; lia).
      rewrite Hq. rewrite fexp_normal by lia.
      replace (53 + (e + Zpos p) - 53 - (e + Zpos p)) with 0 by lia.
      cbn [shr shr_m shr_record_of_loc fst snd].
      exists q, (e + Zpos p). unfold prec, emax.
      destruct (Z.leb_spec (e + Zpos p) (1024 - 53)); [done|lia].
Qed.

Lemma Pos_iter_xO m d : Zpos (Pos.iter xO m d) = Zpos m * 2 ^ Zpos d.
Proof.
  induction d as [|d IH] using Pos.peano_ind; [simpl; lia|].
  rewrite Pos.iter_succ, Pos2Z.inj_xO, IH, Pos2Z.inj_succ, Z.pow_succ_r by lia. lia.
Qed.

(** Aligning a mantissa to a lower exponent keeps the value. *)
Lemma shl_align_spec mx ex ex' :
  let '(mz, ez) := shl_align mx ex ex' in
  ez = Z.min ex ex' ∧ Zpos mz = Zpos mx * 2 ^ (ex - ez).
Proof.
  unfold shl_align. destruct (ex' - ex) as [|d|d] eqn:E.
  - split; [lia|]. rewrite Z.sub_diag. simpl. lia.
  - split; [lia|]. rewrite Z.sub_diag. simpl. lia.
  - split; [lia|]. rewrite Pos_iter_xO. do 2 f_equal. lia.
Qed.

Lemma digits2_pos_ge m k : 2 ^ (k - 1) ≤ Zpos m → k ≤ Zpos (digits2_pos m).
Proof.
  intros Hk. pose proof (digits2_pos_bounds m) as [_ Hhi].
  destruct (Z.le_gt_cases k (Zpos (digits2_pos m))); [done|].
  assert (2 ^ Zpos (digits2_pos m) ≤ 2 ^ (k - 1)) by (apply Z.pow_le_mono_r; lia).
  lia.
Qed.

Lemma binary_round_finite (m : positive) e :
  -1074 ≤ e → -1074 ≤ Zpos (digits2_pos m) + e - 53 →
  Zpos m * 2 ^ (e + 1074) < (2 ^ 54 - 1) * 2 ^ 2044 →
  ∃ m' e', binary_round prec emax false m e = S754_finite false m' e'.
Proof.
  intros He Hn Hv. unfold binary_round. rewrite fexp_normal by done.
  pose proof (shl_align_spec m e (Zpos (digits2_pos m) + e - 53)) as Ha.
  pose proof (digits2_pos_bounds m) as [Hlo Hhi].
  set (d := Zpos (digits2_pos m)) in *.
  destruct (shl_align m e (d + e - 53)) as [mz ez]. destruct Ha as [Hez Hmz].
  apply binary_round_aux_finite.
  - apply digits2_pos_ge. rewrite Hmz.
    destruct (Z.le_gt_cases e (d + e - 53)).
    + rewrite Z.min_l in Hez by done. subst ez. rewrite Z.sub_diag, Z.mul_1_r.
      etrans; [|exact Hlo]. apply Z.pow_le_mono_r; lia.
    + rewrite Z.min_r in Hez by lia. subst ez.
      replace (53 - 1) with (d - 1 + (e - (d + e - 53))) by lia.
      rewrite Z.pow_add_r by lia.
      apply Z.mul_le_mono_nonneg_r; [apply Z.pow_nonneg; lia|done].
  - lia.
  - rewrite Hmz, <- Z.mul_assoc, <- Z.pow_add_r by lia.
    by replace (e - ez + (ez + 1074)) with (e + 1074) by lia.
Qed.

Lemma bounded_spec m e :
  bounded prec emax m e = true →
  -1074 ≤ e ≤ 971 ∧ Zpos (digits2_pos m) ≤ 53.
Proof.
  unfold bounded, canonical_mantissa, fexp, SpecFloat.emin, prec, emax.
  intros [H1 H2]%andb_true_iff. apply Z.eqb_eq in H1. apply Z.leb_le in H2. lia.
Qed.

(** Adding a number below [2^970] to a finite number does not overflow. *)
Lemma SFadd_finite mx ex my ey :
  bounded prec emax mx ex = true → bounded prec emax my ey = true →
  -1021 ≤ Zpos (digits2_pos mx) + ex ≤ 970 →
  ∃ m e, SF64add (S754_finite false mx ex) (S754_finite false my ey)
         = S754_finite false m e.
Proof.
  intros [Hex Hdx]%bounded_spec [Hey Hdy]%bounded_spec Hx.
  unfold SF64add, SFadd.
  pose proof (shl_align_spec mx ex (Z.min ex ey)) as Hax.
  pose proof (shl_align_spec my ey (Z.min ex ey)) as Hay.
  destruct (shl_align mx ex (Z.min ex ey)) as [mx' ex'].
  destruct (shl_align my ey (Z.min ex ey)) as [my' ey'].
  destruct Hax as [Hex' Hmx'], Hay as [Hey' Hmy'].
  rewrite Z.min_r in Hex' by lia. rewrite Z.min_r in Hey' by lia. subst ex' ey'.
  cbn [fst cond_Zopp Z.add binary_normalize].
  set (ez := Z.min ex ey) in *.
  pose proof (digits2_pos_bounds mx) as [Hxlo Hxhi].
  pose proof (digits2_pos_bounds my) as [Hylo Hyhi].
  set (dx := Zpos (digits2_pos mx)) in *. set (dy := Zpos (digits2_pos my)) in *.
  assert (Hsum : Zpos (mx' + my') = Zpos mx * 2 ^ (ex - ez) + Zpos my * 2 ^ (ey - ez))
    by (rewrite Pos2Z.inj_add; lia).
  assert (Hpx : 0 < 2 ^ (ex - ez)) by (apply Z.pow_pos_nonneg; lia).
  assert (Hpy : 0 < 2 ^ (ey - ez)) by (apply Z.pow_pos_nonneg; lia).
  apply binary_round_finite.
  - lia.
  - assert (dx + (ex - ez) ≤ Zpos (digits2_pos (mx' + my'))); [|lia].
    apply digits2_pos_ge. rewrite Hsum.
    replace (dx + (ex - ez) - 1) with (dx - 1 + (ex - ez)) by lia.
    rewrite Z.pow_add_r by lia. nia.
  - rewrite Hsum, Z.mul_add_distr_r, <- !Z.mul_assoc, <- !Z.pow_add_r by lia.
    replace (ex - ez + (ez + 1074)) with (ex + 1074) by lia.
    replace (ey - ez + (ez + 1074)) with (ey + 1074) by lia.
    assert (Zpos mx * 2 ^ (ex + 1074) < 2 ^ 2044).
    { assert (Zpos mx * 2 ^ (ex + 1074) < 2 ^ dx * 2 ^ (ex + 1074))
        by (apply Z.mul_lt_mono_pos_r; [apply Z.pow_pos_nonneg; lia|done]).
      rewrite <- Z.pow_add_r in H by lia.
      assert (2 ^ (dx + (ex + 1074)) ≤ 2 ^ 2044) by (apply Z.pow_le_mono_r; lia).
      lia. }
    assert (Zpos my * 2 ^ (ey + 1074) ≤ (2 ^ 53 - 1) * 2 ^ 2045).
    { assert (2 ^ dy ≤ 2 ^ 53) by (apply Z.pow_le_mono_r; lia).
      assert (0 < 2 ^ (ey + 1074) ≤ 2 ^ 2045)
        by (split; [apply Z.pow_pos_nonneg; lia|apply Z.pow_le_mono_r; lia]).
      apply Z.mul_le_mono_nonneg; lia. }
    assert ((2 ^ 54 - 1) * 2 ^ 2044 = 2 ^ 2044 + (2 ^ 53 - 1) * 2 ^ 2045)
      by (vm_compute; reflexivity).
    lia.
Qed.

End Overflow.

Section SlotGridClaim.
Import Number VectorLayoutEngine.
Local Open Scope float_scope.

Ltac sixteen S HS :=
  assert (S = 1 ∨ S = 2 ∨ S = 3 ∨ S = 4 ∨ S = 5 ∨ S = 6 ∨ S = 7 ∨ S = 8 ∨ S = 9
          ∨ S = 10 ∨ S = 11 ∨ S = 12 ∨ S = 13 ∨ S = 14 ∨ S = 15 ∨ S = 16)%Z
    as Hcases by lia;
  clear HS; destruct_or! Hcases; subst S.

(** Adding a spacing to the usable height stays finite, so that its product
    with the index [0] is [0]. *)
Lemma zero_mul_usable_add G :
  nonneg_finite G → 0 * (A4_HEIGHT - 2 * SAFE_MARGIN + G) = 0.
Proof.
  intros HG. apply Prim2SF_inj. rewrite mul_spec, add_spec.
  change (Prim2SF 0) with (S754_zero false).
  change (Prim2SF (A4_HEIGHT - 2 * SAFE_MARGIN))
    with (S754_finite false 6906604280107499 (-43)).
  destruct HG as [->|(m & e & E)]; [done|].
  pose proof (Prim2SF_valid G) as Hv. rewrite E in *. cbn [SpecFloat.valid_binary] in Hv.
  destruct (SFadd_finite 6906604280107499 (-43) m e) as (m' & e' & ->);
    [reflexivity|done|vm_compute; split; discriminate|done].
Qed.

(** C8.  For [S = repeatPerPage] from 1 to 16 and a spacing [G ≥ 0], in the
    arithmetic of the code (IEEE doubles, every operation rounded):
    [buildSlotLayoutPlan] returns exactly [S] slots; with
    [usable = A4H − 2·SAFE_MARGIN], [G′ = 0] when [usable − (S−1)·G ≤ 0] and
    [G′ = G] otherwise, and [slotH = (usable − (S−1)·G′)/S], slot [i] has
    origin [(SAFE_MARGIN, SAFE_MARGIN + i·(slotH + G′))], width
    [A4W − 2·SAFE_MARGIN] and height [slotH]; for [S = 1] the one slot has
    the whole usable area. *)
Theorem buildSlotLayoutPlan_grid (S : Z) (G : float) :
  (1 ≤ S ≤ 16)%Z → is_finite G = true → (0 <=? G) = true →
  let usable := A4_HEIGHT - 2 * SAFE_MARGIN in
  let G' := if usable - of_Z (S - 1) * G <=? 0 then 0 else G in
  let slotH := (usable - of_Z (S - 1) * G') / of_Z S in
  ∃ plan,
    buildSlotLayoutPlan (of_Z S) (Some G) = Ok plan
    ∧ length plan = Z.to_nat S
    ∧ (∀ i : nat, (i < Z.to_nat S)%nat →
         ∃ slot, plan !! i = Some slot
                 ∧ index slot = i
                 ∧ x slot = SAFE_MARGIN
                 ∧ y slot = SAFE_MARGIN + of_nat i * (slotH + G')
                 ∧ width slot = A4_WIDTH - 2 * SAFE_MARGIN
                 ∧ height slot = slotH)
    ∧ (S = 1%Z →
       plan = [mkSlot 0 SAFE_MARGIN SAFE_MARGIN (A4_WIDTH - 2 * SAFE_MARGIN) usable]).
Proof.
  intros HS Hfin Hle usable G' slotH.
  destruct (slot_counts S HS) as (Hmax1 & Hmax0 & Hlen & Hk).
  set (k := of_Z (S - 1)) in *.
  (* what the code computes, in the words of the statement *)
  assert (Hcode : buildSlotLayoutPlan (of_Z S) (Some G)
    = Ok ((λ i : nat, mkSlot i SAFE_MARGIN (SAFE_MARGIN + of_nat i * (slotH + G'))
                         (A4_WIDTH - 2 * SAFE_MARGIN) slotH)
            <$> seq 0 (Z.to_nat S))).
  { unfold buildSlotLayoutPlan. rewrite Hmax1, Hmax0, Hlen. fold k usable.
    cbn [default from_option]. unfold id. rewrite Hfin.
    destruct (finite_nonneg_cases G Hfin Hle) as [->|HG].
    - destruct (neg_zero_spacing S HS) as (Hgap & HslotH & Hsum).
      fold usable k in HslotH, Hsum. rewrite Hgap. cbv zeta.
      assert (Hdrop : (if 0 <? usable - 0 * k then 0 else 0) = 0)
        by (by destruct (0 <? usable - 0 * k)).
      rewrite Hdrop. subst slotH G'. rewrite Hsum, HslotH. reflexivity.
    - rewrite (Math_max_0_nonneg G HG). cbv zeta. rewrite (mul_comm G k).
      assert (Hnn : Prim2SF (usable - k * G) ≠ S754_nan)
        by (apply sub_mul_not_nan; [by vm_compute|exact HG|exact Hk]).
      rewrite (ltb_0_leb_0 (usable - k * G) Hnn).
      fold G'. assert (HG' : (if negb (usable - k * G <=? 0) then G else 0) = G')
        by (subst G'; by destruct (usable - k * G <=? 0)).
      rewrite HG'. rewrite (mul_comm G' k). reflexivity. }
  eexists. split; [exact Hcode|]. split; [by rewrite length_fmap, length_seq|].
  split.
  - intros i Hi. eexists. split.
    + rewrite list_lookup_fmap, lookup_seq_lt by done. reflexivity.
    + done.
  - intros ->. cbn [Z.to_nat Pos.to_nat Pos.iter_op seq fmap list_fmap].
    subst slotH G' k. change (of_Z (1 - 1)) with 0. change (of_Z 1) with 1.
    change (of_nat 0) with 0.
    destruct (finite_nonneg_cases G Hfin Hle) as [->|HG]; [by vm_compute|].
    rewrite (mul_comm 0 G), (mul_0_r G HG).
    change (usable - 0) with usable. change (usable <=? 0) with false. cbv iota.
    rewrite (mul_comm 0 G), (mul_0_r G HG). change (usable - 0) with usable.
    change (usable / 1) with usable.
    pose proof (zero_mul_usable_add G HG) as Hzero. fold usable in Hzero.
    change (seq 0 (Z.to_nat 1)) with [0%nat]. cbn [fmap list_fmap].
    change (of_nat 0) with 0. rewrite Hzero. reflexivity.
Qed.

End SlotGridClaim.

Section SeriesFacts.
Import Number VectorLayoutEngine LayoutVocabulary LayoutScenarios.
Local Open Scope float_scope.






Lemma is_finite_not_nan v : is_finite v = true → Prim2SF v ≠ S754_nan.
Proof.
  unfold is_finite, is_nan. rewrite FloatAxioms.eqb_spec. intros H E.
  by rewrite E in H.
Qed.









Lemma slotsOf_cons cfg maxSlots i placement rest :
  slotsOf cfg maxSlots i (placement :: rest)
  = if of_nat i <? maxSlots
    then match slotOf cfg i with
         | Some _ => [(cfg, i, placement)]
         | None => []
         end ++ slotsOf cfg maxSlots (S i) rest
    else [].
Proof. unfold slotsOf. cbn [visited]. by destruct (_ <? _). Qed.


End SeriesFacts.

Section SeriesClaim.
Import Number VectorLayoutEngine LayoutVocabulary LayoutScenarios.
Local Open Scope float_scope.

Lemma ltb_irrefl a : (a <? a) = false.
Proof.
  rewrite ltb_spec. unfold SFltb.
  destruct (Prim2SF a) as [s|s| |s m e]; try done; [by destruct s|].
  by rewrite SFcompare_finite_refl.
Qed.

Lemma ltb_nan a : (a <? nan) = false.
Proof.
  rewrite ltb_spec. change (Prim2SF nan) with S754_nan.
  by destruct (Prim2SF a).
Qed.

(** The slot loop stops by its test: [maxSlots] is at most the number of
    placements. *)
Lemma maxSlotsOf_length R placements :
  (of_nat (length placements) <? maxSlotsOf R placements) = false.
Proof.
  unfold maxSlotsOf, Math_min.
  set (a := of_nat (length placements)). set (b := or_number R a).
  destruct (is_nan a || is_nan b); [apply ltb_nan|].
  destruct (a <? b) eqn:Hab; [apply ltb_irrefl|].
  destruct (b <? a); [done|].
  destruct (get_sign a); [apply ltb_irrefl|done].
Qed.




End SeriesClaim.

Section EndToEnd.
Import Number VectorLayoutEngine LayoutVocabulary LayoutScenarios.
Local Open Scope float_scope.

(** Scenario 1 of the specification, the series part: page 1 carries "A001"
    and page 2 "A002". *)
Example drawSeriesNumbers_scenario :
  text <$> ops (drawSeriesNumbers plainLib plainEngine [seriesA None] 0 1
                  [placement1] blankPage).2 = [lit "A001"]
  ∧ text <$> ops (drawSeriesNumbers plainLib plainEngine [seriesA None] 1 1
                    [placement1] blankPage).2 = [lit "A002"].
Proof. vm_compute. split; reflexivity. Qed.

(** No padding when [padLength] is absent or 0. *)
Lemma zeroPad_absent digits :
  zeroPad digits None = digits ∧ zeroPad digits (Some 0) = digits.
Proof.
  unfold zeroPad.
  change (ToLength (or_missing None 0)) with 0%Z.
  change (ToLength (or_missing (Some 0) 0)) with 0%Z.
  by replace (Z.to_nat (0 - Z.of_nat (length digits))) with 0%nat by lia.
Qed.

(** With a negative start the zeros go in front of the sign, as [padStart]
    puts them. *)
Example zeroPad_negative : zeroPad (decimal (-5)) (Some 4) = lit "00-5".
Proof. vm_compute. reflexivity. Qed.

(** A placement without an object box makes the call throw, and a pad
    length beyond the longest string does. *)
Example drawSeriesNumbers_throws :
  (drawSeriesNumbers plainLib plainEngine [seriesA None] 0 1
     [mkPlacement None (Some 1) None None None None] blankPage).1
  = Throw (Error "Invalid objectBBoxPt for series placement")
  ∧ (drawSeriesNumbers plainLib plainEngine
       [mkSeries None (Some 1e10) 1 1 None 12 None [mkSeriesSlot 0 0] None None]
       0 1 [placement1] blankPage).1
    = Throw (RangeError "Invalid string length").
Proof. vm_compute. split; reflexivity. Qed.

#[warnings="-inexact-float"]
Example parseColor_examples :
  parseColor plainLib (lit "rgb(255, 0,10)") = Ok (mkColor 1 0 (10 / 255))
  ∧ is_ok (parseColor plainLib (lit "rgb(256,0,0)")) = false
  ∧ parseColor plainLib (lit "red") = Ok black
  ∧ parseColor plainLib (lit "#fff") = Ok (mkColor 1 1 1).
Proof. vm_compute. repeat split; reflexivity. Qed.

(** The spacing at which the usable height is used up in doubles: for two
    slots and a spacing of 785.1899999999999 the difference rounds to 0, and
    the engine drops the spacing. *)
#[warnings="-inexact-float"]
Example buildSlotLayoutPlan_threshold :
  (A4_HEIGHT - 2 * SAFE_MARGIN - of_Z 1 * 785.1899999999999 <=? 0) = true
  ∧ buildSlotLayoutPlan 2 (Some 785.1899999999999)
    = Ok [mkSlot 0 SAFE_MARGIN SAFE_MARGIN (A4_WIDTH - 2 * SAFE_MARGIN)
                 ((A4_HEIGHT - 2 * SAFE_MARGIN) / 2);
          mkSlot 1 SAFE_MARGIN (SAFE_MARGIN + (A4_HEIGHT - 2 * SAFE_MARGIN) / 2)
                 (A4_WIDTH - 2 * SAFE_MARGIN) ((A4_HEIGHT - 2 * SAFE_MARGIN) / 2)].
Proof. vm_compute. split; reflexivity. Qed.

End EndToEnd.

Section GridWitness.
Import Number VectorLayoutEngine.
Local Open Scope float_scope.

(** The statement above for four slots with 10 pt between them. *)
Lemma buildSlotLayoutPlan_grid_witness :
  ∃ plan,
    buildSlotLayoutPlan 4 (Some 10) = Ok plan
    ∧ length plan = 4%nat
    ∧ ∃ slot, plan !! 2%nat = Some slot
              ∧ x slot = SAFE_MARGIN
              ∧ y slot = SAFE_MARGIN
                         + 2 * ((A4_HEIGHT - 2 * SAFE_MARGIN - 3 * 10) / 4 + 10)
              ∧ height slot = (A4_HEIGHT - 2 * SAFE_MARGIN - 3 * 10) / 4.
Proof.
  destruct (buildSlotLayoutPlan_grid 4 10) as (plan & Hrun & Hlen & Hslots & _);
    [lia | reflexivity | reflexivity |].
  exists plan. split; [exact Hrun|]. split; [exact Hlen|].
  destruct (Hslots 2%nat) as (slot & Hl & _ & Hx & Hy & _ & Hh); [vm_compute; lia|].
  exists slot. split; [exact Hl|]. split; [exact Hx|]. split; [exact Hy|exact Hh].
Defined.

End GridWitness.

(** ** The helpers on concrete values *)

Section Checks.
Import Scheduler VectorPdfWorker VectorJobRoutes SchedulerScenarios.

Example trim_example : trim "  ab c  " = "ab c".
Proof. reflexivity. Qed.

(** A no-break space (U+00A0, bytes C2 A0) and a line separator (U+2028,
    bytes E2 80 A8) are white space to [trim]. *)
Example trim_unicode :
  let nbsp := String (ascii_of_nat 194) (String (ascii_of_nat 160) EmptyString) in
  let ls := String (ascii_of_nat 226) (String (ascii_of_nat 128)
              (String (ascii_of_nat 168) EmptyString)) in
  trim (nbsp +:+ " r-17" +:+ ls) = "r-17" ∧ trim (nbsp +:+ ls) = "".
Proof. vm_compute. split; reflexivity. Qed.

Example Z_of_String_example :
  Z_of_String "-42" = Some (-42)%Z ∧ Z_of_String "4x" = None.
Proof. split; reflexivity. Qed.

(** 120 pages in batches of 50: three children, the last one shorter. *)
Example enqueueVectorJobFlow_batches :
  flow_children <$> flows (enqueueVectorJobFlow plainEnv "j1" 120
                             (world1 zeroMac PENDING)).2
  = [[(0, 50); (50, 100); (100, 120)]%Z].
Proof. vm_compute. reflexivity. Qed.

(** A first admission on an empty cache takes the lock, counts the job and
    creates it; the job is enqueued as one batch of two pages. *)
Example postJobs_acquires :
  let out := postJobs plainEnv plainDeps meta1
               (mkWorld ∅ Redis.empty ∅ []) in
  out.1 = Created "65f000000000000000000002" PENDING
  ∧ Redis.GET 0 (lockKey "doc1") (redis out.2) = Some "65f000000000000000000002"
  ∧ Redis.GET 0 activeKey (redis out.2) = Some "1"
  ∧ flow_children <$> flows out.2 = [[(0, 2)]%Z].
Proof. vm_compute. repeat split; reflexivity. Qed.

End Checks.

Section Numerals.

Lemma digit_of_pretty_N_char d :
  (d < 10)%N → digit_of (pretty_N_char d) = Some (Z.of_N d).
Proof.
  intros H.
  assert (d = 0 ∨ d = 1 ∨ d = 2 ∨ d = 3 ∨ d = 4 ∨ d = 5 ∨ d = 6 ∨ d = 7
          ∨ d = 8 ∨ d = 9)%N as Hd by lia.
  repeat (destruct Hd as [->|Hd]; [reflexivity|]). by subst.
Qed.

Lemma digits_go_pretty_N_go x : ∀ s,
  digits_go 0 (pretty_N_go x s) = digits_go (Z.of_N x) s.
Proof.
  induction (N.lt_wf_0 x) as [x _ IH]; intros s.
  destruct (decide (x = 0)%N) as [->|Hx]; [done|].
  rewrite pretty_N_go_step by lia.
  rewrite IH by (apply N.div_lt; lia). simpl.
  rewrite digit_of_pretty_N_char by (apply N.mod_lt; lia).
  f_equal. rewrite (N.div_mod x 10) at 3 by lia. lia.
Qed.

Lemma Z_of_String_digits s n :
  digits_go 0 s = Some n → n ≠ 0%Z → Z_of_String s = Some n.
Proof.
  destruct s as [|c r]; simpl; [by intros [= <-]|].
  intros H Hn.
  destruct (decide (c = "-"%char)) as [->|Hc]; [done|].
  unfold Z_of_String.
  destruct c as [[] [] [] [] [] [] [] []]; try done.
Qed.

Lemma Z_of_String_String_of_Z n : Z_of_String (String_of_Z n) = Some n.
Proof.
  destruct n as [|p|p]; [done| |].
  - apply Z_of_String_digits; [|done].
    unfold String_of_Z, pretty, pretty_Z, pretty, pretty_positive, pretty, pretty_N.
    rewrite decide_False by done. by rewrite digits_go_pretty_N_go.
  - unfold String_of_Z, pretty, pretty_Z, pretty, pretty_positive, pretty, pretty_N.
    rewrite decide_False by done.
    pose proof (digits_go_pretty_N_go (N.pos p) "") as H. simpl in H.
    destruct (pretty_N_go (N.pos p) "") as [|c r] eqn:E; [done|].
    change ("-" +:+ String c r)%string with (String "-" (String c r)).
    unfold Z_of_String. by rewrite H.
Qed.

End Numerals.

Section LockScripts.
Import Scheduler VectorPdfWorker VectorJobRoutes SchedulerVocabulary SchedulerScenarios LockVocabulary.

Lemma length_append (s t : string) :
  String.length (s +:+ t) = (String.length s + String.length t)%nat.
Proof. induction s as [|a s IH]; [done|]. simpl. by rewrite IH. Qed.

Lemma memberKey_not_activeKey j : memberKey j ≠ activeKey.
Proof.
  unfold memberKey, activeKey. intros H.
  apply (f_equal String.length) in H. rewrite length_append in H. simpl in H. lia.
Qed.

Lemma GET_DEL_eq now k r : Redis.GET now k (Redis.DEL k r) = None.
Proof. unfold Redis.GET, Redis.DEL; simpl. by rewrite lookup_delete_eq. Qed.

Lemma GET_DEL_ne now k k' r :
  k ≠ k' → Redis.GET now k' (Redis.DEL k r) = Redis.GET now k' r.
Proof. intros Hne. unfold Redis.GET, Redis.DEL; simpl. by rewrite lookup_delete_ne. Qed.

Lemma GET_INCRBY_ne now now' k k' d r r' :
  k ≠ k' → Redis.INCRBY now k d r = Some r' →
  Redis.GET now' k' r' = Redis.GET now' k' r.
Proof.
  intros Hne H. unfold Redis.GET. by rewrite (INCRBY_other _ _ _ _ _ _ Hne H).
Qed.

Lemma GET_SET_EX_ne now now' k k' v ttl r :
  k ≠ k' → Redis.GET now' k' (Redis.SET_EX now k v ttl r) = Redis.GET now' k' r.
Proof. apply GET_SET_ne. Qed.

(** [INCRBY] on a counter that reads as the integer [a]. *)
Lemma INCRBY_counter now k d r a :
  Z_of_String (default "0" (Redis.GET now k r)) = Some a →
  ∃ r', Redis.INCRBY now k d r = Some r'
        ∧ Redis.GET now k r' = Some (String_of_Z (a + d)).
Proof.
  intros Ha. unfold Redis.INCRBY.
  destruct (Redis.GET now k r) as [v|] eqn:Hv; simpl in Ha.
  - rewrite Ha. eexists; split; [done|].
    unfold Redis.GET, Redis.SET, Redis.ttl_of in *; simpl.
    rewrite lookup_insert_eq.
    destruct (Redis.strs r !! k) as [[v' e]|]; [|done].
    destruct (Redis.live now e) eqn:Hl; [|done]. by rewrite Hl.
  - injection Ha as <-. eexists; split; [done|].
    unfold Redis.GET, Redis.SET; simpl. by rewrite lookup_insert_eq.
Qed.

(** X1.  [ACQUIRE_RENDER_LOCK_LUA] on a free lock, below the cap (or with
    the cap disabled): the reply is [{1, jobId}], the lock is held by the
    job, the membership key is set, the counter went up by one, and the lock
    is gone once its TTL has passed. *)
Theorem ACQUIRE_takes_free_lock now d jobId ttl maxActive r a :
  Redis.EXISTS now (lockKey d) r = false →
  activeCount now r = Some a →
  (maxActive ≤ 0 ∨ a < maxActive)%Z →
  (0 < ttl)%Z →
  let out := ACQUIRE_RENDER_LOCK_LUA now (lockKey d) activeKey (memberKey jobId)
               jobId ttl maxActive r in
  out.1 = Some (1%Z, jobId)
  ∧ lockState now d jobId out.2 = (Some jobId, true, Some (a + 1)%Z)
  ∧ (∀ t, (now + ttl ≤ t)%Z → Redis.EXISTS t (lockKey d) out.2 = false).
Proof.
  intros Hfree Ha Hcap Httl. unfold activeCount in Ha.
  unfold ACQUIRE_RENDER_LOCK_LUA. rewrite Hfree, Ha.
  assert ((if (0 <? maxActive)%Z then Some (maxActive <=? a)%Z else Some false)
          = Some false) as ->.
  { destruct (Z.ltb_spec 0 maxActive); [|done].
    destruct (Z.leb_spec maxActive a); [lia|done]. }
  set (r1 := Redis.SET_EX now (lockKey d) jobId ttl r).
  assert (Ha1 : Z_of_String (default "0" (Redis.GET now activeKey r1)) = Some a).
  { subst r1. unfold Redis.SET_EX. by rewrite GET_SET_ne by apply lockKey_not_activeKey. }
  destruct (INCRBY_counter now activeKey 1 r1 a Ha1) as (r2 & Hincr & Hget).
  unfold Redis.INCR. rewrite Hincr. cbn [fst snd].
  split; [done|]. split.
  - unfold lockState, activeCount, Redis.EXISTS.
    rewrite (GET_SET_EX_eq now now (memberKey jobId)) by lia.
    rewrite (GET_SET_EX_ne _ _ (memberKey jobId) (lockKey d))
      by apply not_eq_sym, lockKey_not_memberKey.
    rewrite (GET_SET_EX_ne _ _ (memberKey jobId) activeKey)
      by apply memberKey_not_activeKey.
    rewrite (GET_INCRBY_ne _ _ _ _ _ _ _ (not_eq_sym (lockKey_not_activeKey d)) Hincr).
    subst r1. rewrite GET_SET_EX_eq by lia. rewrite Hget. simpl.
    by rewrite Z_of_String_String_of_Z.
  - intros t Ht. unfold Redis.EXISTS.
    rewrite (GET_SET_EX_ne _ _ (memberKey jobId) (lockKey d))
      by apply not_eq_sym, lockKey_not_memberKey.
    rewrite (GET_INCRBY_ne _ _ _ _ _ _ _ (not_eq_sym (lockKey_not_activeKey d)) Hincr).
    subst r1. unfold Redis.GET, Redis.SET_EX, Redis.SET; simpl.
    rewrite lookup_insert_eq. simpl.
    destruct (Z.ltb_spec t (now + ttl)); [lia|done].
Qed.

Lemma ACQUIRE_throttled now k1 k2 k3 jobId ttl maxActive r a :
  Redis.EXISTS now k1 r = false →
  Z_of_String (default "0" (Redis.GET now k2 r)) = Some a →
  (0 < maxActive ≤ a)%Z →
  ACQUIRE_RENDER_LOCK_LUA now k1 k2 k3 jobId ttl maxActive r
  = (Some ((-1)%Z, String_of_Z a), r).
Proof.
  intros Hfree Ha Hcap. unfold ACQUIRE_RENDER_LOCK_LUA. rewrite Hfree, Ha.
  destruct (Z.ltb_spec 0 maxActive); [|lia].
  by destruct (Z.leb_spec maxActive a); [|lia].
Qed.

(** What the release script does to the three keys of a job. *)
Lemma RELEASE_lockState now d j r a :
  activeCount now r = Some a →
  lockState now d j
    (RELEASE_RENDER_LOCK_LUA now (lockKey d) activeKey (memberKey j) j r)
  = (match Redis.GET now (lockKey d) r with
     | Some cur => if String.eqb cur j then None else Some cur
     | None => None
     end,
     false,
     Some (if Redis.EXISTS now (memberKey j) r && (0 <? a)%Z then a - 1 else a)%Z).
Proof.
  intros Ha. unfold activeCount in Ha. unfold RELEASE_RENDER_LOCK_LUA.
  set (r1 := match Redis.GET now (lockKey d) r with
             | Some cur => if String.eqb cur j then Redis.DEL (lockKey d) r else r
             | None => r
             end).
  assert (H1 : Redis.GET now (lockKey d) r1
               = match Redis.GET now (lockKey d) r with
                 | Some cur => if String.eqb cur j then None else Some cur
                 | None => None
                 end).
  { subst r1. destruct (Redis.GET now (lockKey d) r) as [cur|] eqn:Hcur; [|done].
    destruct (String.eqb cur j); [apply GET_DEL_eq|done]. }
  assert (H2 : ∀ k, k ≠ lockKey d → Redis.GET now k r1 = Redis.GET now k r).
  { intros k Hk. subst r1. destruct (Redis.GET now (lockKey d) r) as [cur|]; [|done].
    destruct (String.eqb cur j); [|done]. by apply GET_DEL_ne. }
  assert (H3 : Redis.EXISTS now (memberKey j) r1 = Redis.EXISTS now (memberKey j) r).
  { unfold Redis.EXISTS. by rewrite H2 by apply not_eq_sym, lockKey_not_memberKey. }
  rewrite H3. unfold lockState, activeCount.
  destruct (Redis.EXISTS now (memberKey j) r) eqn:Hm; simpl.
  - set (r2 := Redis.DEL (memberKey j) r1).
    assert (Hk2 : Redis.GET now activeKey r2 = Redis.GET now activeKey r).
    { subst r2. rewrite GET_DEL_ne by apply memberKey_not_activeKey.
      apply H2, not_eq_sym, lockKey_not_activeKey. }
    assert (Hk1 : Redis.GET now (lockKey d) r2 = Redis.GET now (lockKey d) r1).
    { subst r2. by rewrite GET_DEL_ne by apply not_eq_sym, lockKey_not_memberKey. }
    assert (Hk3 : Redis.EXISTS now (memberKey j) r2 = false).
    { subst r2. apply EXISTS_DEL. }
    rewrite Hk2, Ha.
    destruct (0 <? a)%Z.
    + assert (Ha2 : Z_of_String (default "0" (Redis.GET now activeKey r2)) = Some a)
        by by rewrite Hk2.
      destruct (INCRBY_counter now activeKey (-1) r2 a Ha2) as (r3 & Hdecr & Hget).
      unfold Redis.DECR. rewrite Hdecr. simpl.
      unfold Redis.EXISTS in *.
      rewrite !(GET_INCRBY_ne _ _ _ _ _ _ _ (not_eq_sym (lockKey_not_activeKey d)) Hdecr).
      rewrite (GET_INCRBY_ne _ _ _ _ _ _ _ (not_eq_sym (memberKey_not_activeKey j)) Hdecr).
      rewrite Hk1, H1, Hget. simpl. rewrite Z_of_String_String_of_Z.
      by destruct (Redis.GET now (memberKey j) r2).
    + unfold Redis.EXISTS in *. rewrite Hk1, H1, Hk2, Ha.
      by destruct (Redis.GET now (memberKey j) r2).
  - unfold Redis.EXISTS in *.
    rewrite H1, (H2 activeKey) by apply not_eq_sym, lockKey_not_activeKey.
    rewrite Ha. rewrite H2 by apply not_eq_sym, lockKey_not_memberKey.
    by destruct (Redis.GET now (memberKey j) r).
Qed.

(** The lock after a release, whatever the counter holds. *)
Lemma RELEASE_lock now d j r :
  Redis.GET now (lockKey d)
    (RELEASE_RENDER_LOCK_LUA now (lockKey d) activeKey (memberKey j) j r)
  = match Redis.GET now (lockKey d) r with
    | Some cur => if String.eqb cur j then None else Some cur
    | None => None
    end.
Proof.
  unfold RELEASE_RENDER_LOCK_LUA.
  set (r1 := match Redis.GET now (lockKey d) r with
             | Some cur => if String.eqb cur j then Redis.DEL (lockKey d) r else r
             | None => r
             end).
  assert (H1 : Redis.GET now (lockKey d) r1
               = match Redis.GET now (lockKey d) r with
                 | Some cur => if String.eqb cur j then None else Some cur
                 | None => None
                 end).
  { subst r1. destruct (Redis.GET now (lockKey d) r) as [cur|] eqn:Hcur; [|done].
    destruct (String.eqb cur j); [apply GET_DEL_eq|done]. }
  destruct (Redis.EXISTS now (memberKey j) r1); [|done].
  set (r2 := Redis.DEL (memberKey j) r1).
  assert (Hk1 : Redis.GET now (lockKey d) r2 = Redis.GET now (lockKey d) r1).
  { subst r2. by rewrite GET_DEL_ne by apply not_eq_sym, lockKey_not_memberKey. }
  destruct (Z_of_String _) as [a|]; [|by rewrite Hk1].
  destruct (0 <? a)%Z; [|by rewrite Hk1].
  destruct (Redis.DECR now activeKey r2) as [r3|] eqn:Hdecr; simpl; [|by rewrite Hk1].
  unfold Redis.DECR in Hdecr.
  by rewrite (GET_INCRBY_ne _ _ _ _ _ _ _ (not_eq_sym (lockKey_not_activeKey d)) Hdecr), Hk1.
Qed.

Lemma ACQUIRE_takes_free_lock_witness :
  (ACQUIRE_RENDER_LOCK_LUA 0 (lockKey "doc1") activeKey (memberKey "j1") "j1" 1800 0
     Redis.empty).1 = Some (1%Z, "j1")
  ∧ lockState 0 "doc1" "j1"
      (ACQUIRE_RENDER_LOCK_LUA 0 (lockKey "doc1") activeKey (memberKey "j1") "j1"
         1800 0 Redis.empty).2
    = (Some "j1", true, Some 1%Z)
  ∧ ∀ t, (0 + 1800 ≤ t)%Z →
         Redis.EXISTS t (lockKey "doc1")
           (ACQUIRE_RENDER_LOCK_LUA 0 (lockKey "doc1") activeKey (memberKey "j1")
              "j1" 1800 0 Redis.empty).2 = false.
Proof.
  apply (ACQUIRE_takes_free_lock 0 "doc1" "j1" 1800 0 Redis.empty 0);
    [reflexivity|reflexivity|lia|lia].
Defined.

(** X2.  [RELEASE_RENDER_LOCK_LUA] checks the owner: called for one job while
    another job holds the lock of the document, it leaves that lock in
    place; and after a release the lock is never held by the releasing job. *)
Theorem RELEASE_checks_owner now d jobId r :
  let after :=
    Redis.GET now (lockKey d)
      (RELEASE_RENDER_LOCK_LUA now (lockKey d) activeKey (memberKey jobId) jobId r) in
  (∀ holder, Redis.GET now (lockKey d) r = Some holder → holder ≠ jobId →
             after = Some holder)
  ∧ (Redis.GET now (lockKey d) r = Some jobId → after = None)
  ∧ (after = Some jobId → False).
Proof.
  cbv zeta. rewrite RELEASE_lock. repeat split.
  - intros holder -> Hne. by rewrite (proj2 (String.eqb_neq _ _) Hne).
  - intros ->. by rewrite String.eqb_refl.
  - destruct (Redis.GET now (lockKey d) r) as [cur|]; [|done].
    destruct (String.eqb_spec cur jobId); [done|congruence].
Qed.

(** The three keys of a job, read at a later second [t] inside the TTL,
    after the acquire script took the lock at [now]. *)
Lemma ACQUIRE_lockState_later now t d jobId ttl maxActive r a :
  Redis.EXISTS now (lockKey d) r = false →
  activeCount now r = Some a →
  (maxActive ≤ 0 ∨ a < maxActive)%Z →
  Redis.ttl_of now activeKey r = None →
  (now ≤ t < now + ttl)%Z →
  lockState t d jobId
    (ACQUIRE_RENDER_LOCK_LUA now (lockKey d) activeKey (memberKey jobId) jobId
       ttl maxActive r).2
  = (Some jobId, true, Some (a + 1)%Z).
Proof.
  intros Hfree Ha Hcap Hnoexp Ht. unfold activeCount in Ha.
  unfold ACQUIRE_RENDER_LOCK_LUA. rewrite Hfree, Ha.
  assert ((if (0 <? maxActive)%Z then Some (maxActive <=? a)%Z else Some false)
          = Some false) as ->.
  { destruct (Z.ltb_spec 0 maxActive); [|done].
    destruct (Z.leb_spec maxActive a); [lia|done]. }
  set (r1 := Redis.SET_EX now (lockKey d) jobId ttl r).
  assert (Hr1 : Redis.strs r1 !! activeKey = Redis.strs r !! activeKey).
  { subst r1. simpl. rewrite lookup_insert_ne; [done|apply lockKey_not_activeKey]. }
  assert (∃ r2, Redis.INCR now activeKey r1 = Some r2
                ∧ Redis.GET t activeKey r2 = Some (String_of_Z (a + 1))) as (r2 & Hincr & Hget).
  { unfold Redis.INCR, Redis.INCRBY, Redis.GET, Redis.ttl_of in *. rewrite Hr1.
    destruct (Redis.strs r !! activeKey) as [[v e]|] eqn:Hv.
    - destruct (Redis.live now e) eqn:Hl.
      + simpl in Ha. rewrite Ha. eexists; split; [done|]. simpl.
        rewrite lookup_insert_eq. by subst e.
      + simpl in Ha. injection Ha as <-. eexists; split; [done|]. simpl.
        by rewrite lookup_insert_eq.
    - simpl in Ha. injection Ha as <-. eexists; split; [done|]. simpl.
      by rewrite lookup_insert_eq. }
  rewrite Hincr. cbn [snd].
  unfold lockState, activeCount, Redis.EXISTS.
  rewrite (GET_SET_EX_eq now t (memberKey jobId)) by lia.
  rewrite (GET_SET_EX_ne _ _ (memberKey jobId) (lockKey d))
    by apply not_eq_sym, lockKey_not_memberKey.
  rewrite (GET_SET_EX_ne _ _ (memberKey jobId) activeKey)
    by apply memberKey_not_activeKey.
  unfold Redis.INCR in Hincr.
  rewrite (GET_INCRBY_ne _ _ _ _ _ _ _ (not_eq_sym (lockKey_not_activeKey d)) Hincr).
  subst r1. rewrite GET_SET_EX_eq by lia. rewrite Hget. simpl.
  by rewrite Z_of_String_String_of_Z.
Qed.

(** X3.  Acquire, then release by the same job before the TTL has passed:
    the lock and the membership key are gone and the counter is back at the
    value it had. *)
Theorem acquire_then_release now t d jobId ttl maxActive r a :
  Redis.EXISTS now (lockKey d) r = false →
  activeCount now r = Some a → (0 ≤ a)%Z →
  (maxActive ≤ 0 ∨ a < maxActive)%Z →
  Redis.ttl_of now activeKey r = None →
  (now ≤ t < now + ttl)%Z →
  let acquired := (ACQUIRE_RENDER_LOCK_LUA now (lockKey d) activeKey
                     (memberKey jobId) jobId ttl maxActive r).2 in
  lockState t d jobId
    (RELEASE_RENDER_LOCK_LUA t (lockKey d) activeKey (memberKey jobId) jobId acquired)
  = (None, false, Some a).
Proof.
  intros Hfree Ha Ha0 Hcap Hnoexp Ht acquired.
  pose proof (ACQUIRE_lockState_later now t d jobId ttl maxActive r a
                Hfree Ha Hcap Hnoexp Ht) as Hst.
  fold acquired in Hst. unfold lockState in Hst. injection Hst as Hl Hm Hc.
  rewrite (RELEASE_lockState t d jobId acquired (a + 1)) by done.
  rewrite Hl, Hm, String.eqb_refl.
  destruct (Z.ltb_spec 0 (a + 1)); [|lia]. simpl. do 2 f_equal. lia.
Qed.

Lemma acquire_then_release_witness :
  lockState 10 "doc1" "j1"
    (RELEASE_RENDER_LOCK_LUA 10 (lockKey "doc1") activeKey (memberKey "j1") "j1"
       (ACQUIRE_RENDER_LOCK_LUA 0 (lockKey "doc1") activeKey (memberKey "j1") "j1"
          1800 5 (Redis.SET activeKey "2" None Redis.empty)).2)
  = (None, false, Some 2%Z).
Proof.
  apply (acquire_then_release 0 10 "doc1" "j1" 1800 5
           (Redis.SET activeKey "2" None Redis.empty) 2);
    [reflexivity|reflexivity|lia|lia|reflexivity|lia].
Defined.

Lemma RELEASE_member now d j r :
  Redis.EXISTS now (memberKey j)
    (RELEASE_RENDER_LOCK_LUA now (lockKey d) activeKey (memberKey j) j r) = false.
Proof.
  unfold RELEASE_RENDER_LOCK_LUA.
  set (r1 := match Redis.GET now (lockKey d) r with
             | Some cur => if String.eqb cur j then Redis.DEL (lockKey d) r else r
             | None => r
             end).
  destruct (Redis.EXISTS now (memberKey j) r1) eqn:Hm; [|done].
  set (r2 := Redis.DEL (memberKey j) r1).
  assert (Hk3 : Redis.EXISTS now (memberKey j) r2 = false) by apply EXISTS_DEL.
  destruct (Z_of_String _) as [a|]; [|done].
  destruct (0 <? a)%Z; [|done].
  destruct (Redis.DECR now activeKey r2) as [r3|] eqn:Hdecr; simpl; [|done].
  unfold Redis.DECR in Hdecr. unfold Redis.EXISTS in *.
  by rewrite (GET_INCRBY_ne _ _ _ _ _ _ _ (not_eq_sym (memberKey_not_activeKey j)) Hdecr).
Qed.

(** X4.  Releasing twice is releasing once: the second run of the script
    finds neither the lock of the job nor its membership key and leaves the
    cache, the counter included, as the first run left it. *)
Theorem RELEASE_twice now d jobId r :
  let once := RELEASE_RENDER_LOCK_LUA now (lockKey d) activeKey (memberKey jobId)
                jobId r in
  RELEASE_RENDER_LOCK_LUA now (lockKey d) activeKey (memberKey jobId) jobId once
  = once.
Proof.
  intros once.
  pose proof (RELEASE_lock now d jobId r) as Hl.
  pose proof (RELEASE_member now d jobId r) as Hm.
  fold once in Hl, Hm. clearbody once.
  unfold RELEASE_RENDER_LOCK_LUA. rewrite Hl.
  assert (match
            match Redis.GET now (lockKey d) r with
            | Some cur => if String.eqb cur jobId then None else Some cur
            | None => None
            end
          with
          | Some cur => if String.eqb cur jobId then Redis.DEL (lockKey d) once else once
          | None => once
          end = once) as ->.
  { destruct (Redis.GET now (lockKey d) r) as [cur|]; [|done].
    by destruct (String.eqb cur jobId) eqn:E; [|rewrite E]. }
  by rewrite Hm.
Qed.

Lemma ACQUIRE_path_count now d jobId ttl r a :
  activeCount now r = Some a →
  ∃ r2, Redis.INCR now activeKey (Redis.SET_EX now (lockKey d) jobId ttl r) = Some r2
        ∧ activeCount now (Redis.SET_EX now (memberKey jobId) "1" ttl r2)
          = Some (a + 1)%Z.
Proof.
  intros Ha. unfold activeCount in *.
  set (r1 := Redis.SET_EX now (lockKey d) jobId ttl r).
  assert (Ha1 : Z_of_String (default "0" (Redis.GET now activeKey r1)) = Some a).
  { subst r1. by rewrite GET_SET_EX_ne by apply lockKey_not_activeKey. }
  destruct (INCRBY_counter now activeKey 1 r1 a Ha1) as (r2 & Hincr & Hget).
  exists r2. split; [done|].
  rewrite GET_SET_EX_ne by apply memberKey_not_activeKey.
  rewrite Hget. simpl. apply Z_of_String_String_of_Z.
Qed.

(** X5.  The counter of active jobs stays a non-negative integer: a run of
    the acquire script leaves it or adds one, a run of the release script
    leaves it or takes one off, and never takes it below zero. *)
Theorem scripts_keep_counter now d jobId ttl maxActive r a :
  activeCount now r = Some a → (0 ≤ a)%Z →
  (∃ a', activeCount now
           (ACQUIRE_RENDER_LOCK_LUA now (lockKey d) activeKey (memberKey jobId)
              jobId ttl maxActive r).2 = Some a'
         ∧ a ≤ a' ≤ a + 1)%Z
  ∧ (∃ a', activeCount now
             (RELEASE_RENDER_LOCK_LUA now (lockKey d) activeKey (memberKey jobId)
                jobId r) = Some a'
           ∧ 0 ≤ a' ∧ a - 1 ≤ a' ≤ a)%Z.
Proof.
  intros Ha Ha0. split.
  - destruct (ACQUIRE_path_count now d jobId ttl r a Ha) as (r2 & Hincr & Hcount).
    unfold ACQUIRE_RENDER_LOCK_LUA.
    destruct (Redis.EXISTS now (lockKey d) r); [exists a; split; [done|lia]|].
    pose proof Ha as Ha'. unfold activeCount in Ha'. rewrite Ha'.
    destruct (0 <? maxActive)%Z; [destruct (maxActive <=? a)%Z|].
    + exists a; split; [done|lia].
    + rewrite Hincr. exists (a + 1)%Z; split; [done|lia].
    + rewrite Hincr. exists (a + 1)%Z; split; [done|lia].
  - pose proof (RELEASE_lockState now d jobId r a Ha) as H.
    unfold lockState in H. injection H as _ _ Hc. rewrite Hc.
    eexists; split; [done|].
    destruct (Redis.EXISTS now (memberKey jobId) r); simpl; [|lia].
    destruct (Z.ltb_spec 0 a); lia.
Qed.

Lemma scripts_keep_counter_witness :
  (∃ a', activeCount 0
           (ACQUIRE_RENDER_LOCK_LUA 0 (lockKey "doc1") activeKey (memberKey "j1") "j1"
              1800 0 lockedRedis).2 = Some a'
         ∧ 1 ≤ a' ≤ 1 + 1)%Z
  ∧ (∃ a', activeCount 0
             (RELEASE_RENDER_LOCK_LUA 0 (lockKey "doc1") activeKey (memberKey "j1")
                "j1" lockedRedis) = Some a'
           ∧ 0 ≤ a' ∧ 1 - 1 ≤ a' ≤ 1)%Z.
Proof.
  apply (scripts_keep_counter 0 "doc1" "j1" 1800 0 lockedRedis 1); [reflexivity|lia].
Defined.

End LockScripts.

Section FlowFacts.
Import Scheduler VectorPdfWorker SchedulerVocabulary SchedulerScenarios WorkerVocabulary.

Lemma ceil_div_bounds a b :
  (0 < b)%Z → ((ceil_div a b - 1) * b < a ≤ ceil_div a b * b)%Z.
Proof.
  intros Hb. unfold ceil_div.
  pose proof (Z.div_mod (- a) b ltac:(lia)) as Hdm.
  pose proof (Z.mod_pos_bound (- a) b Hb) as Hm.
  nia.
Qed.

Lemma batches_cover (B T : Z) (k : nat) :
  (0 < B)%Z → ((Z.of_nat k - 1) * B < T)%Z →
  pagesOf ((λ batchIndex : Z,
              let startPage := (batchIndex * B)%Z in
              (startPage, Z.min T (startPage + B))) <$> seqZ 0 (Z.of_nat k))
  = seqZ 0 (Z.min T (Z.of_nat k * B)).
Proof.
  intros HB. unfold pagesOf. induction k as [|k IH]; intros Hk.
  - simpl. by rewrite seqZ_nil by lia.
  - rewrite Nat2Z.inj_succ, <- Z.add_1_r.
    rewrite seqZ_app by lia. rewrite fmap_app, bind_app.
    rewrite IH by lia. simpl. rewrite app_nil_r. cbn [fst snd].
    rewrite (Z.min_r T (Z.of_nat k * B)) by lia. rewrite Z.add_0_l.
    replace (Z.min T ((Z.of_nat k + 1) * B))
      with (Z.of_nat k * B + (Z.min T (Z.of_nat k * B + B) - Z.of_nat k * B))%Z by lia.
    rewrite seqZ_app by lia. by rewrite Z.add_0_l.
Qed.

(** X6.  [enqueueVectorJobFlow] for a job of [totalPages ≥ 1] pages hands
    the queue one flow whose batches, in order, cover the pages
    [0 .. totalPages - 1] exactly once; no batch is empty and none is larger
    than the batch size (at most 50); nothing else changes. *)
Theorem enqueueVectorJobFlow_partition env printJobId total w :
  producer env = true → (1 ≤ total)%Z →
  let batchSize := Z.max 1 (Z.min 50 (default 50%Z (VECTOR_BATCH_SIZE env))) in
  ∃ children,
    enqueueVectorJobFlow env printJobId total w
    = (Ok tt, with_flow (mkFlow printJobId children total
                           (default 3%Z (VECTOR_BATCH_ATTEMPTS env))) w)
    ∧ pagesOf children = seqZ 0 total
    ∧ Forall (λ c, 0 ≤ c.1 < c.2 ∧ c.2 - c.1 ≤ batchSize ≤ 50)%Z children.
Proof.
  intros Hp Ht batchSize. unfold enqueueVectorJobFlow. rewrite Hp. cbn [negb].
  fold batchSize. rewrite or_num_nonzero by lia.
  assert (HB : (0 < batchSize)%Z) by (subst batchSize; lia).
  pose proof (ceil_div_bounds total batchSize HB) as Hc.
  set (n := ceil_div total batchSize) in *.
  assert (Hn : (0 ≤ n)%Z) by nia.
  destruct (Z.ltb_spec n 0); [lia|].
  eexists. split; [reflexivity|]. split.
  - rewrite <- (Z2Nat.id n) by done.
    rewrite batches_cover by (rewrite ?Z2Nat.id; lia).
    f_equal. rewrite Z2Nat.id by done. lia.
  - apply Forall_fmap, Forall_forall. intros b Hb.
    apply elem_of_seqZ in Hb. unfold compose. cbn [fst snd].
    assert (batchSize ≤ 50)%Z by (subst batchSize; lia).
    assert (b * batchSize ≤ (n - 1) * batchSize)%Z by nia.
    assert (0 ≤ b * batchSize)%Z by nia.
    clearbody batchSize n. lia.
Qed.

Lemma enqueueVectorJobFlow_partition_witness :
  ∃ children,
    enqueueVectorJobFlow plainEnv "j1" 120 (world1 zeroMac PENDING)
    = (Ok tt, with_flow (mkFlow "j1" children 120 3) (world1 zeroMac PENDING))
    ∧ pagesOf children = seqZ 0 120
    ∧ Forall (λ c, 0 ≤ c.1 < c.2 ∧ c.2 - c.1 ≤ 50 ≤ 50)%Z children.
Proof.
  apply (enqueueVectorJobFlow_partition plainEnv "j1" 120 (world1 zeroMac PENDING));
    [reflexivity|lia].
Defined.

End FlowFacts.

Section WorkerGuards.
Import Scheduler VectorPdfWorker SchedulerVocabulary SchedulerScenarios WorkerVocabulary.

(** X7.  A job that the reaper has marked EXPIRED is skipped: the batch and
    the merge processor return [{ skipped: true }] and neither render, nor
    write, nor release anything. *)
Theorem expired_job_is_skipped env deps job children printJobId jobDoc w :
  data_printJobId job = Some printJobId →
  jobs w !! printJobId = Some jobDoc →
  job_status jobDoc = EXPIRED →
  processBatch env deps job w = (Ok CSkipped, w)
  ∧ processMerge env deps job children w = (Ok MergeSkipped, w).
Proof.
  intros Hid Hjob Hst. unfold processBatch, processMerge. rewrite Hid.
  unfold andThen, findById. rewrite Hjob.
  by rewrite !bool_decide_eq_true_2.
Qed.

Lemma expired_job_is_skipped_witness :
  processBatch plainEnv plainDeps (batchJob 0 2 1) (world1 zeroMac EXPIRED)
  = (Ok CSkipped, world1 zeroMac EXPIRED)
  ∧ processMerge plainEnv plainDeps (batchJob 0 2 1) [CPages [page 0; page 1]]
      (world1 zeroMac EXPIRED)
    = (Ok MergeSkipped, world1 zeroMac EXPIRED).
Proof.
  apply (expired_job_is_skipped plainEnv plainDeps (batchJob 0 2 1)
           [CPages [page 0; page 1]] "j1" (job1 zeroMac EXPIRED));
    [reflexivity | vm_compute; reflexivity | reflexivity].
Defined.

(** X8.  A batch whose stored MAC has the length of a digest but is not the
    MAC of the stored metadata fails with 'HMAC verification failed' before
    any page is rendered, and changes nothing. *)
Theorem processBatch_rejects_wrong_mac env deps job printJobId jobDoc w mac :
  data_printJobId job = Some printJobId →
  jobs w !! printJobId = Some jobDoc →
  job_status jobDoc ≠ EXPIRED →
  validateVectorMetadata deps (metadata jobDoc) = true →
  Hmac.signJobPayload (crypto deps) (secret env) (metadata jobDoc) = Ok mac →
  String.length (payloadHmac jobDoc) = 64%nat →
  payloadHmac jobDoc ≠ mac →
  processBatch env deps job w = (Throw (Error "HMAC verification failed"), w).
Proof.
  intros Hid Hjob Hst Hvalid Hsign Hlen Hne. unfold processBatch. rewrite Hid.
  unfold andThen at 1. unfold findById. rewrite Hjob.
  rewrite bool_decide_eq_false_2 by done. rewrite Hvalid. cbn [negb].
  unfold Hmac.verifyJobPayload. rewrite Hsign. cbn [bind].
  unfold Hmac.timingSafeEqual.
  rewrite (signJobPayload_length _ _ _ _ Hsign), Hlen. simpl.
  unfold andThen, lift.
  by rewrite (proj2 (String.eqb_neq mac (payloadHmac jobDoc))) by congruence.
Qed.

Lemma processBatch_rejects_wrong_mac_witness :
  processBatch plainEnv plainDeps (batchJob 0 2 1)
    (world1 "1000000000000000000000000000000000000000000000000000000000000000" PENDING)
  = (Throw (Error "HMAC verification failed"),
     world1 "1000000000000000000000000000000000000000000000000000000000000000" PENDING).
Proof.
  apply (processBatch_rejects_wrong_mac plainEnv plainDeps (batchJob 0 2 1) "j1"
           (job1 "1000000000000000000000000000000000000000000000000000000000000000"
                 PENDING) _ zeroMac);
    [reflexivity | vm_compute; reflexivity | discriminate | reflexivity
    | reflexivity | reflexivity | discriminate].
Defined.

(** X9.  With the job store up, the listener on 'failed' never throws, and
    it changes nothing when
    the queue job carries no job id or the job document is not found. *)
Theorem onFailed_never_throws env job err w :
  (onFailed env job err w).1 = Ok tt
  ∧ (match data_printJobId job with
     | Some printJobId =>
         truthy_string printJobId = false ∨ jobs w !! printJobId = None
     | None => True
     end → (onFailed env job err w).2 = w).
Proof.
  unfold onFailed. destruct (data_printJobId job) as [id|]; [|done].
  destruct (truthy_string id) eqn:Hid; [|done]. cbn [negb].
  unfold andThen at 1 3. unfold findById.
  destruct (jobs w !! id) as [jobDoc|] eqn:Hjob.
  - split; [|by intros [|]].
    unfold andThen, save, modify. cbv beta iota.
    destruct (_ <=? _)%Z; [apply releaseRenderLock_ok|done].
  - done.
Qed.

End WorkerGuards.

Section MergeFrame.
Import Scheduler VectorPdfWorker SchedulerVocabulary SchedulerScenarios WorkerVocabulary.

Lemma furtherAlong_refl j : furtherAlong j j.
Proof. repeat split. exists []. by rewrite app_nil_r. Qed.

Lemma furtherAlong_trans j1 j2 j3 :
  furtherAlong j1 j2 → furtherAlong j2 j3 → furtherAlong j1 j3.
Proof.
  intros (?&?&?&?&?&?&?&?&m1&Ha1) (?&?&?&?&?&?&?&?&m2&Ha2).
  repeat split; try congruence.
  exists (m1 ++ m2). by rewrite Ha2, Ha1, app_assoc.
Qed.

Lemma furtherAlong_update j p ev d :
  furtherAlong j (push_audit (mkAudit ev d) (set_progress p j)).
Proof. repeat split. by eexists. Qed.

(** What the merge loop leaves alone, whether it ends or throws. *)
Lemma mergeLoop_frame env deps id len slots : ∀ i j merged w,
  let o := mergeLoop env deps id len i slots j merged w in
  redis o.2 = redis w ∧ blobs o.2 = blobs w ∧ flows o.2 = flows w
  ∧ (storedStatus id (job_status j) w → storedStatus id (job_status j) o.2)
  ∧ (∀ j' merged', o.1 = Ok (j', merged') → furtherAlong j j').
Proof.
  induction slots as [|slot slots IH]; intros i j merged w; cbn zeta.
  - simpl. split_and!; try done. intros j' m' [= <- _]. apply furtherAlong_refl.
  - cbn [mergeLoop].
    destruct ((0 <? maxMergeMs env)%Z && (maxMergeMs env <? elapsedMs env i)%Z);
      [by split_and!|].
    unfold andThen at 1. unfold lift.
    destruct (loadFirstPage deps (default "" slot)) as [p|e]; [|by split_and!].
    unfold andThen at 1.
    destruct ((i =? 0)%nat || (i =? len - 1)%nat || (i mod 10 =? 0)%nat).
    + unfold updateProgress, andThen, save, modify, ret. cbv beta iota.
      match goal with |- context [mergeLoop _ _ _ _ _ _ ?j0 ?m0 ?w0] =>
        pose proof (IH (S i) j0 m0 w0) as Hrec;
        pose proof (furtherAlong_update j
          (Z.max 0 (Z.min 100
             (Z.max (progress j)
                (80 + (Z.of_nat i + 1) * 15 / Z.max 1 (Z.of_nat len)))))
          "MERGE_PROGRESS" (DMergedPages (Z.of_nat i + 1))) as Hup;
        destruct (mergeLoop env deps id len (S i) slots j0 m0 w0) as [res w'] eqn:E
      end.
      cbn zeta in Hrec. cbn [fst snd] in Hrec.
      destruct Hrec as (Hr & Hb & Hf & Hs & Hj). cbn [fst snd].
      rewrite Hr, Hb, Hf. split_and!; try done.
      * intros _. apply Hs. unfold storedStatus. simpl. by rewrite lookup_insert_eq.
      * intros j' m' Hres. eapply furtherAlong_trans; [exact Hup|]. by eapply Hj.
    + unfold ret at 1. apply IH.
Qed.

(** The outcome of the [try] block of [processMerge]. *)
Lemma mergeBody_outcome env deps id doc jobDoc children w res w' :
  let finalKey := ("documents/final/" +:+ id +:+ ".pdf")%string in
  mergeBody env deps id doc jobDoc children w = (res, w') →
  match res with
  | Throw _ =>
      redis w' = redis w ∧ blobs w' = blobs w ∧ storedStatus id RUNNING w'
  | Ok MergeSkipped => False
  | Ok (MergeOk k) =>
      k = finalKey
      ∧ redis w' = releasedRedis env doc id (redis w)
      ∧ (∃ bytes, blobs w' = <[finalKey := bytes]> (blobs w)
                  ∧ startsWith "%PDF-" bytes = true)
      ∧ ∃ done mid,
          jobs w' !! id = Some done
          ∧ job_status done = DONE ∧ progress done = 100%Z
          ∧ output done
            = mkOutput (Some finalKey) (Some (signedUrl deps finalKey))
                (Some (nowMs env + FINAL_PDF_TTL_HOURS env * 60 * 60 * 1000)%Z)
          ∧ audit done
            = audit jobDoc ++ mid
              ++ [mkAudit "JOB_DONE" (DKey finalKey);
                  mkAudit "MERGE_TIME" (DMs (mergeMs env))]
          ∧ metadata done = metadata jobDoc
          ∧ payloadHmac done = payloadHmac jobDoc
  end.
Proof.
  intros finalKey. unfold mergeBody.
  unfold andThen at 1. unfold updateProgress at 1. unfold andThen at 1.
  unfold save at 1. unfold modify at 1. unfold ret at 1. cbv beta iota.
  set (jobDoc1 := push_audit (mkAudit "MERGE_JOB_STARTED" DNull) _).
  set (w1 := with_jobs (<[id := jobDoc1]>) w).
  assert (H1 : furtherAlong (set_status RUNNING jobDoc) jobDoc1)
    by apply furtherAlong_update.
  assert (Hs1 : storedStatus id RUNNING w1).
  { unfold storedStatus. subst w1. simpl. by rewrite lookup_insert_eq. }
  destruct (or_num (Some (totalPages jobDoc1)) 1 <? 0)%Z; [by intros [= <- <-]|].
  destruct (existsb slot_missing _); [by intros [= <- <-]|].
  unfold andThen at 1.
  match goal with |- context [mergeLoop env deps id ?len ?i ?slots ?j ?m ?w0] =>
    pose proof (mergeLoop_frame env deps id len slots i j m w0) as Hloop;
    destruct (mergeLoop env deps id len i slots j m w0) as [[st|e] w2] eqn:E
  end; cbn zeta in Hloop; cbn [fst snd] in Hloop;
    destruct Hloop as (Hr & Hb & Hf & Hs & Hj).
  2:{ intros [= <- <-]. rewrite Hr, Hb. split_and!; try done. by apply Hs. }
  destruct st as [j2 merged]. specialize (Hj j2 merged eq_refl).
  cbn [fst snd]. unfold andThen at 1. unfold updateProgress at 1. unfold andThen at 1.
  unfold save at 1. unfold modify at 1. unfold ret at 1. cbv beta iota.
  set (jobDoc2 := push_audit (mkAudit "FINAL_MERGE_DONE" DNull) _).
  assert (H2 : furtherAlong j2 jobDoc2) by apply furtherAlong_update.
  pose proof (furtherAlong_trans _ _ _ (furtherAlong_trans _ _ _ H1 Hj) H2) as H12.
  assert (Hs2 : storedStatus id RUNNING (with_jobs (<[id := jobDoc2]>) w2)).
  { destruct H12 as (_&_&_&_&Hst&_).
    unfold storedStatus. cbn [jobs with_jobs]. rewrite lookup_insert_eq.
    change (Some (job_status jobDoc2) = Some RUNNING). by rewrite Hst. }
  destruct (startsWith "%PDF-" (pdf_save deps merged)) eqn:Hhdr; cbn [negb].
  2:{ intros [= <- <-].
      split_and!; [simpl; by rewrite Hr | simpl; by rewrite Hb | done]. }
  destruct (upload_throws env).
  { intros [= <- <-].
    split_and!; [simpl; by rewrite Hr | simpl; by rewrite Hb | done]. }
  unfold andThen, save, modify, ret. cbv beta iota. fold finalKey.
  match goal with |- context [releaseRenderLock env doc id ?w0] =>
    pose proof (releaseRenderLock_blobs env doc id w0) as Hrb;
    pose proof (releaseRenderLock_jobs env doc id w0) as Hrj;
    pose proof (releaseRenderLock_ok env doc id w0) as Hro;
    assert (Hrr : redis (releaseRenderLock env doc id w0).2
                  = releasedRedis env doc id (redis w0));
    [|destruct (releaseRenderLock env doc id w0) as [r w''] ]
  end.
  { unfold releaseRenderLock, releasedRedis.
    destruct (client env), (truthy_string doc), (truthy_string id),
      (eval_throws env); done. }
  simpl in Hro, Hrb, Hrj, Hrr. subst r. intros [= <- <-].
  split; [done|]. split; [by rewrite Hrr, Hr|].
  split.
  { exists (pdf_save deps merged). split; [|done]. by rewrite Hrb, Hb. }
  destruct H12 as (_&_&Hm&Hh&_&_&_&_&mid&Ha).
  eexists _, mid. rewrite Hrj. rewrite lookup_insert_eq.
  split; [reflexivity|]. simpl.
  split_and!; try done. simpl in Ha. rewrite Ha. by rewrite <- !app_assoc.
Qed.

End MergeFrame.

Section MergeOutcome.
Import Scheduler VectorPdfWorker SchedulerVocabulary SchedulerScenarios WorkerVocabulary.

Lemma releaseRenderLock_redis env d j w :
  redis (releaseRenderLock env d j w).2 = releasedRedis env d j (redis w).
Proof.
  unfold releaseRenderLock, releasedRedis.
  destruct (client env), (truthy_string d), (truthy_string j), (eval_throws env); done.
Qed.

(** [processMerge] on a job that is there and not expired, whatever its
    outcome. *)
Lemma processMerge_outcome env deps job printJobId jobDoc children w res w' :
  data_printJobId job = Some printJobId →
  jobs w !! printJobId = Some jobDoc →
  job_status jobDoc ≠ EXPIRED →
  let documentId_ := lockDocumentId (metadata jobDoc) (job_sourcePdfKey jobDoc) in
  let finalKey := ("documents/final/" +:+ printJobId +:+ ".pdf")%string in
  processMerge env deps job children w = (res, w') →
  redis w' = releasedRedis env documentId_ printJobId (redis w)
  ∧ match res with
    | Throw _ => blobs w' = blobs w ∧ storedStatus printJobId RUNNING w'
    | Ok MergeSkipped => False
    | Ok (MergeOk k) =>
        k = finalKey
        ∧ (∃ bytes, blobs w' = <[finalKey := bytes]> (blobs w)
                    ∧ startsWith "%PDF-" bytes = true)
        ∧ ∃ done mid,
            jobs w' !! printJobId = Some done
            ∧ job_status done = DONE ∧ progress done = 100%Z
            ∧ output done
              = mkOutput (Some finalKey) (Some (signedUrl deps finalKey))
                  (Some (nowMs env + FINAL_PDF_TTL_HOURS env * 60 * 60 * 1000)%Z)
            ∧ audit done
              = audit jobDoc ++ mid
                ++ [mkAudit "JOB_DONE" (DKey finalKey);
                    mkAudit "MERGE_TIME" (DMs (mergeMs env))]
            ∧ metadata done = metadata jobDoc
            ∧ payloadHmac done = payloadHmac jobDoc
    end.
Proof.
  intros Hid Hjob Hst documentId_ finalKey.
  unfold processMerge. rewrite Hid.
  unfold andThen at 1. unfold findById. rewrite Hjob.
  rewrite bool_decide_eq_false_2 by done. fold documentId_.
  unfold try_catch.
  destruct (mergeBody env deps printJobId documentId_ jobDoc children w)
    as [[v|e] w1] eqn:Hbody;
    pose proof (mergeBody_outcome _ _ _ _ _ _ _ _ _ Hbody) as Hout; cbn zeta in Hout.
  - intros [= <- <-]. destruct v as [k|]; [|done].
    destruct Hout as (Hk & Hr & Hb & Hd). by split_and!.
  - destruct Hout as (Hr & Hb & Hs).
    unfold andThen, throw.
    pose proof (releaseRenderLock_ok env documentId_ printJobId w1) as Hok.
    pose proof (releaseRenderLock_blobs env documentId_ printJobId w1) as Hrb.
    pose proof (releaseRenderLock_jobs env documentId_ printJobId w1) as Hrj.
    pose proof (releaseRenderLock_redis env documentId_ printJobId w1) as Hrr.
    destruct (releaseRenderLock env documentId_ printJobId w1) as [r w2].
    simpl in Hok, Hrb, Hrj, Hrr. subst r. intros [= <- <-].
    split_and!; [by rewrite Hrr, Hr | by rewrite Hrb | ].
    unfold storedStatus in *. by rewrite Hrj.
Qed.

(** X10.  [processMerge] on a job that is there and not expired runs the
    release exactly once on the cache it found, whether the merge succeeds
    or throws: with the cache up, the lock of the document is no longer held
    by this job afterwards and its membership key is gone. *)
Theorem processMerge_releases_lock env deps job printJobId jobDoc children w :
  data_printJobId job = Some printJobId →
  jobs w !! printJobId = Some jobDoc →
  job_status jobDoc ≠ EXPIRED →
  let documentId_ := lockDocumentId (metadata jobDoc) (job_sourcePdfKey jobDoc) in
  let after := redis (processMerge env deps job children w).2 in
  after = releasedRedis env documentId_ printJobId (redis w)
  ∧ (client env = true → eval_throws env = false →
     truthy_string documentId_ = true → truthy_string printJobId = true →
     after = RELEASE_RENDER_LOCK_LUA (now env) (lockKey documentId_) activeKey
               (memberKey printJobId) printJobId (redis w)
     ∧ (Redis.GET (now env) (lockKey documentId_) (redis w) = Some printJobId →
        Redis.GET (now env) (lockKey documentId_) after = None)
     ∧ Redis.EXISTS (now env) (memberKey printJobId) after = false).
Proof.
  intros Hid Hjob Hst documentId_ after.
  destruct (processMerge env deps job children w) as [res w'] eqn:Hrun.
  destruct (processMerge_outcome _ _ _ _ _ _ _ _ _ Hid Hjob Hst Hrun) as [Hr _].
  fold documentId_ in Hr. subst after. cbn [snd]. split; [done|].
  intros Hc He Hd Hj. rewrite Hr. unfold releasedRedis. rewrite Hc, He, Hd, Hj.
  cbn [andb negb]. split_and!; [done| |apply RELEASE_member].
  intros Hheld. rewrite RELEASE_lock, Hheld. by rewrite String.eqb_refl.
Qed.

Lemma processMerge_releases_lock_witness :
  (Redis.GET 0 (lockKey "doc1")
     (redis (processMerge plainEnv plainDeps mergeJob [CPages [page 1]; CPages [page 0]]
               (world1 zeroMac RUNNING)).2) = None
   ∧ Redis.EXISTS 0 (memberKey "j1")
       (redis (processMerge plainEnv plainDeps mergeJob
                 [CPages [page 1]; CPages [page 0]] (world1 zeroMac RUNNING)).2) = false)
  ∧ Redis.GET 0 (lockKey "doc1")
      (redis (processMerge plainEnv plainDeps mergeJob [CPages [page 0]]
                (world1 zeroMac RUNNING)).2) = None.
Proof.
  split.
  - destruct (processMerge_releases_lock plainEnv plainDeps mergeJob "j1"
                (job1 zeroMac RUNNING) [CPages [page 1]; CPages [page 0]]
                (world1 zeroMac RUNNING)) as [_ H];
      [reflexivity | vm_compute; reflexivity | discriminate |].
    destruct H as (_ & Hl & Hm); [reflexivity..|].
    split; [apply Hl; vm_compute; reflexivity | exact Hm].
  - destruct (processMerge_releases_lock plainEnv plainDeps mergeJob "j1"
                (job1 zeroMac RUNNING) [CPages [page 0]]
                (world1 zeroMac RUNNING)) as [_ H];
      [reflexivity | vm_compute; reflexivity | discriminate |].
    destruct H as (_ & Hl & _); [reflexivity..|].
    apply Hl. vm_compute. reflexivity.
Defined.

(** X11.  With the job store up ([findById] and [save] succeed), the only
    blob [processMerge] writes is the final PDF: when it throws, the blob store is as it was; when it returns, it returns the key
    [documents/final/{jobId}.pdf] and has stored bytes under that key, and
    nowhere else, that start with the header [%PDF-]. *)
Theorem processMerge_writes_only_final_pdf env deps job printJobId jobDoc children w :
  data_printJobId job = Some printJobId →
  jobs w !! printJobId = Some jobDoc →
  job_status jobDoc ≠ EXPIRED →
  let finalKey := ("documents/final/" +:+ printJobId +:+ ".pdf")%string in
  let outcome := processMerge env deps job children w in
  match outcome.1 with
  | Throw _ => blobs outcome.2 = blobs w
  | Ok r =>
      r = MergeOk finalKey
      ∧ ∃ bytes, blobs outcome.2 = <[finalKey := bytes]> (blobs w)
                 ∧ startsWith "%PDF-" bytes = true
  end.
Proof.
  intros Hid Hjob Hst finalKey outcome. subst outcome.
  destruct (processMerge env deps job children w) as [res w'] eqn:Hrun.
  destruct (processMerge_outcome _ _ _ _ _ _ _ _ _ Hid Hjob Hst Hrun) as [_ H].
  cbn [fst snd]. destruct res as [[k|]|e]; [|done|by destruct H].
  destruct H as (-> & Hb & _). by split.
Qed.

Lemma processMerge_writes_only_final_pdf_witness :
  (∃ bytes,
     blobs (processMerge plainEnv plainDeps mergeJob [CPages [page 1]; CPages [page 0]]
              (world1 zeroMac RUNNING)).2
     = <[ "documents/final/j1.pdf" := bytes ]> (∅ : gmap string string)
     ∧ startsWith "%PDF-" bytes = true)
  ∧ blobs (processMerge plainEnv plainDeps mergeJob [CPages [page 0]]
             (world1 zeroMac RUNNING)).2 = ∅.
Proof.
  split.
  - pose proof (processMerge_writes_only_final_pdf plainEnv plainDeps mergeJob "j1"
                  (job1 zeroMac RUNNING) [CPages [page 1]; CPages [page 0]]
                  (world1 zeroMac RUNNING) eq_refl eq_refl
                  ltac:(discriminate)) as H.
    cbn zeta in H.
    destruct (processMerge plainEnv plainDeps mergeJob [CPages [page 1]; CPages [page 0]]
                (world1 zeroMac RUNNING)) as [[r|e] w'] eqn:E; [|by vm_compute in E].
    exact (proj2 H).
  - pose proof (processMerge_writes_only_final_pdf plainEnv plainDeps mergeJob "j1"
                  (job1 zeroMac RUNNING) [CPages [page 0]]
                  (world1 zeroMac RUNNING) eq_refl eq_refl
                  ltac:(discriminate)) as H.
    cbn zeta in H.
    destruct (processMerge plainEnv plainDeps mergeJob [CPages [page 0]]
                (world1 zeroMac RUNNING)) as [[r|e] w'] eqn:E; [by vm_compute in E|].
    exact H.
Defined.

(** X12.  With the job store up ([findById] and [save] succeed), the job
    record after [processMerge]: on success it is DONE at
    progress 100, its output names the final key, the signed URL and the
    expiry [now + FINAL_PDF_TTL_HOURS], and its audit trail is the one it
    had, extended, ending in JOB_DONE and MERGE_TIME; when the merge throws,
    the stored record is left RUNNING (marking it FAILED is the listener's
    work). *)
Theorem processMerge_job_record env deps job printJobId jobDoc children w :
  data_printJobId job = Some printJobId →
  jobs w !! printJobId = Some jobDoc →
  job_status jobDoc ≠ EXPIRED →
  let finalKey := ("documents/final/" +:+ printJobId +:+ ".pdf")%string in
  let outcome := processMerge env deps job children w in
  match outcome.1 with
  | Throw _ => storedStatus printJobId RUNNING outcome.2
  | Ok _ =>
      ∃ done mid,
        jobs outcome.2 !! printJobId = Some done
        ∧ job_status done = DONE ∧ progress done = 100%Z
        ∧ output done
          = mkOutput (Some finalKey) (Some (signedUrl deps finalKey))
              (Some (nowMs env + FINAL_PDF_TTL_HOURS env * 60 * 60 * 1000)%Z)
        ∧ audit done
          = audit jobDoc ++ mid
            ++ [mkAudit "JOB_DONE" (DKey finalKey);
                mkAudit "MERGE_TIME" (DMs (mergeMs env))]
        ∧ metadata done = metadata jobDoc
        ∧ payloadHmac done = payloadHmac jobDoc
  end.
Proof.
  intros Hid Hjob Hst finalKey outcome. subst outcome.
  destruct (processMerge env deps job children w) as [res w'] eqn:Hrun.
  destruct (processMerge_outcome _ _ _ _ _ _ _ _ _ Hid Hjob Hst Hrun) as [_ H].
  cbn [fst snd]. destruct res as [[k|]|e]; [|done|by destruct H].
  by destruct H as (_ & _ & Hd).
Qed.

Lemma processMerge_job_record_witness :
  storedStatus "j1" DONE
    (processMerge plainEnv plainDeps mergeJob [CPages [page 1]; CPages [page 0]]
       (world1 zeroMac RUNNING)).2
  ∧ storedStatus "j1" RUNNING
      (processMerge plainEnv plainDeps mergeJob [CPages [page 0]]
         (world1 zeroMac PENDING)).2.
Proof.
  split.
  - pose proof (processMerge_job_record plainEnv plainDeps mergeJob "j1"
                  (job1 zeroMac RUNNING) [CPages [page 1]; CPages [page 0]]
                  (world1 zeroMac RUNNING) eq_refl eq_refl
                  ltac:(discriminate)) as H.
    cbn zeta in H.
    destruct (processMerge plainEnv plainDeps mergeJob [CPages [page 1]; CPages [page 0]]
                (world1 zeroMac RUNNING)) as [[r|e] w'] eqn:E; [|by vm_compute in E].
    destruct H as (done & mid & Hj & Hs & _).
    unfold storedStatus. cbn [fst snd] in *. by rewrite Hj, <- Hs.
  - pose proof (processMerge_job_record plainEnv plainDeps mergeJob "j1"
                  (job1 zeroMac PENDING) [CPages [page 0]]
                  (world1 zeroMac PENDING) eq_refl eq_refl
                  ltac:(discriminate)) as H.
    cbn zeta in H.
    destruct (processMerge plainEnv plainDeps mergeJob [CPages [page 0]]
                (world1 zeroMac PENDING)) as [[r|e] w'] eqn:E; [by vm_compute in E|].
    exact H.
Defined.

End MergeOutcome.

Section Progress.
Import Scheduler VectorPdfWorker SchedulerVocabulary SchedulerScenarios WorkerVocabulary.

Lemma clamp_progress p q :
  (p ≤ 100)%Z → (p ≤ Z.max 0 (Z.min 100 (Z.max p q)) ≤ 100)%Z.
Proof. lia. Qed.

Lemma render_pct_le_80 i total :
  (Z.min (Z.max 0 (i + 1)) total * 80 / Z.max 1 total ≤ 80)%Z.
Proof.
  destruct (Z.le_gt_cases 1 total).
  - rewrite (Z.max_r 1 total) by lia. apply Z.div_le_upper_bound; lia.
  - rewrite (Z.max_l 1 total) by lia. rewrite Z.div_1_r. lia.
Qed.

(** X13.  The page loop of [processBatch] only moves the progress forward
    and never beyond 80: after any number of rendered pages the progress is
    at least what it was and at most [max(progress, 80)], and the job kept
    its status, payload and output, with an audit trail that only grew. *)
Theorem render_progress_stays_below_80 deps id total idxs j out w :
  (progress j ≤ 100)%Z →
  match (renderBatchPages deps id total (j, out) idxs w).1 with
  | Ok (j', out') =>
      (progress j ≤ progress j' ≤ Z.max (progress j) 80)%Z
      ∧ furtherAlong j j'
      ∧ length out' = (length out + length idxs)%nat
  | Throw _ => True
  end.
Proof.
  revert j out w. induction idxs as [|i idxs IH]; intros j out w Hp.
  - simpl. split_and!; [lia|lia|apply furtherAlong_refl|lia].
  - cbn [renderBatchPages]. unfold andThen at 1. unfold renderBatchPage.
    unfold andThen at 1. unfold lift.
    destruct (createSinglePage deps (metadata j) i) as [bytes|e]; [|done].
    destruct (startsWith "%PDF-" bytes); cbn [negb]; [|done].
    unfold updateProgress, andThen, save, modify, ret. cbv beta iota.
    set (pct := (Z.min (Z.max 0 (i + 1)) total * 80 / Z.max 1 total)%Z).
    pose proof (render_pct_le_80 i total) as Hpct. fold pct in Hpct.
    set (p1 := Z.max 0 (Z.min 100 (Z.max (progress j) pct))).
    set (j1 := push_audit (mkAudit "PAGE_RENDERED" (DPageIndex i)) (set_progress p1 j)).
    assert (Hp1 : (progress j ≤ p1 ≤ 100 ∧ p1 ≤ Z.max (progress j) 80)%Z)
      by (subst p1; lia).
    match goal with |- context [renderBatchPages deps id total (j1, ?o1) idxs ?w1] =>
      pose proof (IH j1 o1 w1) as Hrec;
      destruct (renderBatchPages deps id total (j1, o1) idxs w1) as [[[j' out']|e] w']
    end; [|done].
    cbn [fst] in *. destruct Hrec as (Hq & Hf & Hl); [simpl; lia|].
    change (progress j1) with p1 in Hq.
    split_and!; [lia|lia| |].
    + eapply furtherAlong_trans; [|exact Hf]. apply furtherAlong_update.
    + rewrite Hl, length_app. simpl. lia.
Qed.

Lemma render_progress_stays_below_80_witness :
  match (renderBatchPages plainDeps "j1" 2 (job1 zeroMac RUNNING, []) [0; 1]%Z
           (world1 zeroMac RUNNING)).1 with
  | Ok (j', out') =>
      (0 ≤ progress j' ≤ Z.max 0 80)%Z
      ∧ furtherAlong (job1 zeroMac RUNNING) j'
      ∧ length out' = (0 + 2)%nat
  | Throw _ => True
  end.
Proof.
  apply (render_progress_stays_below_80 plainDeps "j1" 2 [0; 1]%Z
           (job1 zeroMac RUNNING) [] (world1 zeroMac RUNNING)).
  simpl. lia.
Defined.

Lemma merge_pct_le_95 (i len : nat) :
  (i < len)%nat →
  (80 ≤ 80 + (Z.of_nat i + 1) * 15 / Z.max 1 (Z.of_nat len) ≤ 95)%Z.
Proof.
  intros Hi. rewrite Z.max_r by lia.
  assert (0 ≤ (Z.of_nat i + 1) * 15 / Z.of_nat len ≤ 15)%Z; [|lia].
  split; [apply Z.div_pos; lia|apply Z.div_le_upper_bound; lia].
Qed.

(** X31.  With the job store up and a job whose progress is at most 100,
    the merge loop of [processMerge] only moves the progress forward and
    never beyond 95: when it completes on the slots of the sparse array, the
    progress is at least what it was and at most [max(progress, 95)]. *)
Theorem merge_progress_stays_below_95 env deps id slots j merged w :
  (progress j ≤ 100)%Z →
  match (mergeLoop env deps id (length slots) 0 slots j merged w).1 with
  | Ok (j', _) => (progress j ≤ progress j' ≤ Z.max (progress j) 95)%Z
  | Throw _ => True
  end.
Proof.
  assert (∀ len slots' i j merged w,
            (i + length slots' = len)%nat → (progress j ≤ 100)%Z →
            match (mergeLoop env deps id len i slots' j merged w).1 with
            | Ok (j', _) => (progress j ≤ progress j' ≤ Z.max (progress j) 95)%Z
            | Throw _ => True
            end) as Hgen.
  { intros len slots'. induction slots' as [|slot slots' IH]; intros i j0 m0 w0 Hlen Hp.
    - simpl. lia.
    - cbn [mergeLoop].
      destruct ((0 <? maxMergeMs env)%Z && (maxMergeMs env <? elapsedMs env i)%Z);
        [done|].
      unfold andThen at 1. unfold lift.
      destruct (loadFirstPage deps (default "" slot)) as [p|e]; [|done].
      unfold andThen at 1. simpl in Hlen.
      destruct ((i =? 0)%nat || (i =? len - 1)%nat || (i mod 10 =? 0)%nat).
      + unfold updateProgress, andThen, save, modify, ret. cbv beta iota.
        pose proof (merge_pct_le_95 i len ltac:(lia)) as Hpct.
        set (pct := (80 + (Z.of_nat i + 1) * 15 / Z.max 1 (Z.of_nat len))%Z) in *.
        set (p1 := Z.max 0 (Z.min 100 (Z.max (progress j0) pct))).
        set (j1 := push_audit (mkAudit "MERGE_PROGRESS" (DMergedPages (Z.of_nat i + 1)))
                     (set_progress p1 j0)).
        assert (Hp1 : (progress j0 ≤ p1 ≤ 100 ∧ p1 ≤ Z.max (progress j0) 95)%Z)
          by (subst p1; lia).
        match goal with |- context [mergeLoop env deps id len (S i) slots' j1 ?m1 ?w1] =>
          pose proof (IH (S i) j1 m1 w1 ltac:(lia)) as Hrec;
          destruct (mergeLoop env deps id len (S i) slots' j1 m1 w1) as [[[j' m']|e] w']
        end; [|done].
        cbn [fst] in *. change (progress j1) with p1 in Hrec. lia.
      + unfold ret at 1. apply IH; [lia|done]. }
  intros Hp. by apply Hgen.
Qed.

Lemma merge_progress_stays_below_95_witness :
  match (mergeLoop plainEnv plainDeps "j1" 2 0 [Some "%PDF-a"; Some "%PDF-b"]
           (job1 zeroMac RUNNING) [] (world1 zeroMac RUNNING)).1 with
  | Ok (j', _) => (0 ≤ progress j' ≤ Z.max 0 95)%Z
  | Throw _ => True
  end.
Proof.
  apply (merge_progress_stays_below_95 plainEnv plainDeps "j1"
           [Some "%PDF-a"; Some "%PDF-b"] (job1 zeroMac RUNNING) []
           (world1 zeroMac RUNNING)).
  simpl. lia.
Defined.

End Progress.

Section MacRoundTrip.

(** X14.  [verifyJobPayload] answers [true] exactly on the MAC that
    [signJobPayload] computes for the payload under the configured secret. *)
Theorem verifyJobPayload_accepts_the_signature {P} (c : Hmac.Crypto P) secret payload mac :
  Hmac.verifyJobPayload c secret payload mac = Ok true
  ↔ Hmac.signJobPayload c secret payload = Ok mac.
Proof.
  unfold Hmac.verifyJobPayload.
  destruct (Hmac.signJobPayload c secret payload) as [actual|e]; simpl; [|done].
  unfold Hmac.timingSafeEqual.
  destruct (String.length actual =? String.length mac)%nat eqn:Hlen.
  - destruct (String.eqb_spec actual mac) as [->|Hne]; [done|].
    split; [done|]. intros [= ?]. done.
  - split; [done|]. intros [= ->]. by rewrite Nat.eqb_refl in Hlen.
Qed.

End MacRoundTrip.

Section AdmissionOutcomes.
Import Scheduler VectorPdfWorker VectorJobRoutes SchedulerVocabulary SchedulerScenarios.
Import LockVocabulary WorkerVocabulary AdmissionScenarios.

Lemma scheduler_with_redis_id (w : World) : with_redis (redis w) w = w.
Proof. by destruct w. Qed.

(** Unless it answers [{1, jobId}], the acquire script has written nothing. *)
Lemma ACQUIRE_not_acquired now k1 k2 k3 jobId ttl maxActive r code_ arg r' :
  ACQUIRE_RENDER_LOCK_LUA now k1 k2 k3 jobId ttl maxActive r = (Some (code_, arg), r') →
  code_ ≠ 1%Z → r' = r.
Proof.
  unfold ACQUIRE_RENDER_LOCK_LUA.
  destruct (Redis.EXISTS now k1 r); [by intros [= _ _ <-]|].
  destruct (if (0 <? maxActive)%Z then _ else _) as [[]|];
    [by intros [= _ _ <-]| |by intros [= <-]].
  destruct (Redis.INCR _ _ _); [|done]. by intros [= <- _ _].
Qed.

Lemma ACQUIRE_takes_free_reply now d jobId ttl maxActive r a :
  Redis.EXISTS now (lockKey d) r = false →
  activeCount now r = Some a →
  (maxActive ≤ 0 ∨ a < maxActive)%Z →
  (ACQUIRE_RENDER_LOCK_LUA now (lockKey d) activeKey (memberKey jobId) jobId
     ttl maxActive r).1 = Some (1%Z, jobId).
Proof.
  intros Hfree Ha Hcap.
  destruct (ACQUIRE_path_count now d jobId ttl r a Ha) as (r2 & Hincr & _).
  unfold activeCount in Ha. unfold ACQUIRE_RENDER_LOCK_LUA. rewrite Hfree, Ha.
  assert ((if (0 <? maxActive)%Z then Some (maxActive <=? a)%Z else Some false)
          = Some false) as ->.
  { destruct (Z.ltb_spec 0 maxActive); [|done].
    destruct (Z.leb_spec maxActive a); [lia|done]. }
  by rewrite Hincr.
Qed.

Lemma createAndEnqueue_answers env deps m w resp w' :
  createAndEnqueue env deps m w = (Ok resp, w') →
  ∃ k mac,
    sourcePdfKey m = Some k
    ∧ Hmac.signJobPayload (crypto deps) (secret env) m = Ok mac
    ∧ jobs w !! newJobId env = None
    ∧ resp = Created (newJobId env) PENDING
    ∧ jobs w' !! newJobId env
      = Some (mkPrintJob (requestUser env) k m mac PENDING 0
                (or_num (totalPages_ m) 1)
                (mkOutput None None None) (mkJobError None None)
                [mkAudit "JOB_CREATED" (DTotalPages (or_num (totalPages_ m) 1));
                 mkAudit "JOB_ENQUEUED" DNull])
    ∧ (∃ flow, flows w' = flows w ++ [flow]
               ∧ flow_printJobId flow = newJobId env
               ∧ flow_total flow = or_num (Some (or_num (totalPages_ m) 1)) 1)
    ∧ redis w' = redis w ∧ blobs w' = blobs w.
Proof.
  unfold createAndEnqueue. unfold andThen at 1. unfold lift.
  destruct (Hmac.signJobPayload (crypto deps) (secret env) m) as [mac|e]; [|done].
  unfold andThen at 1. unfold createJob.
  destruct (sourcePdfKey m) as [k|]; [|done].
  destruct (truthy_string k); cbn [negb]; [|done].
  destruct (jobs w !! newJobId env) eqn:Hfresh; [done|].
  unfold andThen at 1. unfold enqueueVectorJobFlow.
  destruct (producer env); cbn [negb]; [|done].
  destruct (_ <? 0)%Z; [done|].
  unfold modify, andThen, save, modify, ret. intros [= <- <-].
  exists k, mac. split_and!; try done.
  - simpl. by rewrite lookup_insert_eq.
  - eexists. simpl. split_and!; reflexivity.
Qed.

Lemma createAndEnqueue_redis env deps m w :
  redis (createAndEnqueue env deps m w).2 = redis w.
Proof.
  unfold createAndEnqueue. unfold andThen at 1. unfold lift.
  destruct (Hmac.signJobPayload (crypto deps) (secret env) m) as [mac|e]; [|done].
  unfold andThen at 1. unfold createJob.
  destruct (sourcePdfKey m) as [k|]; [|done].
  destruct (truthy_string k); cbn [negb]; [|done].
  destruct (jobs w !! newJobId env) eqn:Hfresh; [done|].
  unfold andThen at 1. unfold enqueueVectorJobFlow.
  destruct (producer env); cbn [negb]; [|done].
  by destruct (_ <? 0)%Z.
Qed.

Lemma finish_answers env deps pre d m w resp w' :
  finish env deps pre d m w = (resp, w') →
  (∃ id st, resp = Created id st) ∨ (∃ msg, resp = ServerError msg).
Proof.
  unfold finish.
  destruct (createAndEnqueue env deps m w) as [[r|e] w1] eqn:E.
  - intros [= <- <-]. left.
    destruct (createAndEnqueue_answers _ _ _ _ _ _ E) as (?&?&_&_&_&->&_). eauto.
  - unfold onError. intros [= <- _]. right. eauto.
Qed.

(** X15.  Only the answers 201 and 500 of [POST /jobs] come with a change:
    a 400, a 429 and the 200 that names the job already holding the lock
    leave the job collection, the queue, the blobs and the cache as they
    were. *)
Theorem postJobs_other_answers_change_nothing env deps m w :
  match (postJobs env deps m w).1 with
  | Created _ _ | ServerError _ => True
  | BadRequest _ | TooManyRequests _ | OkJson _ _ => (postJobs env deps m w).2 = w
  end.
Proof.
  destruct (postJobs env deps m w) as [resp w'] eqn:E. revert E. cbn [fst snd].
  unfold postJobs.
  destruct (validateVectorMetadata deps m); cbn [negb]; [|by intros [= <- <-]].
  destruct (assertVectorJobEnqueueable deps m) as [[]|e].
  2:{ destruct (String.eqb _ _); [by intros [= <- <-]|].
      unfold onError. by intros [= <- _]. }
  destruct (truthy_string (lockDocumentId m "")); cbn [negb]; [|by intros [= <- <-]].
  assert (Hfin : ∀ pre w0,
            finish env deps pre (lockDocumentId m "") m w0 = (resp, w') →
            match resp with
            | Created _ _ | ServerError _ => True
            | _ => w' = w
            end).
  { intros pre w0 Hf. by destruct (finish_answers _ _ _ _ _ _ _ _ Hf) as [(?&?&->)|(?&->)]. }
  destruct (client env); [|apply Hfin].
  unfold acquire. destruct (eval_throws env).
  { apply Hfin. }
  destruct (ACQUIRE_RENDER_LOCK_LUA _ _ _ _ _ _ _ _) as [[[code_ arg]|] r] eqn:Hacq;
    [|apply Hfin].
  destruct (Z.eqb_spec code_ (-1)) as [->|Hm1].
  { intros [= <- <-]. apply ACQUIRE_not_acquired in Hacq as ->; [|done].
    apply scheduler_with_redis_id. }
  destruct (Z.eqb_spec code_ 0) as [->|H0]; cbn [andb]; [|apply Hfin].
  destruct (truthy_string (trim arg)); [|apply Hfin].
  intros [= <- <-]. apply ACQUIRE_not_acquired in Hacq as ->; [|done].
  apply scheduler_with_redis_id.
Qed.

(** X16.  With the cap of active jobs reached, an admission for a document
    whose lock is free is answered 429 'Queue busy. Try again later.'; no
    job is created, nothing is enqueued and the cache is not written. *)
Theorem postJobs_queue_busy env deps m w a :
  validateVectorMetadata deps m = true →
  assertVectorJobEnqueueable deps m = Ok tt →
  truthy_string (lockDocumentId m "") = true →
  client env = true → eval_throws env = false →
  Redis.EXISTS (now env) (lockKey (lockDocumentId m "")) (redis w) = false →
  activeCount (now env) (redis w) = Some a →
  (0 < MAX_ACTIVE_JOBS env ≤ a)%Z →
  postJobs env deps m w = (TooManyRequests "Queue busy. Try again later.", w).
Proof.
  intros Hv He Hd Hc Ht Hfree Ha Hcap. unfold postJobs.
  rewrite Hv, He, Hd, Hc. cbn [negb]. unfold acquire. rewrite Ht.
  rewrite (ACQUIRE_throttled _ _ _ _ _ _ _ _ a Hfree Ha Hcap). simpl.
  by rewrite scheduler_with_redis_id.
Qed.

Lemma postJobs_queue_busy_witness :
  postJobs cappedEnv plainDeps meta1 oneActive
  = (TooManyRequests "Queue busy. Try again later.", oneActive).
Proof.
  apply (postJobs_queue_busy cappedEnv plainDeps meta1 oneActive 1);
    [reflexivity..|simpl; lia].
Defined.

(** X17.  Whenever [POST /jobs] answers 201, it answers with the fresh job
    id and PENDING, that id was not in use, and the stored record is PENDING
    at progress 0 with the request's metadata, the MAC [signJobPayload]
    computes for it, and the audit trail JOB_CREATED, JOB_ENQUEUED; exactly
    one flow, for that job, went to the queue, and no blob was written. *)
Theorem postJobs_created_record env deps m w :
  match postJobs env deps m w with
  | (Created id st, w') =>
      id = newJobId env ∧ st = PENDING
      ∧ jobs w !! id = None
      ∧ (∃ k mac,
           sourcePdfKey m = Some k
           ∧ Hmac.signJobPayload (crypto deps) (secret env) m = Ok mac
           ∧ jobs w' !! id
             = Some (mkPrintJob (requestUser env) k m mac PENDING 0
                       (or_num (totalPages_ m) 1)
                       (mkOutput None None None) (mkJobError None None)
                       [mkAudit "JOB_CREATED" (DTotalPages (or_num (totalPages_ m) 1));
                        mkAudit "JOB_ENQUEUED" DNull]))
      ∧ (∃ flow, flows w' = flows w ++ [flow] ∧ flow_printJobId flow = id)
      ∧ blobs w' = blobs w
  | _ => True
  end.
Proof.
  destruct (postJobs env deps m w) as [resp w'] eqn:E. revert E.
  unfold postJobs.
  destruct (validateVectorMetadata deps m); cbn [negb]; [|by intros [= <- <-]].
  destruct (assertVectorJobEnqueueable deps m) as [[]|e].
  2:{ destruct (String.eqb _ _); [by intros [= <- <-]|].
      unfold onError. by intros [= <- _]. }
  destruct (truthy_string (lockDocumentId m "")); cbn [negb]; [|by intros [= <- <-]].
  assert (Hfin : ∀ pre w0,
            jobs w0 = jobs w → flows w0 = flows w → blobs w0 = blobs w →
            finish env deps pre (lockDocumentId m "") m w0 = (resp, w') →
            match resp with
            | Created id st =>
                id = newJobId env ∧ st = PENDING
                ∧ jobs w !! id = None
                ∧ (∃ k mac,
                     sourcePdfKey m = Some k
                     ∧ Hmac.signJobPayload (crypto deps) (secret env) m = Ok mac
                     ∧ jobs w' !! id
                       = Some (mkPrintJob (requestUser env) k m mac PENDING 0
                                 (or_num (totalPages_ m) 1)
                                 (mkOutput None None None) (mkJobError None None)
                                 [mkAudit "JOB_CREATED"
                                    (DTotalPages (or_num (totalPages_ m) 1));
                                  mkAudit "JOB_ENQUEUED" DNull]))
                ∧ (∃ flow, flows w' = flows w ++ [flow] ∧ flow_printJobId flow = id)
                ∧ blobs w' = blobs w
            | _ => True
            end).
  { intros pre w0 Hj Hf Hb. unfold finish.
    destruct (createAndEnqueue env deps m w0) as [[r|e] w1] eqn:Hce.
    - intros [= <- <-].
      destruct (createAndEnqueue_answers _ _ _ _ _ _ Hce)
        as (k & mac & Hk & Hmac & Hfresh & -> & Hjob & (flow & Hfl & Hfid & _) & _ & Hbl).
      split_and!; try done; [congruence|by exists k, mac| |congruence].
      exists flow. split; [congruence|done].
    - unfold onError. by intros [= <- _]. }
  destruct (client env); [|by apply Hfin].
  unfold acquire. destruct (eval_throws env).
  { by apply Hfin. }
  destruct (ACQUIRE_RENDER_LOCK_LUA _ _ _ _ _ _ _ _) as [[[code_ arg]|] r] eqn:Hacq;
    [|by apply Hfin].
  destruct (code_ =? -1)%Z; [by intros [= <- <-]|].
  destruct ((code_ =? 0)%Z && truthy_string (trim arg)); [by intros [= <- <-]|].
  by apply Hfin.
Qed.

(** X18.  A job that [POST /jobs] admitted passes the guards of the worker
    under the same configuration: the stored record is not expired, its
    metadata is valid and [verifyJobPayload] accepts its MAC. *)
Theorem admitted_job_passes_worker_guards env deps m w :
  match postJobs env deps m w with
  | (Created id _, w') =>
      ∃ jobDoc,
        jobs w' !! id = Some jobDoc
        ∧ job_status jobDoc = PENDING
        ∧ validateVectorMetadata deps (metadata jobDoc) = true
        ∧ Hmac.verifyJobPayload (crypto deps) (secret env) (metadata jobDoc)
            (payloadHmac jobDoc) = Ok true
  | _ => True
  end.
Proof.
  destruct (postJobs env deps m w) as [resp w'] eqn:E. revert E.
  unfold postJobs.
  destruct (validateVectorMetadata deps m) eqn:Hvalid; cbn [negb];
    [|by intros [= <- <-]].
  destruct (assertVectorJobEnqueueable deps m) as [[]|e].
  2:{ destruct (String.eqb _ _); [by intros [= <- <-]|].
      unfold onError. by intros [= <- _]. }
  destruct (truthy_string (lockDocumentId m "")); cbn [negb]; [|by intros [= <- <-]].
  assert (Hfin : ∀ pre w0,
            finish env deps pre (lockDocumentId m "") m w0 = (resp, w') →
            match resp with
            | Created id _ =>
                ∃ jobDoc,
                  jobs w' !! id = Some jobDoc
                  ∧ job_status jobDoc = PENDING
                  ∧ validateVectorMetadata deps (metadata jobDoc) = true
                  ∧ Hmac.verifyJobPayload (crypto deps) (secret env) (metadata jobDoc)
                      (payloadHmac jobDoc) = Ok true
            | _ => True
            end).
  { intros pre w0. unfold finish.
    destruct (createAndEnqueue env deps m w0) as [[r|e] w1] eqn:Hce.
    - intros [= <- <-].
      destruct (createAndEnqueue_answers _ _ _ _ _ _ Hce)
        as (k & mac & Hk & Hmac & Hfresh & -> & Hjob & _).
      eexists. split; [exact Hjob|]. cbn [job_status metadata payloadHmac].
      split_and!; try done.
      unfold Hmac.verifyJobPayload. rewrite Hmac. cbn [bind].
      unfold Hmac.timingSafeEqual. by rewrite Nat.eqb_refl, String.eqb_refl.
    - unfold onError. by intros [= <- _]. }
  destruct (client env); [|by apply Hfin].
  unfold acquire. destruct (eval_throws env).
  { by apply Hfin. }
  destruct (ACQUIRE_RENDER_LOCK_LUA _ _ _ _ _ _ _ _) as [[[code_ arg]|] r] eqn:Hacq;
    [|by apply Hfin].
  destruct (code_ =? -1)%Z; [by intros [= <- <-]|].
  destruct ((code_ =? 0)%Z && truthy_string (trim arg)); [by intros [= <- <-]|].
  by apply Hfin.
Qed.

(** X19.  An admission that took the lock and then fails to create or
    enqueue the job is answered 500 with the error's message, and gives back
    what it took: the lock of the document and the membership key are gone
    and the counter of active jobs is back at its value. *)
Theorem postJobs_failure_releases_lock env deps m w a e :
  let d := lockDocumentId m "" in
  validateVectorMetadata deps m = true →
  assertVectorJobEnqueueable deps m = Ok tt →
  truthy_string d = true → truthy_string (newJobId env) = true →
  client env = true → eval_throws env = false →
  Redis.EXISTS (now env) (lockKey d) (redis w) = false →
  activeCount (now env) (redis w) = Some a → (0 ≤ a)%Z →
  (MAX_ACTIVE_JOBS env ≤ 0 ∨ a < MAX_ACTIVE_JOBS env)%Z →
  Redis.ttl_of (now env) activeKey (redis w) = None →
  (0 < LOCK_TTL_SECONDS env)%Z →
  (∀ r, (createAndEnqueue env deps m (with_redis r w)).1 = Throw e) →
  let out := postJobs env deps m w in
  out.1 = ServerError (failureMessage e)
  ∧ lockState (now env) d (newJobId env) (redis out.2) = (None, false, Some a).
Proof.
  intros d Hv He Hd Hid Hc Ht Hfree Ha Ha0 Hcap Hnoexp Httl Hfail out. subst out.
  unfold postJobs. rewrite Hv, He. fold d. rewrite Hd, Hc. cbn [negb].
  unfold acquire. rewrite Ht.
  pose proof (ACQUIRE_takes_free_reply (now env) d (newJobId env)
                (LOCK_TTL_SECONDS env) (MAX_ACTIVE_JOBS env) (redis w) a
                Hfree Ha Hcap) as Hreply.
  pose proof (ACQUIRE_lockState_later (now env) (now env) d (newJobId env)
                (LOCK_TTL_SECONDS env) (MAX_ACTIVE_JOBS env) (redis w) a
                Hfree Ha Hcap Hnoexp ltac:(lia)) as Hst.
  destruct (ACQUIRE_RENDER_LOCK_LUA _ _ _ _ _ _ _ _) as [reply r1].
  cbn [fst snd] in Hreply, Hst. subst reply. cbn [Z.eqb andb].
  unfold finish.
  pose proof (Hfail r1) as Hthrow.
  pose proof (createAndEnqueue_redis env deps m (with_redis r1 w)) as Hredis.
  destruct (createAndEnqueue env deps m (with_redis r1 w)) as [res w2].
  cbn [fst snd] in Hthrow, Hredis. subst res.
  unfold onError. rewrite Hc, Hid, Hd, Ht. cbn [andb negb fst snd redis with_redis].
  split; [done|]. rewrite Hredis. cbn [redis with_redis].
  unfold lockState in Hst. injection Hst as Hl Hm Hcnt.
  rewrite (RELEASE_lockState (now env) d (newJobId env) r1 (a + 1)) by done.
  rewrite Hl, Hm, String.eqb_refl.
  destruct (Z.ltb_spec 0 (a + 1)); [|lia]. simpl. do 2 f_equal. lia.
Qed.

Lemma postJobs_failure_releases_lock_witness :
  (postJobs noProducerEnv plainDeps meta1 oneActive).1
  = ServerError "Redis unavailable: cannot enqueue vector jobs (BullMQ disabled)"
  ∧ lockState 0 "doc1" "65f000000000000000000002"
      (redis (postJobs noProducerEnv plainDeps meta1 oneActive).2)
    = (None, false, Some 1%Z).
Proof.
  apply (postJobs_failure_releases_lock noProducerEnv plainDeps meta1 oneActive 1
           (Error "Redis unavailable: cannot enqueue vector jobs (BullMQ disabled)"));
    [reflexivity | reflexivity | reflexivity | reflexivity | reflexivity
    | reflexivity | reflexivity | reflexivity | lia | simpl; lia | reflexivity
    | simpl; lia | intros r; reflexivity].
Defined.

End AdmissionOutcomes.

Section ResultRoute.
Import Scheduler VectorPdfWorker VectorJobRoutes SchedulerVocabulary SchedulerScenarios.
Import WorkerVocabulary VectorJobResultRoute.

(** X20.  With the job store up ([findById] and [save] succeed), the
    result route after a merge: when [processMerge] returned, the
    route hands out a presigned URL for [documents/final/{jobId}.pdf] with
    the expiry the merge stored; when [processMerge] threw, the route answers
    409 'Job not completed'. *)
Theorem result_route_after_merge env deps job printJobId jobDoc children w b presign :
  data_printJobId job = Some printJobId →
  jobs w !! printJobId = Some jobDoc →
  job_status jobDoc ≠ EXPIRED →
  truthy_string b = true →
  let outcome := processMerge env deps job children w in
  getJobResult (Some b) presign printJobId outcome.2
  = match outcome.1 with
    | Ok _ =>
        FileUrl (presign b ("documents/final/" +:+ printJobId +:+ ".pdf")%string)
                (Some (nowMs env + FINAL_PDF_TTL_HOURS env * 60 * 60 * 1000)%Z)
    | Throw _ => Conflict "Job not completed"
    end.
Proof.
  intros Hid Hjob Hst Hb outcome. subst outcome.
  destruct (processMerge env deps job children w) as [res w'] eqn:Hrun.
  destruct (processMerge_outcome _ _ _ _ _ _ _ _ _ Hid Hjob Hst Hrun) as [_ H].
  cbn [fst snd]. unfold getJobResult.
  destruct res as [[k|]|e]; [|done|].
  - destruct H as (_ & _ & done & mid & -> & Hs & _ & Ho & _).
    rewrite Hs, Ho, Hb. cbn [key expiresAt or_string].
    rewrite bool_decide_eq_true_2 by done. cbn [negb orb].
    set (finalKey := ("documents/final/" +:+ printJobId +:+ ".pdf")%string).
    assert (Htruthy : truthy_string finalKey = true) by done.
    by rewrite Htruthy.
  - destruct H as [_ Hs]. unfold storedStatus in Hs.
    destruct (jobs w' !! printJobId) as [j|]; [|done].
    injection Hs as Hs. rewrite Hs.
    by rewrite bool_decide_eq_false_2.
Qed.

Lemma result_route_after_merge_witness :
  getJobResult (Some "bucket") (λ b k, ("https://" +:+ b +:+ "/" +:+ k)%string) "j1"
    (processMerge plainEnv plainDeps mergeJob [CPages [page 1]; CPages [page 0]]
       (world1 zeroMac RUNNING)).2
  = FileUrl "https://bucket/documents/final/j1.pdf" (Some 86400000%Z)
  ∧ getJobResult (Some "bucket") (λ b k, ("https://" +:+ b +:+ "/" +:+ k)%string) "j1"
      (processMerge plainEnv plainDeps mergeJob [CPages [page 0]]
         (world1 zeroMac RUNNING)).2
    = Conflict "Job not completed".
Proof.
  split.
  - exact (result_route_after_merge plainEnv plainDeps mergeJob "j1"
             (job1 zeroMac RUNNING) [CPages [page 1]; CPages [page 0]]
             (world1 zeroMac RUNNING) "bucket"
             (λ b k, ("https://" +:+ b +:+ "/" +:+ k)%string)
             eq_refl eq_refl ltac:(discriminate) eq_refl).
  - exact (result_route_after_merge plainEnv plainDeps mergeJob "j1"
             (job1 zeroMac RUNNING) [CPages [page 0]]
             (world1 zeroMac RUNNING) "bucket"
             (λ b k, ("https://" +:+ b +:+ "/" +:+ k)%string)
             eq_refl eq_refl ltac:(discriminate) eq_refl).
Defined.

End ResultRoute.

Section QuotaExtras.
Import Quota QuotaVocabulary Scenarios QuotaSyncVocabulary.

Lemma graceful_ret {A} (a : A) : graceful (ret a).
Proof. by intros w. Qed.

Lemma graceful_throw {A} (e : exn) :
  e ≠ QuotaError BAD_REQUEST → graceful (throw (A := A) e).
Proof. intros He w [= ?]. done. Qed.

Lemma graceful_andThen {A B} (m : M A) (k : A → M B) :
  graceful m → (∀ a, graceful (k a)) → graceful (andThen m k).
Proof.
  intros Hm Hk w. unfold andThen. specialize (Hm w).
  destruct (m w) as [[a|e] w1]; [apply Hk|].
  simpl in *. intros [= ->]. by apply Hm.
Qed.

Lemma graceful_try_catch {A} (m : M A) (h : exn → M A) :
  (∀ e, graceful (h e)) → graceful (try_catch m h).
Proof.
  intros Hh w. unfold try_catch. destruct (m w) as [[a|e] w1]; [done|apply Hh].
Qed.

Lemma graceful_set_nx env k : graceful (redis_set_nx env k).
Proof.
  intros w. unfold redis_set_nx. destruct (set_throws env); [done|].
  by destruct (Redis.SET_NX_EX _ _ _ _ _).
Qed.

Lemma graceful_eval b k : graceful (redis_eval_decrement b k).
Proof.
  intros w. unfold redis_eval_decrement. destruct b; [done|].
  by destruct (ATOMIC_PRINT_DECREMENT _ _).
Qed.

Lemma graceful_del env k : graceful (redis_del env k).
Proof. intros w. unfold redis_del. by destruct (del_throws env). Qed.

Lemma graceful_seed env d u n : graceful (seedRedisRemaining env d u n).
Proof. intros w. unfold seedRedisRemaining. by destruct (hset_throws env). Qed.

Lemma graceful_fallback env d u :
  graceful (PrintQuotaService.dbFallbackOptimisticConsume env d u).
Proof.
  intros w. unfold PrintQuotaService.dbFallbackOptimisticConsume.
  destruct (db w !! (d, u)) as [a|]; [|done].
  destruct (revoked a); [done|]. cbv zeta. by destruct (_ <? _)%Z.
Qed.

Lemma graceful_load d u :
  graceful (PrintQuotaService.loadAndComputeRemainingFromDb d u).
Proof.
  intros w. unfold PrintQuotaService.loadAndComputeRemainingFromDb.
  destruct (db w !! (d, u)) as [a|]; [|done]. by destruct (revoked a).
Qed.

Lemma graceful_writeBehindDbConsume env d u :
  graceful (PrintQuotaService.writeBehindDbConsume env d u).
Proof.
  intros w. unfold PrintQuotaService.writeBehindDbConsume.
  destruct (db w !! (d, u)) as [a|]; [|done]. by destruct (revoked a).
Qed.

Lemma graceful_dbOptimisticConsume env d u :
  graceful (PrintQuotaServiceV2.dbOptimisticConsume env d u).
Proof.
  intros w. unfold PrintQuotaServiceV2.dbOptimisticConsume.
  destruct (db w !! (d, u)) as [a|]; [|done]. cbv zeta. by destruct (_ && _).
Qed.

(** With a request id that is not blank, neither engine fails with
    BAD_REQUEST. *)
Lemma graceful_with_request_id env d u requestId :
  truthy_string (trim (or_string requestId "")) = true →
  graceful (PrintQuotaService.assertAndConsumePrintQuota env d u requestId)
  ∧ graceful (PrintQuotaServiceV2.assertAndConsumePrintQuota env d u requestId).
Proof.
  intros Hrid. split.
  - unfold PrintQuotaService.assertAndConsumePrintQuota. rewrite Hrid. cbn [negb].
    destruct (client env); [|apply graceful_fallback].
    apply graceful_andThen.
    { apply graceful_try_catch. intros _. apply graceful_ret. }
    intros [reply|]; [|apply graceful_fallback].
    destruct (negb (truthy_string reply)); [apply graceful_ret|].
    apply graceful_andThen.
    { apply graceful_try_catch. intros _. apply graceful_ret. }
    intros [result0|]; [|apply graceful_fallback].
    apply graceful_andThen.
    { destruct (result0 =? -2)%Z; [|apply graceful_ret].
      apply graceful_andThen; [apply graceful_load|]. intros remaining.
      apply graceful_try_catch. intros _. apply graceful_ret. }
    intros [result_|]; [|apply graceful_fallback].
    destruct (result_ =? -1)%Z; [|apply graceful_writeBehindDbConsume].
    apply graceful_andThen.
    { apply graceful_try_catch. intros _. apply graceful_ret. }
    intros _. by apply graceful_throw.
  - unfold PrintQuotaServiceV2.assertAndConsumePrintQuota. rewrite Hrid. cbn [negb].
    destruct (client env); [|apply graceful_dbOptimisticConsume].
    apply graceful_try_catch. intros _. apply graceful_dbOptimisticConsume.
Qed.

(** X21.  Both engines fail with BAD_REQUEST exactly when the request id is
    missing or blank after [String.prototype.trim] (Unicode white space and
    line terminators included), and then before anything is read or written, whatever
    the state of the cache client. *)
Theorem bad_request_iff_blank_request_id env d u requestId w :
  let run (consume : Env → string → string → option string → M unit) :=
    ((consume env d u requestId w).1 = Throw (QuotaError BAD_REQUEST)
     ↔ trim (or_string requestId "") = "")
    ∧ (trim (or_string requestId "") = "" → (consume env d u requestId w).2 = w) in
  run PrintQuotaService.assertAndConsumePrintQuota
  ∧ run PrintQuotaServiceV2.assertAndConsumePrintQuota.
Proof.
  cbv zeta.
  destruct (truthy_string (trim (or_string requestId ""))) eqn:Hrid.
  - destruct (graceful_with_request_id env d u requestId Hrid) as [H1 H2].
    assert (Hne : trim (or_string requestId "") ≠ "")
      by (intros Heq; by rewrite Heq in Hrid).
    split; (split; [split; [intros Hbad|done]|done]).
    + by destruct (H1 w).
    + by destruct (H2 w).
  - assert (Heq : trim (or_string requestId "") = "")
      by (by destruct (trim (or_string requestId ""))).
    unfold PrintQuotaService.assertAndConsumePrintQuota,
      PrintQuotaServiceV2.assertAndConsumePrintQuota.
    rewrite Hrid. by cbn.
Qed.

Lemma effectiveQuota_backfillQuota a :
  effectiveQuota (backfillQuota a) = effectiveQuota a.
Proof. unfold backfillQuota, effectiveQuota. by destruct (printQuota a) eqn:E; simpl; rewrite ?E. Qed.

Lemma printsUsed_backfillQuota a : printsUsed (backfillQuota a) = printsUsed a.
Proof. unfold backfillQuota. by destruct (printQuota a). Qed.

Lemma revoked_backfillQuota a : revoked (backfillQuota a) = revoked a.
Proof. unfold backfillQuota. by destruct (printQuota a). Qed.

Lemma backfilled_grant (a : Access) (d u : string) (w w0 : World) :
  db w !! (d, u) = Some a →
  db w0 = (if is_null (printQuota a)
           then <[(d, u) := backfillQuota a]> (db w) else db w) →
  allowed d u w0 = Some (effectiveQuota a) ∧ spent d u w0 = Some (printsUsed a).
Proof.
  intros Ha Hw0. unfold allowed, spent. rewrite Hw0.
  destruct (is_null (printQuota a)).
  - rewrite lookup_insert_eq. simpl.
    by rewrite effectiveQuota_backfillQuota, printsUsed_backfillQuota.
  - by rewrite Ha.
Qed.

Lemma fallback_exact env d u w :
  exact_on_store d u w (PrintQuotaService.dbFallbackOptimisticConsume env d u w).
Proof.
  unfold exact_on_store, PrintQuotaService.dbFallbackOptimisticConsume.
  destruct (db w !! (d, u)) as [a|] eqn:Ha; [|done].
  destruct (revoked a); [done|]. cbv zeta.
  rewrite printsUsed_backfillQuota.
  set (w1 := if is_null (printQuota a)
             then with_db (<[(d, u) := backfillQuota a]> (db w)) w else w).
  destruct (backfilled_grant a d u w w1 Ha) as [Hq Hu];
    [subst w1; by destruct (is_null (printQuota a))|].
  assert (Hw : allowed d u w = Some (effectiveQuota a) ∧ spent d u w = Some (printsUsed a))
    by (unfold allowed, spent; by rewrite Ha).
  destruct Hw as [Hqw Huw].
  destruct (Z.ltb_spec (printsUsed a) (effectiveQuota a)) as [Hlt|Hge]; cbn [fst snd].
  - rewrite Hqw. split.
    + unfold allowed. simpl. rewrite lookup_insert_eq. simpl.
      unfold effectiveQuota at 1. simpl. fold (effectiveQuota (backfillQuota a)).
      by rewrite effectiveQuota_backfillQuota.
    + exists (printsUsed a), (effectiveQuota a). split_and!; try done.
      unfold spent. simpl. by rewrite lookup_insert_eq.
  - by rewrite Hq, Hu, Hqw, Huw.
Qed.

Lemma V2_fallback_exact env d u w :
  exact_on_store d u w (PrintQuotaServiceV2.dbOptimisticConsume env d u w).
Proof.
  unfold exact_on_store, PrintQuotaServiceV2.dbOptimisticConsume.
  destruct (db w !! (d, u)) as [a|] eqn:Ha; [|done]. cbv zeta.
  rewrite printsUsed_backfillQuota, revoked_backfillQuota.
  set (w1 := if is_null (printQuota a)
             then with_db (<[(d, u) := backfillQuota a]> (db w)) w else w).
  destruct (backfilled_grant a d u w w1 Ha) as [Hq Hu];
    [subst w1; by destruct (is_null (printQuota a))|].
  assert (Hw : allowed d u w = Some (effectiveQuota a) ∧ spent d u w = Some (printsUsed a))
    by (unfold allowed, spent; by rewrite Ha).
  destruct Hw as [Hqw Huw].
  destruct (revoked a); cbn [negb andb fst snd]; [by rewrite Hq, Hu, Hqw, Huw|].
  destruct (Z.ltb_spec (printsUsed a) (effectiveQuota a)) as [Hlt|Hge]; cbn [fst snd].
  - rewrite Hqw. split.
    + unfold allowed. simpl. rewrite lookup_insert_eq. simpl.
      unfold effectiveQuota at 1. simpl. fold (effectiveQuota (backfillQuota a)).
      by rewrite effectiveQuota_backfillQuota.
    + exists (printsUsed a), (effectiveQuota a). split_and!; try done.
      unfold spent. simpl. rewrite lookup_insert_eq. simpl.
      by rewrite printsUsed_backfillQuota.
  - by rewrite Hq, Hu, Hqw, Huw.
Qed.

(** X22.  Without a cache client, a call of either engine is exact on the
    durable store: it returns only after raising [printsUsed] of the grant by
    one, from a value below the quota; when it throws, [printsUsed] is what it
    was; the quota of the grant and the cache are never changed. *)
Theorem durable_path_is_exact t d u requestId w :
  truthy_string (trim (or_string requestId "")) = true →
  let a := PrintQuotaService.assertAndConsumePrintQuota (no_client t) d u requestId w in
  let b := PrintQuotaServiceV2.assertAndConsumePrintQuota (no_client t) d u requestId w in
  (exact_on_store d u w a ∧ redis a.2 = redis w)
  ∧ (exact_on_store d u w b ∧ redis b.2 = redis w).
Proof.
  intros Hrid a b. subst a b.
  unfold PrintQuotaService.assertAndConsumePrintQuota,
    PrintQuotaServiceV2.assertAndConsumePrintQuota.
  rewrite Hrid. cbn [negb client no_client].
  split_and!.
  - apply fallback_exact.
  - apply keeps_redis_fallback.
  - apply V2_fallback_exact.
  - apply keeps_redis_dbOptimisticConsume.
Qed.

Lemma durable_path_is_exact_witness :
  spent "d" "u"
    (PrintQuotaService.assertAndConsumePrintQuota (no_client 0) "d" "u" (Some "r1")
       (cold 2 0)).2 = Some 1%Z
  ∧ spent "d" "u"
      (PrintQuotaServiceV2.assertAndConsumePrintQuota (no_client 0) "d" "u" (Some "r1")
         (cold 2 2)).2 = Some 2%Z.
Proof.
  destruct (durable_path_is_exact 0 "d" "u" (Some "r1") (cold 2 0) eq_refl)
    as [[[_ H1] _] _].
  destruct (durable_path_is_exact 0 "d" "u" (Some "r1") (cold 2 2) eq_refl)
    as [_ [[_ H2] _]].
  split.
  - destruct H1 as (used & q & [= <-] & _ & _ & H). exact H.
  - exact H2.
Defined.

Lemma in_sync_remaining d u w a n :
  in_sync d u w → db w !! (d, u) = Some a →
  Redis.HGET_remaining (quotaKey d u) (redis w) = Some n →
  n = Z.max 0 (effectiveQuota a - printsUsed a).
Proof. intros H Ha Hn. by apply H. Qed.

Lemma HINCRBY_remaining_strs k d r :
  Redis.strs (Redis.HINCRBY_remaining k d r) = Redis.strs r.
Proof. unfold Redis.HINCRBY_remaining. by destruct (Redis.remaining r !! k). Qed.

Lemma EXISTS_strs t k r r' :
  Redis.strs r = Redis.strs r' → Redis.EXISTS t k r = Redis.EXISTS t k r'.
Proof. intros H. unfold Redis.EXISTS, Redis.GET. by rewrite H. Qed.

Lemma effectiveQuota_consumed t n x :
  effectiveQuota (set_lastPrintAt t (set_printsUsed n x)) = effectiveQuota x.
Proof. done. Qed.

Lemma cache_path_outcome t d u requestId w a res w' :
  let rid := trim (or_string requestId "") in
  truthy_string rid = true →
  Redis.EXISTS t (reqKey d u rid) (redis w) = false →
  db w !! (d, u) = Some a → revoked a = false →
  (usedPrints a ≤ printsUsed a)%Z →
  in_sync d u w →
  PrintQuotaService.assertAndConsumePrintQuota (healthy t) d u requestId w = (res, w') →
  in_sync d u w'
  ∧ allowed d u w' = Some (effectiveQuota a)
  ∧ (if (printsUsed a <? effectiveQuota a)%Z
     then res = Ok tt
          ∧ spent d u w' = Some (printsUsed a + 1)%Z
          ∧ Redis.HGET_remaining (quotaKey d u) (redis w')
            = Some (effectiveQuota a - printsUsed a - 1)%Z
          ∧ Redis.EXISTS t (reqKey d u rid) (redis w') = true
     else res = Throw (QuotaError LIMIT)
          ∧ spent d u w' = Some (printsUsed a)
          ∧ Redis.EXISTS t (reqKey d u rid) (redis w') = false).
Proof.
  intros rid Hrid Hfree Ha Hrev Hlegacy Hsync.
  unfold PrintQuotaService.assertAndConsumePrintQuota. fold rid.
  rewrite Hrid. cbn [negb client healthy].
  unfold andThen at 1. unfold try_catch at 1. unfold redis_set_nx.
  cbn [set_throws healthy now].
  rewrite (SET_NX_EX_free _ _ _ _ _ Hfree). cbn [truthy_string negb].
  set (w1 := with_redis _ w).
  assert (Hheld : Redis.EXISTS t (reqKey d u rid) (redis w1) = true).
  { subst w1. apply EXISTS_SET_EX. unfold IDEMPOTENCY_TTL_SECONDS. lia. }
  assert (Hdb1 : db w1 = db w) by done.
  assert (Hrem1 : Redis.HGET_remaining (quotaKey d u) (redis w1)
                  = Redis.HGET_remaining (quotaKey d u) (redis w)) by done.
  unfold andThen at 1. unfold try_catch at 1. unfold andThen at 1.
  unfold redis_eval_decrement at 1. cbn [eval_throws healthy].
  assert (Hq : allowed d u w = Some (effectiveQuota a)) by (unfold allowed; by rewrite Ha).
  destruct (Redis.HGET_remaining (quotaKey d u) (redis w)) as [n|] eqn:Hn.
  - (* the counter is cached *)
    pose proof (in_sync_remaining d u w a n Hsync Ha Hn) as Hnval.
    destruct (Z.ltb_spec (printsUsed a) (effectiveQuota a)) as [Hlt|Hge].
    + rewrite (ATOMIC_PRINT_DECREMENT_granted _ _ n) by (rewrite ?Hrem1; first [done|lia]).
      cbn [ret]. unfold ret at 1.
      destruct (Z.eqb_spec (n - 1) (-2)) as [|_]; [lia|].
      unfold andThen at 1, ret at 1.
      destruct (Z.eqb_spec (n - 1) (-1)) as [|_]; [lia|].
      unfold PrintQuotaService.writeBehindDbConsume.
      change (db (with_redis (Redis.HINCRBY_remaining (quotaKey d u) (-1) (redis w1)) w1))
        with (db w).
      rewrite Ha, Hrev. intros [= <- <-].
      assert (Hrem' : Redis.HGET_remaining (quotaKey d u)
                        (Redis.HINCRBY_remaining (quotaKey d u) (-1) (redis w1))
                      = Some (effectiveQuota a - printsUsed a - 1)%Z).
      { unfold Redis.HGET_remaining, Redis.HINCRBY_remaining in *. rewrite Hrem1. simpl.
        rewrite lookup_insert_eq. f_equal. lia. }
      split_and!; try done.
      * intros a' n'. cbn [db redis with_db with_redis].
        rewrite lookup_insert_eq. intros [= <-] Hx.
        pose proof (eq_trans (eq_sym Hx) Hrem') as [= ->].
        rewrite effectiveQuota_consumed. cbn [printsUsed set_lastPrintAt set_printsUsed].
        lia.
      * unfold allowed. simpl. by rewrite lookup_insert_eq.
      * unfold spent. simpl. by rewrite lookup_insert_eq.
      * etrans; [|exact Hheld]. apply EXISTS_strs. cbn [redis with_db with_redis].
        apply HINCRBY_remaining_strs.
    + rewrite (ATOMIC_PRINT_DECREMENT_denied _ _ n) by (rewrite ?Hrem1; first [done|lia]).
      unfold ret at 1. cbn [Z.eqb]. unfold andThen at 1, ret at 1. cbn [Z.eqb].
      unfold andThen at 1, try_catch at 1, redis_del. cbn [del_throws healthy].
      unfold throw. intros [= <- <-].
      split_and!; try done.
      * unfold spent. simpl. by rewrite Ha.
      * simpl. apply EXISTS_DEL.
  - (* the counter is not cached *)
    unfold ATOMIC_PRINT_DECREMENT at 1. rewrite Hrem1.
    unfold ret at 1. cbn [Z.eqb Pos.eqb]. rewrite with_redis_id.
    unfold andThen at 1. unfold andThen at 1.
    unfold PrintQuotaService.loadAndComputeRemainingFromDb.
    rewrite Hdb1, Ha, Hrev.
    rewrite (Z.max_l (printsUsed a) (usedPrints a)) by lia.
    rewrite Z.eqb_refl. cbn [negb]. rewrite orb_false_r.
    set (al := set_printsUsed (printsUsed a) (set_printQuota (effectiveQuota a) a)).
    set (wl := if is_null (printQuota a)
               then with_db (<[(d, u) := al]> (db w)) w1 else w1).
    assert (Hwl : ∃ a2, db wl !! (d, u) = Some a2 ∧ revoked a2 = false
                        ∧ effectiveQuota a2 = effectiveQuota a
                        ∧ printsUsed a2 = printsUsed a).
    { subst wl. destruct (is_null (printQuota a)).
      - exists al. simpl. rewrite lookup_insert_eq. by split_and!.
      - exists a. by rewrite Hdb1. }
    destruct Hwl as (a2 & Ha2 & Hrev2 & Hq2 & Hu2).
    assert (Hrl : redis wl = redis w1) by (subst wl; by destruct (is_null (printQuota a))).
    clearbody wl.
    unfold try_catch at 1. unfold andThen at 1. unfold seedRedisRemaining.
    cbn [hset_throws healthy]. unfold andThen at 1.
    unfold redis_eval_decrement. cbn [eval2_throws healthy].
    set (m := Z.max 0 (effectiveQuota a - printsUsed a)).
    rewrite (Z.max_r 0 m) by (subst m; lia).
    set (ws := with_redis (Redis.HSET_remaining (quotaKey d u) m (redis wl)) wl).
    assert (Hms : Redis.HGET_remaining (quotaKey d u) (redis ws) = Some m).
    { subst ws. unfold Redis.HGET_remaining, Redis.HSET_remaining. simpl.
      by rewrite lookup_insert_eq. }
    assert (Hhs : Redis.EXISTS t (reqKey d u rid) (redis ws) = true).
    { etrans; [|exact Hheld]. apply EXISTS_strs. subst ws. simpl. by rewrite Hrl. }
    assert (Hdbs : db ws = db wl) by done.
    clearbody ws.
    destruct (Z.ltb_spec (printsUsed a) (effectiveQuota a)) as [Hlt|Hge].
    + rewrite (ATOMIC_PRINT_DECREMENT_granted _ _ m) by (first [done|subst m; lia]).
      unfold ret at 1. unfold ret at 1.
      destruct (Z.eqb_spec (m - 1) (-1)) as [|_]; [subst m; lia|].
      unfold PrintQuotaService.writeBehindDbConsume.
      change (db (with_redis (Redis.HINCRBY_remaining (quotaKey d u) (-1) (redis ws)) ws))
        with (db ws).
      rewrite Hdbs, Ha2, Hrev2. intros [= <- <-].
      assert (Hrem' : Redis.HGET_remaining (quotaKey d u)
                        (Redis.HINCRBY_remaining (quotaKey d u) (-1) (redis ws))
                      = Some (effectiveQuota a - printsUsed a - 1)%Z).
      { unfold Redis.HGET_remaining, Redis.HINCRBY_remaining in *. rewrite Hms. simpl.
        rewrite lookup_insert_eq. f_equal. subst m. lia. }
      split_and!; try done.
      * intros a' n'. cbn [db redis with_db with_redis].
        rewrite lookup_insert_eq. intros [= <-] Hx.
        pose proof (eq_trans (eq_sym Hx) Hrem') as [= ->].
        rewrite effectiveQuota_consumed. cbn [printsUsed set_lastPrintAt set_printsUsed].
        lia.
      * unfold allowed. cbn [db with_db]. rewrite lookup_insert_eq.
        cbn [fmap option_fmap option_map]. by rewrite effectiveQuota_consumed, Hq2.
      * unfold spent. simpl. rewrite lookup_insert_eq. simpl. by rewrite Hu2.
      * etrans; [|exact Hhs]. apply EXISTS_strs. cbn [redis with_db with_redis].
        apply HINCRBY_remaining_strs.
    + rewrite (ATOMIC_PRINT_DECREMENT_denied _ _ m) by (first [done|subst m; lia]).
      unfold ret at 1. unfold ret at 1. cbn [Z.eqb Pos.eqb].
      unfold andThen at 1, try_catch at 1, redis_del. cbn [del_throws healthy].
      unfold throw. rewrite with_redis_id. intros [= <- <-].
      split_and!.
      * intros a' n'. cbn [db redis with_redis]. rewrite Hdbs, Ha2.
        intros [= <-] Hx. 
        assert (n' = m) as ->.
        { unfold Redis.HGET_remaining, Redis.DEL in *. simpl in Hx. congruence. }
        subst m. lia.
      * unfold allowed. simpl. by rewrite Hdbs, Ha2, <- Hq2.
      * done.
      * unfold spent. simpl. by rewrite Hdbs, Ha2, <- Hu2.
      * simpl. apply EXISTS_DEL.
Qed.


Lemma effectiveQuota_consumeBoth t x :
  effectiveQuota (PrintQuotaServiceV2.consumeBoth t x) = effectiveQuota x.
Proof. done. Qed.

Lemma V2_writeBehind_spec env d u w2 a2 :
  db w2 !! (d, u) = Some a2 → revoked a2 = false →
  ∃ w3, PrintQuotaServiceV2.writeBehind env d u w2 = (Ok tt, w3)
        ∧ redis w3 = redis w2
        ∧ db w3 !! (d, u)
          = Some (PrintQuotaServiceV2.consumeBoth (now env) (backfillQuota a2)).
Proof.
  intros Ha2 Hrev. unfold PrintQuotaServiceV2.writeBehind. rewrite Ha2. cbv zeta.
  rewrite revoked_backfillQuota, Hrev. eexists. split; [reflexivity|].
  split; [by destruct (is_null (printQuota a2))|].
  simpl. by rewrite lookup_insert_eq.
Qed.

Lemma V2_fallback_limit env d u w2 a2 :
  db w2 !! (d, u) = Some a2 → (effectiveQuota a2 ≤ printsUsed a2)%Z →
  ∃ w3, PrintQuotaServiceV2.dbOptimisticConsume env d u w2
        = (Throw (QuotaError LIMIT), w3)
        ∧ redis w3 = redis w2
        ∧ ∃ a3, db w3 !! (d, u) = Some a3
                ∧ effectiveQuota a3 = effectiveQuota a2
                ∧ printsUsed a3 = printsUsed a2.
Proof.
  intros Ha2 Hge. unfold PrintQuotaServiceV2.dbOptimisticConsume. rewrite Ha2. cbv zeta.
  rewrite printsUsed_backfillQuota.
  destruct (Z.ltb_spec (printsUsed a2) (effectiveQuota a2)); [lia|].
  rewrite andb_false_r. eexists. split; [reflexivity|].
  destruct (is_null (printQuota a2)).
  - split; [done|]. exists (backfillQuota a2). simpl. rewrite lookup_insert_eq.
    by rewrite effectiveQuota_backfillQuota, printsUsed_backfillQuota.
  - split; [done|]. by exists a2.
Qed.

Lemma V2_ensure_spec d u w2 a2 :
  db w2 !! (d, u) = Some a2 → revoked a2 = false →
  ∃ w3, PrintQuotaServiceV2.ensureDbQuotaInitialized d u w2
        = (Ok (effectiveQuota a2, Z.max (printsUsed a2) (usedPrints a2)), w3)
        ∧ redis w3 = redis w2
        ∧ ∃ a3, db w3 !! (d, u) = Some a3 ∧ revoked a3 = false
                ∧ effectiveQuota a3 = effectiveQuota a2
                ∧ printsUsed a3 = printsUsed a2.
Proof.
  intros Ha2 Hrev. unfold PrintQuotaServiceV2.ensureDbQuotaInitialized.
  rewrite Ha2, Hrev. cbv zeta. eexists. split; [reflexivity|].
  destruct (is_null (printQuota a2)).
  - split; [done|]. exists (backfillQuota a2). simpl. rewrite lookup_insert_eq.
    by rewrite effectiveQuota_backfillQuota, printsUsed_backfillQuota,
      revoked_backfillQuota.
  - split; [done|]. by exists a2.
Qed.

(** From the decrement on: a world whose cached counter is what the store
    leaves, with the request key held. *)
Lemma V2_settle t d u rid w2 a2 res w' :
  db w2 !! (d, u) = Some a2 → revoked a2 = false →
  Redis.HGET_remaining (quotaKey d u) (redis w2)
  = Some (Z.max 0 (effectiveQuota a2 - printsUsed a2)) →
  Redis.EXISTS t (reqKey d u rid) (redis w2) = true →
  (let '(r, s') :=
     (let! dec := redis_eval_decrement false (quotaKey d u) in
      if (dec =? -1)%Z then throw (QuotaError LIMIT)
      else PrintQuotaServiceV2.writeBehind (healthy t) d u) w2 in
   match r with
   | Ok a0 => (Ok a0, s')
   | Throw _ => PrintQuotaServiceV2.dbOptimisticConsume (healthy t) d u s'
   end) = (res, w') →
  in_sync d u w'
  ∧ allowed d u w' = Some (effectiveQuota a2)
  ∧ Redis.EXISTS t (reqKey d u rid) (redis w') = true
  ∧ (if (printsUsed a2 <? effectiveQuota a2)%Z
     then res = Ok tt
          ∧ spent d u w' = Some (printsUsed a2 + 1)%Z
          ∧ Redis.HGET_remaining (quotaKey d u) (redis w')
            = Some (effectiveQuota a2 - printsUsed a2 - 1)%Z
     else res = Throw (QuotaError LIMIT)
          ∧ spent d u w' = Some (printsUsed a2)).
Proof.
  intros Ha2 Hrev2 Hm Hheld.
  set (m := Z.max 0 (effectiveQuota a2 - printsUsed a2)) in *.
  unfold andThen at 1. unfold redis_eval_decrement.
  destruct (Z.ltb_spec (printsUsed a2) (effectiveQuota a2)) as [Hlt|Hge].
  - rewrite (ATOMIC_PRINT_DECREMENT_granted _ _ m) by (first [done|subst m; lia]).
    destruct (Z.eqb_spec (m - 1) (-1)) as [|_]; [subst m; lia|].
    set (w3 := with_redis (Redis.HINCRBY_remaining (quotaKey d u) (-1) (redis w2)) w2).
    destruct (V2_writeBehind_spec (healthy t) d u w3 a2 Ha2 Hrev2)
      as (w4 & -> & Hr4 & Hdb4).
    intros [= <- <-].
    assert (Hrem' : Redis.HGET_remaining (quotaKey d u) (redis w4)
                    = Some (effectiveQuota a2 - printsUsed a2 - 1)%Z).
    { rewrite Hr4. subst w3. cbn [redis with_redis].
      unfold Redis.HGET_remaining, Redis.HINCRBY_remaining in *. rewrite Hm. simpl.
      rewrite lookup_insert_eq. f_equal. subst m. lia. }
    split_and!; try done.
    + intros a' n'. rewrite Hdb4, Hrem'. intros [= <-] [= <-].
      rewrite effectiveQuota_consumeBoth, effectiveQuota_backfillQuota.
      cbn [printsUsed PrintQuotaServiceV2.consumeBoth set_lastPrintAt set_usedPrints
             set_printsUsed].
      rewrite printsUsed_backfillQuota. lia.
    + unfold allowed. rewrite Hdb4. cbn [fmap option_fmap option_map].
      by rewrite effectiveQuota_consumeBoth, effectiveQuota_backfillQuota.
    + etrans; [|exact Hheld]. apply EXISTS_strs. rewrite Hr4. subst w3.
      cbn [redis with_redis]. apply HINCRBY_remaining_strs.
    + unfold spent. rewrite Hdb4. simpl. by rewrite printsUsed_backfillQuota.
  - rewrite (ATOMIC_PRINT_DECREMENT_denied _ _ m) by (first [done|subst m; lia]).
    cbn [Z.eqb Pos.eqb]. unfold throw. rewrite with_redis_id.
    destruct (V2_fallback_limit (healthy t) d u w2 a2 Ha2 Hge)
      as (w3 & -> & Hr3 & a3 & Hdb3 & Hq3 & Hu3).
    intros [= <- <-].
    split_and!; try done.
    + intros a' n'. rewrite Hdb3, Hr3, Hm. intros [= <-] [= <-].
      subst m. by rewrite Hq3, Hu3.
    + unfold allowed. by rewrite Hdb3; simpl; rewrite Hq3.
    + by rewrite Hr3.
    + unfold spent. by rewrite Hdb3; simpl; rewrite Hu3.
Qed.

Lemma V2_cache_path_outcome t d u requestId w a res w' :
  let rid := trim (or_string requestId "") in
  truthy_string rid = true →
  Redis.EXISTS t (reqKey d u rid) (redis w) = false →
  db w !! (d, u) = Some a → revoked a = false →
  (usedPrints a ≤ printsUsed a)%Z →
  in_sync d u w →
  PrintQuotaServiceV2.assertAndConsumePrintQuota (healthy t) d u requestId w = (res, w') →
  in_sync d u w'
  ∧ allowed d u w' = Some (effectiveQuota a)
  ∧ Redis.EXISTS t (reqKey d u rid) (redis w') = true
  ∧ (if (printsUsed a <? effectiveQuota a)%Z
     then res = Ok tt
          ∧ spent d u w' = Some (printsUsed a + 1)%Z
          ∧ Redis.HGET_remaining (quotaKey d u) (redis w')
            = Some (effectiveQuota a - printsUsed a - 1)%Z
     else res = Throw (QuotaError LIMIT)
          ∧ spent d u w' = Some (printsUsed a)).
Proof.
  intros rid Hrid Hfree Ha Hrev Hlegacy Hsync.
  unfold PrintQuotaServiceV2.assertAndConsumePrintQuota. fold rid.
  rewrite Hrid. cbn [negb client healthy].
  unfold try_catch, PrintQuotaServiceV2.cachePath.
  unfold andThen at 1. unfold redis_set_nx.
  cbn [set_throws healthy now].
  rewrite (SET_NX_EX_free _ _ _ _ _ Hfree). cbn [truthy_string negb].
  set (w1 := with_redis _ w).
  assert (Hheld : Redis.EXISTS t (reqKey d u rid) (redis w1) = true).
  { subst w1. apply EXISTS_SET_EX. unfold IDEMPOTENCY_TTL_SECONDS. lia. }
  assert (Hdb1 : db w1 !! (d, u) = Some a) by done.
  assert (Hrem1 : Redis.HGET_remaining (quotaKey d u) (redis w1)
                  = Redis.HGET_remaining (quotaKey d u) (redis w)) by done.
  clearbody w1. cbn [eval_throws eval2_throws healthy].
  destruct (Redis.HGET_remaining (quotaKey d u) (redis w)) as [n|] eqn:Hn.
  - pose proof (in_sync_remaining d u w a n Hsync Ha Hn) as ->.
    intros Hrun. apply (V2_settle t d u rid w1 a res w' Hdb1 Hrev Hrem1 Hheld).
    rewrite <- Hrun. clear Hrun.
    unfold andThen, redis_eval_decrement, ret.
    destruct (ATOMIC_PRINT_DECREMENT (quotaKey d u) (redis w1)) as [n r] eqn:Hdec.
    assert (n ≠ -2)%Z as Hn2.
    { unfold ATOMIC_PRINT_DECREMENT in Hdec. rewrite Hrem1 in Hdec.
      destruct (_ <=? 0)%Z; injection Hdec as <- _; lia. }
    by destruct (Z.eqb_spec n (-2)) as [|_].
  - unfold andThen at 1. unfold redis_eval_decrement at 1.
    unfold ATOMIC_PRINT_DECREMENT at 1. rewrite Hrem1. cbn [Z.eqb Pos.eqb].
    rewrite with_redis_id.
    unfold andThen at 1. unfold andThen at 1.
    destruct (V2_ensure_spec d u w1 a Hdb1 Hrev)
      as (w2 & -> & Hr2 & a2 & Hdb2 & Hrev2 & Hq2 & Hu2).
    cbn [fst snd]. rewrite (Z.max_l (printsUsed a) (usedPrints a)) by lia.
    unfold andThen at 1. unfold seedRedisRemaining. cbn [hset_throws healthy].
    set (w3 := with_redis _ w2).
    assert (Hdb3 : db w3 !! (d, u) = Some a2) by done.
    assert (Hm3 : Redis.HGET_remaining (quotaKey d u) (redis w3)
                  = Some (Z.max 0 (effectiveQuota a2 - printsUsed a2))).
    { subst w3. unfold Redis.HGET_remaining, Redis.HSET_remaining. simpl.
      rewrite lookup_insert_eq. by rewrite Hq2, Hu2. }
    assert (Hh3 : Redis.EXISTS t (reqKey d u rid) (redis w3) = true).
    { etrans; [|exact Hheld]. apply EXISTS_strs. subst w3. simpl. by rewrite Hr2. }
    clearbody w3. intros Hrun.
    pose proof (V2_settle t d u rid w3 a2 res w' Hdb3 Hrev2 Hm3 Hh3) as Hs.
    rewrite Hq2, Hu2 in Hs. apply Hs. rewrite <- Hrun. clear Hrun Hs.
    by unfold andThen.
Qed.

(** X23.  A call with the cache up, for a request id not seen before, on a
    grant that is not revoked, whose legacy counter [usedPrints] does not
    exceed [printsUsed] (so that nothing is backfilled) and whose cached
    counter (when there is one) agrees with the store: both engines leave cache and store in agreement
    and the quota as it was; below the quota they return after raising
    [printsUsed] by one and lowering the cached counter to
    [quota - printsUsed]; at the quota they fail with LIMIT and consume
    nothing.  After a LIMIT the request key is gone in
    [printQuotaService.js] and held in [printQuotaServiceV2.js]. *)
Theorem healthy_call_keeps_cache_in_sync t d u requestId w a :
  let rid := trim (or_string requestId "") in
  truthy_string rid = true →
  Redis.EXISTS t (reqKey d u rid) (redis w) = false →
  db w !! (d, u) = Some a → revoked a = false →
  (usedPrints a ≤ printsUsed a)%Z →
  in_sync d u w →
  let settled (out : result exn unit * World) (held_after_limit : bool) :=
    in_sync d u out.2
    ∧ allowed d u out.2 = Some (effectiveQuota a)
    ∧ (if (printsUsed a <? effectiveQuota a)%Z
       then out.1 = Ok tt
            ∧ spent d u out.2 = Some (printsUsed a + 1)%Z
            ∧ Redis.HGET_remaining (quotaKey d u) (redis out.2)
              = Some (effectiveQuota a - printsUsed a - 1)%Z
            ∧ Redis.EXISTS t (reqKey d u rid) (redis out.2) = true
       else out.1 = Throw (QuotaError LIMIT)
            ∧ spent d u out.2 = Some (printsUsed a)
            ∧ Redis.EXISTS t (reqKey d u rid) (redis out.2) = held_after_limit) in
  settled (PrintQuotaService.assertAndConsumePrintQuota (healthy t) d u requestId w)
          false
  ∧ settled (PrintQuotaServiceV2.assertAndConsumePrintQuota (healthy t) d u requestId w)
            true.
Proof.
  intros rid Hrid Hfree Ha Hrev Hlegacy Hsync settled. subst settled. cbv beta.
  split.
  - destruct (PrintQuotaService.assertAndConsumePrintQuota (healthy t) d u requestId w)
      as [res w'] eqn:Hrun.
    destruct (cache_path_outcome t d u requestId w a res w'
                Hrid Hfree Ha Hrev Hlegacy Hsync Hrun) as (H1 & H2 & H3).
    cbn [fst snd]. split_and!; try done.
  - destruct (PrintQuotaServiceV2.assertAndConsumePrintQuota (healthy t) d u requestId w)
      as [res w'] eqn:Hrun.
    destruct (V2_cache_path_outcome t d u requestId w a res w'
                Hrid Hfree Ha Hrev Hlegacy Hsync Hrun) as (H1 & H2 & H3 & H4).
    cbn [fst snd]. split; [done|]. split; [done|].
    destruct (printsUsed a <? effectiveQuota a)%Z.
    + destruct H4 as (?&?&?). by split_and!.
    + destruct H4 as (?&?). by split_and!.
Qed.

Lemma healthy_call_keeps_cache_in_sync_witness :
  (spent "d" "u"
     (PrintQuotaService.assertAndConsumePrintQuota (healthy 0) "d" "u" (Some "r1")
        (cold 2 0)).2 = Some 1%Z
   ∧ remainingOf
       (PrintQuotaService.assertAndConsumePrintQuota (healthy 0) "d" "u" (Some "r1")
          (cold 2 0)).2 = Some 1%Z)
  ∧ (PrintQuotaServiceV2.assertAndConsumePrintQuota (healthy 0) "d" "u" (Some "r1")
       (cached 2 2 0)).1 = Throw (QuotaError LIMIT).
Proof.
  assert (Hcold : in_sync "d" "u" (cold 2 0)) by (intros a n _ Hn; discriminate Hn).
  assert (Hwarm : in_sync "d" "u" (cached 2 2 0)).
  { intros a n Ha Hn. vm_compute in Ha, Hn. by injection Ha as <-; injection Hn as <-. }
  destruct (healthy_call_keeps_cache_in_sync 0 "d" "u" (Some "r1") (cold 2 0)
              (grant 2 0) eq_refl eq_refl eq_refl eq_refl ltac:(simpl; lia) Hcold)
    as [(_ & _ & H1) _].
  destruct (healthy_call_keeps_cache_in_sync 0 "d" "u" (Some "r1") (cached 2 2 0)
              (grant 2 2) eq_refl eq_refl eq_refl eq_refl ltac:(simpl; lia) Hwarm)
    as [_ (_ & _ & H2)].
  cbn in H1, H2.
  destruct H1 as (_ & Hs & Hr & _). destruct H2 as (Hl & _).
  split; [split; [exact Hs|exact Hr]|exact Hl].
Defined.

End QuotaExtras.

Section RequestIds.
Import Quota QuotaVocabulary Scenarios QuotaSyncVocabulary DocsRoutes.

Lemma is_ws2_not_ws c1 c2 : is_ws2 c1 c2 = true → is_ws c1 = false.
Proof.
  unfold is_ws2, is_ws. intros [H _]%andb_true_iff. apply Nat.eqb_eq in H.
  by rewrite H.
Qed.

Lemma is_ws3_not_ws c1 c2 c3 : is_ws3 c1 c2 c3 = true → is_ws c1 = false.
Proof.
  unfold is_ws3, is_ws.
  destruct (nat_of_ascii c1) as [|n] eqn:E; [done|].
  do 9 (destruct n as [|n]; [done|]).
  do 4 (destruct n as [|n]; [done|]).
  do 19 (destruct n as [|n]; [done|]).
  destruct n as [|n]; [done|]. done.
Qed.

Lemma is_ws3_not_ws2 c1 c2 c3 : is_ws3 c1 c2 c3 = true → is_ws2 c1 c2 = false.
Proof.
  unfold is_ws3, is_ws2. intros H.
  destruct (Nat.eqb_spec (nat_of_ascii c1) 194) as [E|]; [|done].
  by rewrite E in H.
Qed.

(** Stripping the white space in front, by strong induction on the string. *)
Lemma trimStart_ind (P : string → Prop) :
  P EmptyString →
  (∀ c r, is_ws c = true → P r → P (String c r)) →
  (∀ c1 c2 r, is_ws c1 = false → is_ws2 c1 c2 = true → P r →
              P (String c1 (String c2 r))) →
  (∀ c1 c2 c3 r, is_ws c1 = false → is_ws2 c1 c2 = false →
                 is_ws3 c1 c2 c3 = true → P r →
                 P (String c1 (String c2 (String c3 r)))) →
  (∀ s, s ≠ EmptyString → trimStart s = s → P s) →
  ∀ s, P s.
Proof.
  intros H0 H1 H2 H3 Hk s.
  assert (∀ n s, (String.length s < n)%nat → P s) as Hgen;
    [|apply (Hgen (S (String.length s))); lia].
  clear s. induction n as [|n IH]; intros s Hn; [lia|].
  destruct s as [|c1 r1]; [done|].
  destruct (is_ws c1) eqn:E1; [apply H1; [done|]; apply IH; simpl in Hn; lia|].
  destruct r1 as [|c2 r2].
  { apply Hk; [done|]. simpl. by rewrite E1. }
  destruct (is_ws2 c1 c2) eqn:E2; [apply H2; try done; apply IH; simpl in Hn; lia|].
  destruct r2 as [|c3 r3].
  { apply Hk; [done|]. simpl. by rewrite E1, E2. }
  destruct (is_ws3 c1 c2 c3) eqn:E3; [apply H3; try done; apply IH; simpl in Hn; lia|].
  apply Hk; [done|]. simpl. by rewrite E1, E2, E3.
Qed.

Lemma trimStart_idemp s : trimStart (trimStart s) = trimStart s.
Proof.
  induction s as [| | | |s Hne Hs] using trimStart_ind; try done.
  - simpl. by rewrite H.
  - cbn [trimStart]. by rewrite H, H0.
  - cbn [trimStart]. by rewrite H, H0, H1.
  - by rewrite Hs.
Qed.

Lemma trimStart_Blank s : trimStart s = EmptyString ↔ Blank s.
Proof.
  split.
  - induction s as [| | | |s Hne Hs] using trimStart_ind.
    + constructor.
    + simpl. rewrite H. intros. by constructor; auto.
    + cbn [trimStart]. rewrite H, H0. intros. by constructor 3; auto.
    + cbn [trimStart]. rewrite H, H0, H1. intros. by constructor 4; auto.
    + intros E. congruence.
  - induction 1 as [|c r Hc _ IH|c1 c2 r Hc _ IH|c1 c2 c3 r Hc _ IH]; [done|..].
    + simpl. by rewrite Hc.
    + cbn [trimStart]. by rewrite (is_ws2_not_ws _ _ Hc), Hc.
    + cbn [trimStart].
      by rewrite (is_ws3_not_ws _ _ _ Hc), (is_ws3_not_ws2 _ _ _ Hc), Hc.
Qed.

Lemma Blank_app p w : Blank p → Blank w → Blank (p +:+ w).
Proof.
  induction 1; intros Hw; simpl; [done|..].
  - constructor 2; auto.
  - constructor 3; auto.
  - constructor 4; auto.
Qed.

(** What [trimEnd] drops is white space. *)
Lemma trimEnd_split s : ∃ w, s = (trimEnd s +:+ w)%string ∧ Blank w.
Proof.
  induction s as [|c s (w & Hs & Hw)]; [exists EmptyString; by split; [|constructor]|].
  cbn [trimEnd]. destruct (trimStart (String c s)) eqn:E.
  - exists (String c s). split; [done|]. by apply trimStart_Blank.
  - exists w. split; [|done].
    change (String c s = String c (trimEnd s +:+ w)). by rewrite <- Hs.
Qed.

Lemma trimEnd_Blank s : Blank (trimEnd s) → Blank s.
Proof.
  intros Hb. destruct (trimEnd_split s) as (w & Hs & Hw).
  rewrite Hs. by apply Blank_app.
Qed.

Lemma trimEnd_idemp s : trimEnd (trimEnd s) = trimEnd s.
Proof.
  induction s as [|c s IH]; [done|].
  cbn [trimEnd]. destruct (trimStart (String c s)) as [|a t] eqn:E; [done|].
  assert (Hkept : trimEnd (String c s) = String c (trimEnd s)).
  { cbn [trimEnd]. by rewrite E. }
  cbn [trimEnd]. destruct (trimStart (String c (trimEnd s))) eqn:E2.
  - apply trimStart_Blank in E2. rewrite <- Hkept in E2.
    apply trimEnd_Blank, trimStart_Blank in E2. congruence.
  - by rewrite IH.
Qed.

Lemma trimStart_length s : (String.length (trimStart s) ≤ String.length s)%nat.
Proof.
  induction s as [| | | |s Hne Hs] using trimStart_ind; [done|..].
  - simpl. rewrite H. lia.
  - cbn [trimStart]. rewrite H, H0. simpl. lia.
  - cbn [trimStart]. rewrite H, H0, H1. simpl. lia.
  - by rewrite Hs.
Qed.

(** [trimEnd] keeps a first character that is not white space. *)
Lemma trimStart_trimEnd s :
  trimStart s = s → trimStart (trimEnd s) = trimEnd s.
Proof.
  intros Hs. destruct (trimEnd_split s) as (w & Hw & _).
  revert Hs Hw. generalize (trimEnd s) as t. intros t.
  destruct t as [|c r Hc _|c1 c2 r Hc1 Hc2 _|c1 c2 c3 r Hc1 Hc2 Hc3 _|t Hne Ht]
    using trimStart_ind; try done.
  all: intros Hs Hw; exfalso; apply (f_equal String.length) in Hs; rewrite Hw in Hs.
  - change (String c r +:+ w) with (String c (r +:+ w)) in Hs.
    cbn [trimStart] in Hs. rewrite Hc in Hs.
    pose proof (trimStart_length (r +:+ w)). simpl in Hs. lia.
  - change (String c1 (String c2 r) +:+ w)
      with (String c1 (String c2 (r +:+ w))) in Hs.
    cbn [trimStart] in Hs. rewrite Hc1, Hc2 in Hs.
    pose proof (trimStart_length (r +:+ w)). simpl in Hs. lia.
  - change (String c1 (String c2 (String c3 r)) +:+ w)
      with (String c1 (String c2 (String c3 (r +:+ w)))) in Hs.
    cbn [trimStart] in Hs. rewrite Hc1, Hc2, Hc3 in Hs.
    pose proof (trimStart_length (r +:+ w)). simpl in Hs. lia.
Qed.

Lemma trim_idemp s : trim (trim s) = trim s.
Proof.
  unfold trim. rewrite trimStart_trimEnd by apply trimStart_idemp.
  apply trimEnd_idemp.
Qed.

(** X24.  The print routes never hand the engine a blank request id: the id
    is the trimmed header, else the trimmed body field, else the fresh UUID;
    it is not empty and trimming leaves it as it is, so the engine does not
    answer BAD_REQUEST and the idempotency key carries exactly this id. *)
Theorem routes_pass_usable_request_id header body uuid :
  truthy_string uuid = true → trim uuid = uuid →
  let rid := incomingRequestId header body uuid in
  truthy_string rid = true
  ∧ trim (or_string (Some rid) "") = rid
  ∧ graceful_for_all rid.
Proof.
  intros Hu Ht rid.
  assert (Hrid : truthy_string rid = true ∧ trim rid = rid).
  { subst rid. unfold incomingRequestId.
    destruct header as [h|]; [destruct (truthy_string (trim h)) eqn:Hh|];
      [by rewrite trim_idemp| |];
      (destruct body as [b|]; [destruct (truthy_string (trim b)) eqn:Hb|];
       [by rewrite trim_idemp|done|done]). }
  destruct Hrid as [H1 H2]. split; [done|].
  assert (H3 : trim (or_string (Some rid) "") = rid).
  { unfold or_string. by rewrite H1. }
  split; [done|]. intros env d u.
  apply graceful_with_request_id. by rewrite H3.
Qed.

Lemma routes_pass_usable_request_id_witness :
  truthy_string (incomingRequestId (Some "  ") (Some " r-17 ") "c0ffee") = true
  ∧ trim (or_string (Some (incomingRequestId (Some "  ") (Some " r-17 ") "c0ffee")) "")
    = incomingRequestId (Some "  ") (Some " r-17 ") "c0ffee"
  ∧ graceful_for_all (incomingRequestId (Some "  ") (Some " r-17 ") "c0ffee").
Proof.
  apply (routes_pass_usable_request_id (Some "  ") (Some " r-17 ") "c0ffee");
    reflexivity.
Defined.

End RequestIds.

Section Reaper.
Import Scheduler JobCleanup JobCleanupVocabulary.

Lemma expire_not_due env nullOutput ev d j :
  due env (expire env nullOutput ev d j) = false.
Proof. done. Qed.

Lemma sweep_jobs_lookup env query deletes nullOutput ev d w id :
  jobs (sweep env query deletes nullOutput ev d w) !! id
  = (λ j, if query j then expire env nullOutput ev d j else j) <$> jobs w !! id.
Proof. unfold sweep. simpl. by rewrite lookup_fmap. Qed.

(** The four sweeps, seen from one document. *)
Lemma runJobCleanupOnce_lookup env w id :
  jobs (runJobCleanupOnce env w) !! id = reaped env <$> jobs w !! id.
Proof.
  unfold runJobCleanupOnce. cbv zeta. rewrite !sweep_jobs_lookup.
  destruct (jobs w !! id) as [j|]; [|done]. simpl. f_equal. unfold reaped.
  destruct (runningExpired env j) eqn:H1; [done|].
  destruct (staleRunning env j) eqn:H2; [done|].
  destruct (doneExpired env j) eqn:H3; [done|].
  by destruct (failedOld env j) eqn:H4.
Qed.

Lemma reaped_not_due env j : due env (reaped env j) = false.
Proof.
  unfold reaped.
  destruct (runningExpired env j) eqn:H1; [done|].
  destruct (staleRunning env j) eqn:H2; [done|].
  destruct (doneExpired env j) eqn:H3; [done|].
  destruct (failedOld env j) eqn:H4; [done|].
  unfold due. by rewrite H1, H2, H3, H4.
Qed.

Lemma reaped_id env j : due env j = false → reaped env j = j.
Proof.
  unfold due, reaped. intros H.
  destruct (runningExpired env j); [done|].
  destruct (staleRunning env j); [done|].
  destruct (doneExpired env j); [done|].
  by destruct (failedOld env j).
Qed.

Lemma deleteOutput_lookup env j bl k :
  deleteOutput env j bl !! k = None
  ∨ deleteOutput env j bl !! k = bl !! k.
Proof.
  unfold deleteOutput. destruct (key (output j)) as [k'|]; [|by right].
  destruct (_ && _); [|by right].
  destruct (decide (k' = k)) as [->|Hne].
  - left. apply lookup_delete_eq.
  - right. by apply lookup_delete_ne.
Qed.

Lemma deleteOutput_keeps env j bl k :
  deletable k = false → deleteOutput env j bl !! k = bl !! k.
Proof.
  intros Hk. unfold deleteOutput. destruct (key (output j)) as [k'|]; [|done].
  destruct (truthy_string k' && deletable k' && negb (delete_fails env k')) eqn:E;
    [|done].
  apply lookup_delete_ne. intros ->. by rewrite Hk, andb_false_r in E.
Qed.

Lemma foldr_deleteOutput env (found : list (string * Job)) bl k :
  (foldr (λ p bl0, deleteOutput env p.2 bl0) bl found !! k = None
   ∨ foldr (λ p bl0, deleteOutput env p.2 bl0) bl found !! k = bl !! k)
  ∧ (deletable k = false →
     foldr (λ p bl0, deleteOutput env p.2 bl0) bl found !! k = bl !! k).
Proof.
  induction found as [|p found [IH1 IH2]]; simpl; [by split; [right|]|].
  split.
  - destruct (deleteOutput_lookup env p.2
                (foldr (λ p bl0, deleteOutput env p.2 bl0) bl found) k) as [->| ->];
      [by left|done].
  - intros Hk. by rewrite deleteOutput_keeps, IH2.
Qed.

Lemma sweep_blobs env query deletes nullOutput ev d w k :
  (blobs (sweep env query deletes nullOutput ev d w) !! k = None
   ∨ blobs (sweep env query deletes nullOutput ev d w) !! k = blobs w !! k)
  ∧ (deletable k = false →
     blobs (sweep env query deletes nullOutput ev d w) !! k = blobs w !! k).
Proof.
  unfold sweep. simpl. destruct deletes; [apply foldr_deleteOutput|by split; [right|]].
Qed.

Lemma sweep_nothing_due env query deletes nullOutput ev d w :
  (∀ id j, jobs w !! id = Some j → query j = false) →
  sweep env query deletes nullOutput ev d w = w.
Proof.
  intros Hnone. unfold sweep.
  assert (Hfound : filter (λ p, query p.2 = true) (map_to_list (jobs w)) = []).
  { destruct (filter _ _) as [|p l'] eqn:E; [done|]. exfalso.
    assert (Hin : p ∈ filter (λ p, query p.2 = true) (map_to_list (jobs w)))
      by (rewrite E; left).
    apply list_elem_of_filter in Hin as [HP Hin].
    apply elem_of_map_to_list' in Hin. by rewrite (Hnone _ _ Hin) in HP. }
  rewrite Hfound. destruct w as [js bl]. simpl in *. f_equal.
  - apply map_eq. intros id. rewrite lookup_fmap.
    destruct (js !! id) as [j|] eqn:Hj; [|done]. simpl.
    by rewrite (Hnone _ _ Hj).
  - by destruct deletes.
Qed.

(** X29.  One run of the reaper at time [now]: every document is either
    left as it was or, when one of the four queries found it, saved EXPIRED
    with one more audit entry and the time of the run; afterwards no document
    is found by any of the queries, so a second run at the same time changes
    nothing.  The run writes no blob and deletes none outside
    [documents/final/] and [documents/print/]. *)
Theorem reaper_expires_what_is_due env w :
  let w' := runJobCleanupOnce env w in
  (∀ id, jobs w' !! id = reaped env <$> jobs w !! id)
  ∧ (∀ id j', jobs w' !! id = Some j' → due env j' = false)
  ∧ (∀ id j, jobs w !! id = Some j → due env j = true →
       ∃ j', jobs w' !! id = Some j' ∧ status j' = EXPIRED
             ∧ updatedAt j' = now env
             ∧ ∃ entry, audit j' = audit j ++ [entry])
  ∧ (∀ k, blobs w' !! k = None ∨ blobs w' !! k = blobs w !! k)
  ∧ (∀ k, deletable k = false → blobs w' !! k = blobs w !! k)
  ∧ runJobCleanupOnce env w' = w'.
Proof.
  intros w'. subst w'.
  assert (Hnot : ∀ id j', jobs (runJobCleanupOnce env w) !! id = Some j' →
                          due env j' = false).
  { intros id j'. rewrite runJobCleanupOnce_lookup.
    destruct (jobs w !! id) as [j|]; [|done]. intros [= <-]. apply reaped_not_due. }
  split_and!.
  - apply runJobCleanupOnce_lookup.
  - exact Hnot.
  - intros id j Hj Hdue. rewrite runJobCleanupOnce_lookup, Hj. simpl.
    eexists. split; [reflexivity|]. unfold reaped, due in *.
    destruct (runningExpired env j); [by split_and!; [..|eexists]|].
    destruct (staleRunning env j); [by split_and!; [..|eexists]|].
    destruct (doneExpired env j); [by split_and!; [..|eexists]|].
    destruct (failedOld env j); [by split_and!; [..|eexists]|done].
  - intros k. unfold runJobCleanupOnce. cbv zeta.
    repeat match goal with
    | |- context [blobs (sweep env ?q ?dl ?n ?ev ?d ?w0) !! k] =>
        destruct (proj1 (sweep_blobs env q dl n ev d w0 k)) as [->| ->]; [by left|]
    end.
    by right.
  - intros k Hk. unfold runJobCleanupOnce. cbv zeta.
    by rewrite !(proj2 (sweep_blobs _ _ _ _ _ _ _ k) Hk).
  - set (w' := runJobCleanupOnce env w) in *.
    assert (Hq : ∀ id j, jobs w' !! id = Some j →
              runningExpired env j = false ∧ staleRunning env j = false
              ∧ doneExpired env j = false ∧ failedOld env j = false).
    { intros id j Hj. specialize (Hnot id j Hj). unfold due in Hnot.
      by repeat (apply orb_false_elim in Hnot as [Hnot ?]). }
    clearbody w'. unfold runJobCleanupOnce. cbv zeta.
    rewrite (sweep_nothing_due env (runningExpired env)) by (intros; by eapply Hq).
    rewrite (sweep_nothing_due env (staleRunning env)) by (intros; by eapply Hq).
    rewrite (sweep_nothing_due env (doneExpired env)) by (intros; by eapply Hq).
    by rewrite (sweep_nothing_due env (failedOld env)) by (intros; by eapply Hq).
Qed.

End Reaper.

Section StableStringifyFacts.
Import StableStringify.

Lemma ascii_compare_N a b : Ascii.compare a b = N.compare (N_of_ascii a) (N_of_ascii b).
Proof. reflexivity. Qed.

Lemma string_compare_trans_le a : ∀ b c,
  String.compare a b ≠ Gt → String.compare b c ≠ Gt → String.compare a c ≠ Gt.
Proof.
  induction a as [|x a IH]; intros [|y b] [|z c]; simpl; try done.
  rewrite !ascii_compare_N.
  destruct (N.compare_spec (N_of_ascii x) (N_of_ascii y)) as [Hxy|Hxy|Hxy];
    destruct (N.compare_spec (N_of_ascii y) (N_of_ascii z)) as [Hyz|Hyz|Hyz];
    destruct (N.compare_spec (N_of_ascii x) (N_of_ascii z)) as [Hxz|Hxz|Hxz];
    try done; try lia.
  apply IH.
Qed.

Global Instance key_le_trans : Transitive key_le.
Proof.
  intros a b c. unfold key_le, String.leb. intros Hab Hbc.
  pose proof (string_compare_trans_le a b c) as H.
  destruct (String.compare a b), (String.compare b c), (String.compare a c);
    try done; by destruct H.
Qed.

Global Instance key_le_total : Total key_le.
Proof. intros a b. apply String.leb_total. Qed.

Global Instance key_le_antisym : AntiSymm (=) key_le.
Proof. intros a b. apply String.leb_antisym. Qed.

Lemma merge_sort_keys_perm (l l' : list string) :
  l ≡ₚ l' → merge_sort key_le l = merge_sort key_le l'.
Proof.
  intros Hp. apply (StronglySorted_unique key_le).
  - apply StronglySorted_merge_sort; apply _.
  - apply StronglySorted_merge_sort; apply _.
  - by rewrite !merge_sort_Permutation.
Qed.

Lemma objectEntries_perm quote (r r' : list (string * string)) :
  NoDup r.*1 → r ≡ₚ r' → objectEntries quote r = objectEntries quote r'.
Proof.
  intros Hnd Hp. unfold objectEntries.
  rewrite (merge_sort_keys_perm r.*1 r'.*1) by (by rewrite Hp).
  by rewrite (list_to_map_proper (M := gmap string) r r' Hnd Hp).
Qed.

(** X30.  The canonical text of an object, and with it the MAC of a payload,
    does not depend on the order in which the keys were inserted: two objects
    with the same keys, each with a value of the same canonical text, have
    the same [stableStringify], the same signature, and [verifyJobPayload]
    gives the same verdict on them. *)
Theorem job_mac_ignores_key_order quote hmac hlen secret mac
    (fields fields' : list (string * json)) :
  NoDup fields.*1 →
  rendered quote fields ≡ₚ rendered quote fields' →
  let c := crypto quote hmac hlen in
  stableStringify quote (JObject fields) = stableStringify quote (JObject fields')
  ∧ Hmac.signJobPayload c secret (JObject fields)
    = Hmac.signJobPayload c secret (JObject fields')
  ∧ Hmac.verifyJobPayload c secret (JObject fields) mac
    = Hmac.verifyJobPayload c secret (JObject fields') mac.
Proof.
  intros Hnd Hp c.
  assert (Hs : stableStringify quote (JObject fields)
               = stableStringify quote (JObject fields')).
  { cbn [stableStringify]. fold (rendered quote fields) (rendered quote fields').
    assert (Hnd' : NoDup (rendered quote fields).*1).
    { unfold rendered. by rewrite <- list_fmap_compose. }
    by rewrite (objectEntries_perm quote _ _ Hnd' Hp). }
  assert (Hsig : Hmac.signJobPayload c secret (JObject fields)
                 = Hmac.signJobPayload c secret (JObject fields')).
  { unfold Hmac.signJobPayload. subst c. cbn [Hmac.stableStringify crypto]. by rewrite Hs. }
  split_and!; [done|done|]. unfold Hmac.verifyJobPayload. by rewrite Hsig.
Qed.

Lemma job_mac_ignores_key_order_witness :
  let quote := λ k, ("'" +:+ k +:+ "'")%string in
  let c := crypto quote (λ _ _, replicate 32 Byte.x00) (λ _ _, eq_refl) in
  let left_ := [("b", JPrim "2"); ("a", JObject [("y", JNull); ("x", JArray [])])] in
  let right_ := [("a", JObject [("x", JArray []); ("y", JNull)]); ("b", JPrim "2")] in
  stableStringify quote (JObject left_) = stableStringify quote (JObject right_)
  ∧ Hmac.signJobPayload c (Some "secret") (JObject left_)
    = Hmac.signJobPayload c (Some "secret") (JObject right_)
  ∧ Hmac.verifyJobPayload c (Some "secret") (JObject left_) "00"
    = Hmac.verifyJobPayload c (Some "secret") (JObject right_) "00".
Proof.
  cbv zeta.
  apply (job_mac_ignores_key_order (λ k, ("'" +:+ k +:+ "'")%string)
           (λ _ _, replicate 32 Byte.x00) (λ _ _, eq_refl) (Some "secret") "00"
           [("b", JPrim "2"); ("a", JObject [("y", JNull); ("x", JArray [])])]
           [("a", JObject [("x", JArray []); ("y", JNull)]); ("b", JPrim "2")]).
  - apply (bool_decide_unpack _). vm_compute. reflexivity.
  - vm_compute. apply Permutation_swap.
Defined.

End StableStringifyFacts.

Section SeriesReturns.
Import Number VectorLayoutEngine LayoutVocabulary LayoutScenarios.
Local Open Scope float_scope.

Lemma above_0 v : is_finite v = true → (0 <? v) = true → (v <=? 0) = false.
Proof.
  intros Hfin. rewrite ltb_0_leb_0 by (by apply is_finite_not_nan).
  by intros ->%negb_true_iff.
Qed.

Lemma drawLetters_returns lib fnt cfg scale drawY sizes :
  (∀ op, drawText_error lib op = None) →
  (∀ txt size_, is_ok (widthOfTextAtSize fnt txt size_) = true) →
  is_ok (parseColor lib (or_ustring (color cfg) (lit "#000000"))) = true →
  ∀ chars li cursorX st,
    ∃ st', drawLetters lib fnt cfg scale drawY sizes li chars cursorX st = (Ok tt, st').
Proof.
  intros Hdraw Hwidth Hcolor.
  induction chars as [|ch chars IH]; intros li cursorX st; [by eexists|].
  cbn [drawLetters]. unfold andThen at 1, lift at 1.
  destruct (parseColor lib _) as [c|]; [|done].
  unfold andThen at 1, drawText. rewrite Hdraw. unfold modify.
  unfold andThen at 1, lift at 1.
  specialize (Hwidth [ch] (or_missing (sizes !! li) (fontSize cfg) * scale)).
  destruct (widthOfTextAtSize fnt _ _) as [w|]; [|done].
  apply IH.
Qed.

Lemma drawSeriesSlot_returns lib eng fnt cfg p R i placement st :
  (∀ op, drawText_error lib op = None) →
  (∀ txt size_, is_ok (widthOfTextAtSize fnt txt size_) = true) →
  (is_Some (slotOf cfg i) → drawable lib p R (cfg, i, placement)) →
  ∃ st', drawSeriesSlot lib eng fnt cfg p R i placement st = (Ok tt, st').
Proof.
  intros Hdraw Hwidth Hslot. unfold drawSeriesSlot.
  destruct (slotOf cfg i) as [slot_|]; [|by eexists].
  destruct Hslot as ((objW & objH & -> & HfW & HfH & HpW & HpH)
                     & (scale & -> & Hfs & Hps) & Hvalue & Hkey & Hcolor); [done|].
  unfold andThen at 1, lift at 1.
  destruct (seriesValue lib cfg p R i) as [value|]; [|done].
  cbn [default from_option]. unfold id.
  rewrite HfW, HfH, (above_0 _ HfW HpW), (above_0 _ HfH HpH). cbn [negb orb].
  rewrite Hfs, (above_0 _ Hfs Hps). cbn [negb orb].
  unfold andThen at 1, getMetrics. unfold andThen at 1, lift at 1.
  destruct (mkString lib _) as [key|]; [|done].
  assert (Hwhole : ∀ drawX drawY s2,
    ∃ st', (let! seriesColor :=
              lift (parseColor lib (or_ustring (color cfg) (lit "#000000"))) in
            drawText lib (mkDrawText value drawX drawY (fontSize cfg * scale)
                            (fontName fnt) seriesColor)) s2 = (Ok tt, st')).
  { intros drawX drawY s2. unfold andThen, lift.
    destruct (parseColor lib _) as [c|]; [|done].
    unfold drawText. rewrite Hdraw. by eexists. }
  unfold applyCalibration.
  destruct (cache st !! key);
    (destruct (letterFontSizes cfg) as [[|s0 sizes]|];
       [apply Hwhole|by apply drawLetters_returns|apply Hwhole]).
Qed.

Lemma drawSlots_returns lib eng fnt cfg p R maxSlots :
  (∀ op, drawText_error lib op = None) →
  (∀ txt size_, is_ok (widthOfTextAtSize fnt txt size_) = true) →
  ∀ rest i st,
    Forall (drawable lib p R) (slotsOf cfg maxSlots i rest) →
    ∃ st', drawSlots lib eng fnt cfg p R maxSlots i rest st = (Ok tt, st').
Proof.
  intros Hdraw Hwidth.
  induction rest as [|placement rest IH]; intros i st; [by eexists|].
  cbn [drawSlots]. rewrite slotsOf_cons.
  destruct (of_nat i <? maxSlots); [|by eexists].
  intros [Hhere Hrest]%Forall_app.
  destruct (drawSeriesSlot_returns lib eng fnt cfg p R i placement st Hdraw Hwidth)
    as (s1 & Hs1).
  { intros [slot_ Hslot]. rewrite Hslot in Hhere. by inversion Hhere. }
  unfold andThen at 1. rewrite Hs1. by apply IH.
Qed.

(** X32.  [drawSeriesNumbers] returns when [page.drawText] accepts every
    call, every series has a font that [embedFont] gives and that measures
    every text, and every slot it has to draw can be drawn: its placement
    has a finite positive object box and scale, its series string and the
    key of its metrics are strings the engine can build, and pdf-lib accepts
    its colour. *)
Theorem drawSeriesNumbers_returns lib eng series p R placements st :
  (∀ op, drawText_error lib op = None) →
  Forall (usableFont lib eng) series →
  Forall (drawable lib p R) (drawnSlots series R placements) →
  ∃ st', drawSeriesNumbers lib eng series p R placements st = (Ok tt, st').
Proof.
  intros Hdraw. revert st.
  induction series as [|cfg series IH]; intros st Hfonts; [by eexists|].
  inversion Hfonts as [|? ? (fnt & Hfnt & Hwidth) Hfonts']; subst.
  unfold drawnSlots. cbn [mbind list_bind]. intros [Hhere Hrest]%Forall_app.
  cbn [drawSeriesNumbers]. unfold andThen at 1, lift at 1. rewrite Hfnt.
  destruct (drawSlots_returns lib eng fnt cfg p R (maxSlotsOf R placements)
              Hdraw Hwidth placements 0%nat st Hhere) as (s1 & Hs1).
  unfold andThen at 1. rewrite Hs1. by apply IH.
Qed.

(** The statement above on page 2 of the end-to-end scenario. *)
Lemma drawSeriesNumbers_returns_witness :
  ∃ st', drawSeriesNumbers plainLib plainEngine [seriesA None] 1 1 [placement1]
           blankPage = (Ok tt, st').
Proof.
  apply (drawSeriesNumbers_returns plainLib plainEngine [seriesA None] 1 1
           [placement1] blankPage).
  - reflexivity.
  - constructor; [|constructor]. exists (plainFont "Helvetica").
    split; reflexivity.
  - constructor; [|constructor]. split_and!.
    + exists 400, 200. by vm_compute.
    + exists 1. by vm_compute.
    + by vm_compute.
    + by vm_compute.
    + by vm_compute.
Defined.

End SeriesReturns.
